(** * Traffic-control actions of libnl (lib/route/act.c)

    A shallow embedding of the action chain operations, the attribute
    codec, the request builder and the cache adapter of
    [lib/route/act.c], with the properties stated about them.

    Memory is an explicit store: a finite map from locations to action
    records; a C pointer is [option loc], [None] being [NULL].  Loops that
    follow [a_next] take fuel, and a result of [None] means that the fuel
    ran out or that a location outside the store was dereferenced. *)

From Stdlib Require Import ZArith List Lia Bool.
From Stdlib Require Import Strings.Byte.
From stdpp Require Import base option list gmap.

Open Scope Z_scope.

(** ** Constants of the headers *)

Module Const.

(** Error numbers of [netlink/errno.h]. *)
Definition NLE_FAILURE : Z := 1.
Definition NLE_NOMEM : Z := 5.
Definition NLE_RANGE : Z := 8.
Definition NLE_MSGSIZE : Z := 9.
Definition NLE_OBJ_NOTFOUND : Z := 12.
Definition NLE_MISSING_ATTR : Z := 14.

(** [linux/pkt_cls.h], [linux/rtnetlink.h], [linux/netlink.h].  Of the
    attribute tables only the entries named here are read, so any value
    of [TCA_ACT_MAX] from [TCA_ACT_STATS] on, and of [TCAA_MAX] from
    [TCA_ACT_TAB] on, gives the same results. *)
Definition TCA_ACT_MAX_PRIO : Z := 32.
Definition TCA_ACT_KIND : Z := 1.
Definition TCA_ACT_OPTIONS : Z := 2.
Definition TCA_ACT_STATS : Z := 4.
Definition TCA_ACT_MAX : Z := 4.
Definition TCA_ACT_TAB : Z := 1.
Definition TCAA_MAX : Z := 1.
Definition RTM_NEWACTION : Z := 48.
Definition RTM_DELACTION : Z := 49.
Definition RTM_GETACTION : Z := 50.
Definition NLM_F_REPLACE : Z := 256.
Definition AF_UNSPEC : Z := 0.
Definition TCKINDSIZ : Z := 32.

(** [linux/gen_stats.h]: attribute numbers and structure sizes. *)
Definition TCA_STATS_BASIC : Z := 1.
Definition TCA_STATS_RATE_EST : Z := 2.
Definition TCA_STATS_QUEUE : Z := 3.
Definition TCA_STATS_RATE_EST64 : Z := 5.
Definition TCA_STATS_MAX : Z := 8.
Definition sizeof_gnet_stats_basic : Z := 16.
Definition sizeof_gnet_stats_queue : Z := 20.
Definition sizeof_gnet_stats_rate_est : Z := 8.
Definition sizeof_gnet_stats_rate_est64 : Z := 16.

(** Attribute mask bits of [struct rtnl_tc]. *)
Definition TCA_ATTR_KIND : Z := 8.
Definition TCA_ATTR_OPTS : Z := 64.
Definition TCA_ATTR_LINK : Z := 512.

End Const.
Import Const.

(** ** The action record and the store *)

Abbreviation loc := positive.

(** Indices of [tc_stats]. *)
Inductive rtnl_tc_stat :=
| RTNL_TC_PACKETS | RTNL_TC_BYTES | RTNL_TC_RATE_BPS | RTNL_TC_RATE_PPS
| RTNL_TC_QLEN | RTNL_TC_BACKLOG | RTNL_TC_DROPS | RTNL_TC_REQUEUES
| RTNL_TC_OVERLIMITS.

Definition rtnl_tc_stat_eqb (a b : rtnl_tc_stat) : bool :=
  match a, b with
  | RTNL_TC_PACKETS, RTNL_TC_PACKETS | RTNL_TC_BYTES, RTNL_TC_BYTES
  | RTNL_TC_RATE_BPS, RTNL_TC_RATE_BPS | RTNL_TC_RATE_PPS, RTNL_TC_RATE_PPS
  | RTNL_TC_QLEN, RTNL_TC_QLEN | RTNL_TC_BACKLOG, RTNL_TC_BACKLOG
  | RTNL_TC_DROPS, RTNL_TC_DROPS | RTNL_TC_REQUEUES, RTNL_TC_REQUEUES
  | RTNL_TC_OVERLIMITS, RTNL_TC_OVERLIMITS => true
  | _, _ => false
  end.

(** [struct rtnl_act], which is a [struct rtnl_tc] followed by [a_next].
    [tc_stats] is kept as the list of the stores made to it, newest
    first; [tc_subdata] is the kind-specific payload, opaque here. *)
Record rtnl_act := mk_act {
  ce_refcnt : Z;
  ce_mask : Z;
  ce_msgtype : Z;
  tc_family : Z;
  tc_ifindex : Z;
  tc_kind : list byte;
  tc_opts : option (list byte);
  tc_stats : list (rtnl_tc_stat * Z);
  tc_link : option Z;
  tc_subdata : list byte;
  a_next : option loc
}.

Abbreviation heap := (gmap positive rtnl_act).

Definition set_next (a : rtnl_act) (n : option loc) : rtnl_act :=
  mk_act (ce_refcnt a) (ce_mask a) (ce_msgtype a) (tc_family a)
         (tc_ifindex a) (tc_kind a) (tc_opts a) (tc_stats a) (tc_link a)
         (tc_subdata a) n.

Definition set_refcnt (a : rtnl_act) (r : Z) : rtnl_act :=
  mk_act r (ce_mask a) (ce_msgtype a) (tc_family a)
         (tc_ifindex a) (tc_kind a) (tc_opts a) (tc_stats a) (tc_link a)
         (tc_subdata a) (a_next a).

(** The value read from [tc_stats[i]]: the newest store, or 0 as
    left by the allocator. *)
Fixpoint stat_get (s : list (rtnl_tc_stat * Z)) (i : rtnl_tc_stat) : Z :=
  match s with
  | [] => 0
  | (j, v) :: s' => if rtnl_tc_stat_eqb i j then v else stat_get s' i
  end.

(** ** Chains *)

(** The nodes reached from [p] through [a_next], in order. *)
Fixpoint chain_nodes (fuel : nat) (h : heap) (p : option loc)
  : option (list loc) :=
  match p with
  | None => Some []
  | Some x =>
    match fuel with
    | O => None
    | S f =>
      match h !! x with
      | None => None
      | Some a =>
        match chain_nodes f h (a_next a) with
        | Some l => Some (x :: l)
        | None => None
        end
      end
    end
  end.

(** [is_chain h p l]: in [h], the chain starting at [p] consists of the
    nodes [l] and ends in [NULL]. *)
Fixpoint is_chain (h : heap) (p : option loc) (l : list loc) : Prop :=
  match l with
  | [] => p = None
  | x :: l' =>
    p = Some x /\ exists a, h !! x = Some a /\ is_chain h (a_next a) l'
  end.

(** [is_seg h p l q]: following [a_next] from [p] goes through the nodes
    [l] and arrives at [q]. *)
Fixpoint is_seg (h : heap) (p : option loc) (l : list loc) (q : option loc)
  : Prop :=
  match l with
  | [] => p = q
  | x :: l' =>
    p = Some x /\ exists a, h !! x = Some a /\ is_seg h (a_next a) l' q
  end.

(** ** rtnl_act_next *)

Definition rtnl_act_next (h : heap) (act : option loc)
  : option (option loc) :=
  match act with
  | None => Some None
  | Some x =>
    match h !! x with
    | Some a => Some (a_next a)
    | None => None
    end
  end.

(** ** rtnl_act_append *)

(** The [while (p_act->a_next)] loop: the last node and the count. *)
Fixpoint append_walk (fuel : nat) (h : heap) (p : loc) (count : Z)
  : option (loc * Z) :=
  match fuel with
  | O => None
  | S f =>
    match h !! p with
    | None => None
    | Some a =>
      match a_next a with
      | Some q => append_walk f h q (count + 1)
      | None => Some (p, count)
      end
    end
  end.

(** Returns the error code, the store and the value of [*head]. *)
Definition rtnl_act_append (fuel : nat) (h : heap) (head : option loc)
    (new : option loc) : option (Z * heap * option loc) :=
  match head with
  | None => Some (0, h, new)
  | Some p =>
    match append_walk fuel h p 1 with
    | None => None
    | Some (last, count) =>
      if TCA_ACT_MAX_PRIO <? count then Some (- NLE_RANGE, h, head)
      else
        match h !! last with
        | Some a => Some (0, <[last := set_next a new]> h, head)
        | None => None
        end
    end
  end.

(** ** rtnl_act_remove *)

(** [ap] is either the caller's [head] variable or the [a_next] field of
    a node. *)
Inductive slot := SlotHead | SlotNext (x : loc).

Definition slot_write (h : heap) (head : option loc) (s : slot)
    (v : option loc) : option (heap * option loc) :=
  match s with
  | SlotHead => Some (h, v)
  | SlotNext x =>
    match h !! x with
    | Some a => Some (<[x := set_next a v]> h, head)
    | None => None
    end
  end.

Definition ptr_eqb (a b : option loc) : bool :=
  match a, b with
  | None, None => true
  | Some x, Some y => Pos.eqb x y
  | _, _ => false
  end.

(** The [for] loop: the slot [ap] and the node [a] it stops at. *)
Fixpoint remove_walk (fuel : nat) (h : heap) (ap : slot) (a : option loc)
    (act : option loc) : option (slot * option loc) :=
  match a with
  | None => Some (ap, None)
  | Some x =>
    if ptr_eqb a act then Some (ap, a)
    else
      match fuel with
      | O => None
      | S f =>
        match h !! x with
        | Some r => remove_walk f h (SlotNext x) (a_next r) act
        | None => None
        end
      end
  end.

Definition rtnl_act_remove (fuel : nat) (h : heap) (head : option loc)
    (act : option loc) : option (Z * heap * option loc) :=
  match remove_walk fuel h SlotHead head act with
  | None => None
  | Some (ap, None) => Some (- NLE_OBJ_NOTFOUND, h, head)
  | Some (ap, Some x) =>
    match h !! x with
    | None => None
    | Some r =>
      match slot_write h head ap (a_next r) with
      | None => None
      | Some (h1, head1) =>
        match h1 !! x with
        | Some r1 => Some (0, <[x := set_next r1 None]> h1, head1)
        | None => None
        end
      end
    end
  end.

(** ** Reference counting *)

(** Modelled from the spec: [nl_object_put] of the object framework is
    not part of this file.  It releases one reference: the count is
    decremented, and the object is destroyed when it reaches zero.  The
    store is a record of what the program wrote and not a model of the
    allocator: the record of a destroyed object stays in it with its
    count, an object whose count is 0 or less is destroyed, and the
    second component logs every release, so that a release of the last
    reference and a later use can be seen.  What the program does with a
    destroyed object is undefined; the properties below that speak of
    references follow the program only as far as it uses no destroyed
    object. *)
Definition nl_object_put (h : heap) (log : list loc) (obj : option loc)
  : option (heap * list loc) :=
  match obj with
  | None => Some (h, log)
  | Some x =>
    match h !! x with
    | Some a => Some (<[x := set_refcnt a (ce_refcnt a - 1)]> h, log ++ [x])
    | None => None
    end
  end.

Definition rtnl_act_put (h : heap) (log : list loc) (act : option loc)
  : option (heap * list loc) :=
  nl_object_put h log act.

(** ** rtnl_act_put_all *)

Fixpoint put_all_walk (fuel : nat) (h : heap) (log : list loc)
    (curr : option loc) : option (heap * list loc) :=
  match curr with
  | None => Some (h, log)
  | Some x =>
    match fuel with
    | O => None
    | S f =>
      match h !! x with
      | None => None
      | Some a =>
        let next := a_next a in
        match rtnl_act_put h log curr with
        | Some (h1, log1) => put_all_walk f h1 log1 next
        | None => None
        end
      end
    end
  end.

(** Returns the store, the release log and the value of [*head]. *)
Definition rtnl_act_put_all (fuel : nat) (h : heap) (log : list loc)
    (head : option loc) : option (heap * list loc * option loc) :=
  match put_all_walk fuel h log head with
  | Some (h1, log1) => Some (h1, log1, None)
  | None => None
  end.

(** ** Bytes and little-endian fields *)

Definition byte_of_Z (z : Z) : byte :=
  match Byte.of_N (Z.to_N (z mod 256)) with
  | Some b => b
  | None => x00
  end.

Definition Z_of_byte (b : byte) : Z := Z.of_N (Byte.to_N b).

Definition blen (l : list byte) : Z := Z.of_nat (length l).

Definition zeros (n : Z) : list byte := repeat x00 (Z.to_nat n).

(** A [w]-byte unsigned field in host order (little-endian). *)
Fixpoint put_le (w : nat) (n : Z) : list byte :=
  match w with
  | O => []
  | S w' => byte_of_Z n :: put_le w' (n / 256)
  end.

Fixpoint get_le (w : nat) (l : list byte) : Z :=
  match w with
  | O => 0
  | S w' =>
    match l with
    | [] => 0
    | b :: l' => Z_of_byte b + 256 * get_le w' l'
    end
  end.

Definition bdrop (n : Z) (l : list byte) : list byte := drop (Z.to_nat n) l.
Definition btake (n : Z) (l : list byte) : list byte := take (Z.to_nat n) l.

(** ** Netlink messages and attributes *)

(** Modelled from the spec: the message and attribute primitives
    ([nlmsg_alloc_simple], [nlmsg_append], [nla_put], [nla_nest_start],
    [nla_nest_end], [nla_parse], [nla_strlcpy], [nl_data_alloc_attr]) are
    not part of this file.  An attribute is a tagged, length-prefixed
    field: a 16-bit length that counts the 4-byte header, a 16-bit tag,
    the payload, and padding to a multiple of 4; a nested attribute has a
    sequence of attributes as its payload.  A write that does not fit the
    message buffer fails. *)
Definition NLA_HDRLEN : Z := 4.
Definition NLMSG_HDRLEN : Z := 16.
Definition NLA_ALIGN (n : Z) : Z := (n + 3) / 4 * 4.
Definition NLMSG_ALIGN (n : Z) : Z := (n + 3) / 4 * 4.

(** [struct nl_msg]: the fields of the header that this file sets, the
    bytes after the header, and the size of the buffer. *)
Record nl_msg := mk_msg {
  nlmsg_type : Z;
  nlmsg_flags : Z;
  nm_payload : list byte;
  nm_size : Z
}.

Definition nlmsg_len (m : nl_msg) : Z := NLMSG_HDRLEN + blen (nm_payload m).

Definition msg_with_payload (m : nl_msg) (p : list byte) : nl_msg :=
  mk_msg (nlmsg_type m) (nlmsg_flags m) p (nm_size m).

(** [nlmsg_append (msg, data, len, NLMSG_ALIGNTO)]. *)
Definition nlmsg_append (m : nl_msg) (data : list byte) : option nl_msg :=
  let tlen := NLMSG_ALIGN (blen data) in
  if nm_size m <? nlmsg_len m + tlen then None
  else Some (msg_with_payload m
               (nm_payload m ++ data ++ zeros (tlen - blen data))).

(** [nla_put (msg, attrtype, datalen, data)]. *)
Definition nla_put (m : nl_msg) (attrtype : Z) (data : list byte)
  : option nl_msg :=
  let pad0 := NLMSG_ALIGN (nlmsg_len m) - nlmsg_len m in
  let alen := NLA_HDRLEN + blen data in
  let tlen := NLMSG_ALIGN (nlmsg_len m) + NLA_ALIGN alen in
  if nm_size m <? tlen then None
  else Some (msg_with_payload m
               (nm_payload m ++ zeros pad0 ++ put_le 2 alen
                  ++ put_le 2 attrtype ++ data
                  ++ zeros (NLA_ALIGN alen - alen))).

(** [nla_nest_start]: an attribute with no payload yet; the result
    carries the offset of its header in the payload. *)
Definition nla_nest_start (m : nl_msg) (attrtype : Z)
  : option (nl_msg * Z) :=
  match nla_put m attrtype [] with
  | Some m' => Some (m', blen (nm_payload m') - NLA_HDRLEN)
  | None => None
  end.

(** [nla_nest_end]: the length of the attribute at [start] becomes the
    distance from [start] to the tail of the message. *)
Definition nla_nest_end (m : nl_msg) (start : Z) : nl_msg :=
  let p := nm_payload m in
  let pad := NLMSG_ALIGN (nlmsg_len m) - nlmsg_len m in
  msg_with_payload m
    (btake start p ++ put_le 2 (blen p - start) ++ bdrop (start + 2) p
       ++ zeros pad).

(** A pointer to an attribute inside a buffer: the two header fields and
    the bytes from the end of the header to the end of the buffer. *)
Record nlattr := mk_nla {
  nla_len_field : Z;
  nla_type : Z;
  nla_data : list byte
}.

Definition nla_len (a : nlattr) : Z := nla_len_field a - NLA_HDRLEN.

(** The attributes of a stream of [rem] bytes ([nla_for_each_attr] with
    [nla_ok] and [nla_next]). *)
Fixpoint nla_stream (fuel : nat) (p : list byte) (rem : Z) : list nlattr :=
  match fuel with
  | O => []
  | S f =>
    let l := get_le 2 p in
    if (NLA_HDRLEN <=? rem) && (NLA_HDRLEN <=? l) && (l <=? rem) then
      mk_nla l (get_le 2 (bdrop 2 p)) (bdrop NLA_HDRLEN p)
        :: nla_stream f (bdrop (NLA_ALIGN l) p) (rem - NLA_ALIGN l)
    else []
  end.

(** [tb[t]] after [nla_parse]: the last attribute of type [t]. *)
Fixpoint tb_get (tb : list nlattr) (t : Z) : option nlattr :=
  match tb with
  | [] => None
  | a :: tb' =>
    match tb_get tb' t with
    | Some b => Some b
    | None => if nla_type a =? t then Some a else None
    end
  end.

(** A policy gives the minimal payload length of a type, 0 when it asks
    for none. *)
Definition nla_policy := Z -> Z.

Definition validate_nla (policy : nla_policy) (a : nlattr) : bool :=
  policy (nla_type a) <=? nla_len a.

(** [nla_parse (tb, maxtype, head, len, policy)]: the error code and the
    table. Attributes of a type above [maxtype] are skipped. *)
Definition nla_parse (maxtype : Z) (head : list byte) (len : Z)
    (policy : option nla_policy) : Z * list nlattr :=
  let tb := List.filter (fun a => nla_type a <=? maxtype)
                   (nla_stream (length head) head len) in
  match policy with
  | Some pol =>
    if forallb (validate_nla pol) tb then (0, tb) else (- NLE_RANGE, [])
  | None => (0, tb)
  end.

Definition nla_parse_nested (maxtype : Z) (a : nlattr)
    (policy : option nla_policy) : Z * list nlattr :=
  nla_parse maxtype (nla_data a) (nla_len a) policy.

Fixpoint until_nul (l : list byte) : list byte :=
  match l with
  | [] => []
  | b :: l' => if Byte.eqb b x00 then [] else b :: until_nul l'
  end.

(** [nla_strlcpy (dst, nla, dstsize)] followed by reading [dst] as a C
    string. *)
Definition nla_strlcpy (a : nlattr) (dstsize : Z) : list byte :=
  let src := btake (nla_len a) (nla_data a) in
  let srclen :=
    if (0 <? blen src) && Byte.eqb (List.last src x01) x00
    then blen src - 1 else blen src in
  until_nul (btake (Z.min srclen (dstsize - 1)) src).

(** The bytes captured by [nl_data_alloc_attr]. *)
Definition nl_data_of_attr (a : nlattr) : list byte :=
  btake (nla_len a) (nla_data a).

(** ** Program state *)

(** The store, the next unused location, the number of allocations that
    will still succeed, and the log of the releases made so far. *)
Record state := mk_state {
  st_heap : heap;
  st_next : loc;
  st_avail : nat;
  st_log : list loc
}.

(** What [nl_object_alloc] returns: zeroed, with one reference. *)
Definition act_zero : rtnl_act :=
  mk_act 1 0 0 0 0 [] None [] None [] None.

(** [rtnl_act_alloc]: [NULL] when memory is exhausted.  The location
    handed out is one that holds no object; that the allocator may hand
    out the memory of a destroyed object again is not modelled. *)
Definition rtnl_act_alloc (st : state) : state * option loc :=
  match st_avail st with
  | O => (st, None)
  | S n =>
    (mk_state (<[st_next st := act_zero]> (st_heap st))
              (Pos.succ (st_next st)) n (st_log st),
     Some (st_next st))
  end.

Definition st_put (st : state) (act : option loc) : option state :=
  match rtnl_act_put (st_heap st) (st_log st) act with
  | Some (h, log) => Some (mk_state h (st_next st) (st_avail st) log)
  | None => None
  end.

Definition st_put_all (fuel : nat) (st : state) (head : option loc)
  : option state :=
  match rtnl_act_put_all fuel (st_heap st) (st_log st) head with
  | Some (h, log, _) => Some (mk_state h (st_next st) (st_avail st) log)
  | None => None
  end.

(** Modelled from the spec: the cleanup attributes [_nl_auto_rtnl_act]
    and [_nl_auto_rtnl_act_all] are not part of this file.  A local
    variable declared with one of them is released when its scope is
    left, on every path, unless the pointer was moved out of it
    ([_nl_steal_pointer]) before: the first with [rtnl_act_put], the
    second with [rtnl_act_put_all]. *)
Definition nl_auto_rtnl_act (st : state) (act : option loc) : option state :=
  st_put st act.

Definition nl_auto_rtnl_act_all (fuel : nat) (st : state)
    (head : option loc) : option state :=
  st_put_all fuel st head.

(** ** Kind-specific operations *)

(** [struct rtnl_tc_ops], the three members used here.  A fill operation
    writes to the message and returns an error code; the parser reads the
    action and writes its kind-specific data, and returns an error
    code. *)
Record rtnl_tc_ops := mk_ops {
  to_msg_fill : option (rtnl_act -> nl_msg -> Z * nl_msg);
  to_msg_fill_raw : option (rtnl_act -> nl_msg -> Z * nl_msg);
  to_msg_parser : option (rtnl_act -> Z * list byte)
}.

Definition has_mask (a : rtnl_act) (bit : Z) : bool :=
  negb (Z.land (ce_mask a) bit =? 0).

Definition or_mask (a : rtnl_act) (bit : Z) : rtnl_act :=
  mk_act (ce_refcnt a) (Z.lor (ce_mask a) bit) (ce_msgtype a) (tc_family a)
         (tc_ifindex a) (tc_kind a) (tc_opts a) (tc_stats a) (tc_link a)
         (tc_subdata a) (a_next a).

Definition set_kind_field (a : rtnl_act) (k : list byte) : rtnl_act :=
  mk_act (ce_refcnt a) (ce_mask a) (ce_msgtype a) (tc_family a)
         (tc_ifindex a) k (tc_opts a) (tc_stats a) (tc_link a)
         (tc_subdata a) (a_next a).

Definition set_opts (a : rtnl_act) (o : option (list byte)) : rtnl_act :=
  mk_act (ce_refcnt a) (ce_mask a) (ce_msgtype a) (tc_family a)
         (tc_ifindex a) (tc_kind a) o (tc_stats a) (tc_link a)
         (tc_subdata a) (a_next a).

Definition set_stat (a : rtnl_act) (i : rtnl_tc_stat) (v : Z) : rtnl_act :=
  mk_act (ce_refcnt a) (ce_mask a) (ce_msgtype a) (tc_family a)
         (tc_ifindex a) (tc_kind a) (tc_opts a) ((i, v) :: tc_stats a)
         (tc_link a) (tc_subdata a) (a_next a).

Definition set_msgtype (a : rtnl_act) (v : Z) : rtnl_act :=
  mk_act (ce_refcnt a) (ce_mask a) v (tc_family a)
         (tc_ifindex a) (tc_kind a) (tc_opts a) (tc_stats a) (tc_link a)
         (tc_subdata a) (a_next a).

Definition set_family (a : rtnl_act) (v : Z) : rtnl_act :=
  mk_act (ce_refcnt a) (ce_mask a) (ce_msgtype a) v
         (tc_ifindex a) (tc_kind a) (tc_opts a) (tc_stats a) (tc_link a)
         (tc_subdata a) (a_next a).

Definition set_subdata (a : rtnl_act) (d : list byte) : rtnl_act :=
  mk_act (ce_refcnt a) (ce_mask a) (ce_msgtype a) (tc_family a)
         (tc_ifindex a) (tc_kind a) (tc_opts a) (tc_stats a) (tc_link a)
         d (a_next a).

Definition set_link (a : rtnl_act) (l : Z) : rtnl_act :=
  mk_act (ce_refcnt a) (ce_mask a) (ce_msgtype a) (tc_family a)
         (tc_ifindex a) (tc_kind a) (tc_opts a) (tc_stats a) (Some l)
         (tc_subdata a) (a_next a).

(** Modelled from the spec: [rtnl_tc_set_kind] is not part of this file;
    it sets the kind on the entity. *)
Definition rtnl_tc_set_kind (a : rtnl_act) (k : list byte) : rtnl_act :=
  or_mask (set_kind_field a k) TCA_ATTR_KIND.

(** Modelled from the spec: [rtnl_tc_set_link] is not part of this file;
    it records the resolved link on the entity. *)
Definition rtnl_tc_set_link (a : rtnl_act) (l : Z) : rtnl_act :=
  or_mask (set_link a l) TCA_ATTR_LINK.

(** [tc_act_stats_policy]. *)
Definition tc_act_stats_policy : nla_policy := fun t =>
  if t =? TCA_STATS_BASIC then sizeof_gnet_stats_basic
  else if t =? TCA_STATS_QUEUE then sizeof_gnet_stats_queue
  else if t =? TCA_STATS_RATE_EST then sizeof_gnet_stats_rate_est
  else if t =? TCA_STATS_RATE_EST64 then sizeof_gnet_stats_rate_est64
  else 0.

(** ** The attribute codec *)

Section Codec.

(** The kind registry and the allocator of the kind-specific data, which
    live outside this file. *)
Variable rtnl_tc_get_ops : rtnl_act -> option rtnl_tc_ops.
Variable rtnl_tc_data : rtnl_act -> option (list byte).

(** The buffer size of a new message, and whether its allocation
    succeeds. *)
Variable default_msg_size : Z.
Variable nlmsg_alloc_ok : bool.

(** *** Build *)

Definition rtnl_act_fill_one (msg : nl_msg) (tc : rtnl_act) (order : Z)
  : Z * nl_msg :=
  match nla_nest_start msg order with
  | None => (- NLE_NOMEM, msg)
  | Some (m1, nest) =>
    match (if has_mask tc TCA_ATTR_KIND
           then nla_put m1 TCA_ACT_KIND (tc_kind tc ++ [x00])
           else Some m1) with
    | None => (- NLE_NOMEM, m1)
    | Some m2 =>
      match rtnl_tc_get_ops tc with
      | Some ops =>
        match to_msg_fill ops, to_msg_fill_raw ops with
        | Some fill, _ =>
          match nla_nest_start m2 TCA_ACT_OPTIONS with
          | None => (- NLE_NOMEM, m2)
          | Some (m3, opts) =>
            let '(err, m4) := fill tc m3 in
            if err <? 0 then (err, m4)
            else (0, nla_nest_end (nla_nest_end m4 opts) nest)
          end
        | None, Some fill_raw =>
          let '(err, m3) := fill_raw tc m2 in
          if err <? 0 then (err, m3) else (0, nla_nest_end m3 nest)
        | None, None => (0, nla_nest_end m2 nest)
        end
      | None => (0, nla_nest_end m2 nest)
      end
    end
  end.

(** The [while (p_act)] loop of [rtnl_act_fill]. *)
Fixpoint fill_walk (fuel : nat) (h : heap) (msg : nl_msg)
    (p_act : option loc) (order : Z) : option (Z * nl_msg) :=
  match p_act with
  | None => Some (0, msg)
  | Some x =>
    match fuel with
    | O => None
    | S f =>
      match h !! x with
      | None => None
      | Some a =>
        let '(err, m1) := rtnl_act_fill_one msg a (order + 1) in
        if err <? 0 then Some (err, m1)
        else fill_walk f h m1 (a_next a) (order + 1)
      end
    end
  end.

Definition rtnl_act_fill (fuel : nat) (h : heap) (msg : nl_msg)
    (attrtype : Z) (act : option loc) : option (Z * nl_msg) :=
  match nla_nest_start msg attrtype with
  | None => Some (- NLE_MSGSIZE, msg)
  | Some (m1, nest) =>
    match fill_walk fuel h m1 act 0 with
    | None => None
    | Some (err, m2) =>
      if err <? 0 then Some (err, m2) else Some (0, nla_nest_end m2 nest)
    end
  end.

(** *** Requests *)

Definition nlmsg_alloc_simple (type flags : Z) : option nl_msg :=
  if nlmsg_alloc_ok then Some (mk_msg type flags [] default_msg_size)
  else None.

(** [struct tcamsg]: the family and three bytes of padding. *)
Definition tcamsg_bytes (family : Z) : list byte :=
  [byte_of_Z family; x00; x00; x00].

(** The error code and, on success, the message stored in [*result]. *)
Definition rtnl_act_msg_build (fuel : nat) (h : heap) (act : option loc)
    (type flags : Z) : option (Z * option nl_msg) :=
  match nlmsg_alloc_simple type flags with
  | None => Some (- NLE_NOMEM, None)
  | Some msg =>
    match nlmsg_append msg (tcamsg_bytes AF_UNSPEC) with
    | None => Some (- NLE_MSGSIZE, None)
    | Some m1 =>
      match rtnl_act_fill fuel h m1 TCA_ACT_TAB act with
      | None => None
      | Some (err, m2) =>
        if err <? 0 then Some (err, None) else Some (0, Some m2)
      end
    end
  end.

Definition act_build (fuel : nat) (h : heap) (act : option loc)
    (type flags : Z) : option (Z * option nl_msg) :=
  match rtnl_act_msg_build fuel h act type flags with
  | None => None
  | Some (err, result) => if err <? 0 then Some (err, result)
                          else Some (0, result)
  end.

Definition rtnl_act_build_add_request (fuel : nat) (h : heap)
    (act : option loc) (flags : Z) : option (Z * option nl_msg) :=
  act_build fuel h act RTM_NEWACTION flags.

Definition rtnl_act_build_change_request (fuel : nat) (h : heap)
    (act : option loc) (flags : Z) : option (Z * option nl_msg) :=
  act_build fuel h act RTM_NEWACTION (Z.lor NLM_F_REPLACE flags).

Definition rtnl_act_build_delete_request (fuel : nat) (h : heap)
    (act : option loc) (flags : Z) : option (Z * option nl_msg) :=
  act_build fuel h act RTM_DELACTION flags.

(** *** Parse *)

(** The body of [if (tb2[TCA_ACT_STATS])] once [tb3] is parsed. *)
Definition parse_stats (tc : rtnl_act) (tb3 : list nlattr) : rtnl_act :=
  let tc1 :=
    match tb_get tb3 TCA_STATS_BASIC with
    | Some bs =>
      set_stat (set_stat tc RTNL_TC_BYTES (get_le 8 (nla_data bs)))
               RTNL_TC_PACKETS (get_le 4 (bdrop 8 (nla_data bs)))
    | None => tc
    end in
  let tc2 :=
    match tb_get tb3 TCA_STATS_RATE_EST64 with
    | Some re =>
      set_stat (set_stat tc1 RTNL_TC_RATE_BPS (get_le 8 (nla_data re)))
               RTNL_TC_RATE_PPS (get_le 8 (bdrop 8 (nla_data re)))
    | None =>
      match tb_get tb3 TCA_STATS_RATE_EST with
      | Some re =>
        set_stat (set_stat tc1 RTNL_TC_RATE_BPS (get_le 4 (nla_data re)))
                 RTNL_TC_RATE_PPS (get_le 4 (bdrop 4 (nla_data re)))
      | None => tc1
      end
    end in
  match tb_get tb3 TCA_STATS_QUEUE with
  | Some q =>
    set_stat (set_stat tc2 RTNL_TC_DROPS (get_le 4 (bdrop 8 (nla_data q))))
             RTNL_TC_OVERLIMITS (get_le 4 (bdrop 16 (nla_data q)))
  | None => tc2
  end.

(** The loop body of [rtnl_act_parse] from the second [nla_parse] to the
    kind parser, on the entity just allocated: the error code, the entity
    as it is when the body is left, and the allocations still
    available. *)
Definition parse_fields (tc : rtnl_act) (a : nlattr) (avail : nat)
  : Z * rtnl_act * nat :=
  let '(err, tb2) := nla_parse TCA_ACT_MAX (nla_data a) (nla_len a) None in
  if err <? 0 then (err, tc, avail)
  else
    match tb_get tb2 TCA_ACT_KIND with
    | None => (- NLE_MISSING_ATTR, tc, avail)
    | Some k =>
      let tc1 := rtnl_tc_set_kind tc (nla_strlcpy k TCKINDSIZ) in
      let r_opts :=
        match tb_get tb2 TCA_ACT_OPTIONS with
        | Some o =>
          match avail with
          | O => (- NLE_NOMEM, tc1, avail)
          | S n =>
            (0, or_mask (set_opts tc1 (Some (nl_data_of_attr o)))
                        TCA_ATTR_OPTS, n)
          end
        | None => (0, tc1, avail)
        end in
      let '(err1, tc2, avail2) := r_opts in
      if err1 <? 0 then (err1, tc2, avail2)
      else
        let r_stats :=
          match tb_get tb2 TCA_ACT_STATS with
          | Some s =>
            let '(err2, tb3) :=
              nla_parse_nested TCA_STATS_MAX s (Some tc_act_stats_policy) in
            if err2 <? 0 then (err2, tc2) else (0, parse_stats tc2 tb3)
          | None => (0, tc2)
          end in
        let '(err3, tc3) := r_stats in
        if err3 <? 0 then (err3, tc3, avail2)
        else
          match rtnl_tc_get_ops tc3 with
          | Some ops =>
            match to_msg_parser ops with
            | Some parser =>
              match rtnl_tc_data tc3 with
              | None => (- NLE_NOMEM, tc3, avail2)
              | Some _ =>
                let '(err4, d) := parser tc3 in
                let tc4 := set_subdata tc3 d in
                if err4 <? 0 then (err4, tc4, avail2) else (0, tc4, avail2)
              end
            | None => (0, tc3, avail2)
            end
          | None => (0, tc3, avail2)
          end
    end.

(** One iteration of the [for] loop for a present [nla[i]], with the
    release of [act] when its scope is left: the error code, the state
    and the value of [tmp_head]. *)
Definition parse_one (fuel : nat) (st : state) (tmp_head : option loc)
    (a : nlattr) : option (Z * state * option loc) :=
  match rtnl_act_alloc st with
  | (st1, None) => Some (- NLE_NOMEM, st1, tmp_head)
  | (st1, Some x) =>
    let '(err, tc, avail) := parse_fields act_zero a (st_avail st1) in
    let st2 := mk_state (<[x := tc]> (st_heap st1)) (st_next st1) avail
                        (st_log st1) in
    if err <? 0 then
      match nl_auto_rtnl_act st2 (Some x) with
      | Some st3 => Some (err, st3, tmp_head)
      | None => None
      end
    else
      match rtnl_act_append fuel (st_heap st2) tmp_head (Some x) with
      | None => None
      | Some (err1, h3, tmp_head1) =>
        let st3 := mk_state h3 (st_next st2) (st_avail st2) (st_log st2) in
        match nl_auto_rtnl_act st3 (Some x) with
        | Some st4 =>
          if err1 <? 0 then Some (err1, st4, tmp_head1)
          else Some (0, st4, tmp_head1)
        | None => None
        end
      end
  end.

(** The [for (i = 0; i < TCA_ACT_MAX_PRIO; i++)] loop, [n] iterations
    from [i]. *)
Fixpoint parse_loop (n : nat) (i : Z) (fuel : nat) (st : state)
    (tmp_head : option loc) (nla : list nlattr)
  : option (Z * state * option loc) :=
  match n with
  | O => Some (0, st, tmp_head)
  | S n' =>
    match tb_get nla i with
    | None => parse_loop n' (i + 1) fuel st tmp_head nla
    | Some a =>
      match parse_one fuel st tmp_head a with
      | None => None
      | Some (err, st1, tmp_head1) =>
        if err <? 0 then Some (err, st1, tmp_head1)
        else parse_loop n' (i + 1) fuel st1 tmp_head1 nla
      end
    end
  end.

(** Returns the error code, the state and the value of [*head]. When the
    function is left with an error, the chain in [tmp_head] is released
    by [rtnl_act_put_all]; on success it is moved to [*head]. *)
Definition rtnl_act_parse (fuel : nat) (st : state) (head : option loc)
    (tb : nlattr) : option (Z * state * option loc) :=
  let '(err, nla) :=
    nla_parse TCA_ACT_MAX_PRIO (nla_data tb) (NLMSG_ALIGN (nla_len tb))
              None in
  if err <? 0 then Some (err, st, head)
  else
    match parse_loop (Z.to_nat TCA_ACT_MAX_PRIO) 0 fuel st None nla with
    | None => None
    | Some (err1, st1, tmp_head) =>
      if err1 <? 0 then
        match nl_auto_rtnl_act_all fuel st1 tmp_head with
        | Some st2 => Some (err1, st2, head)
        | None => None
        end
      else Some (0, st1, tmp_head)
    end.

(** *** The cache adapter *)

(** A received message: the type of its header and the bytes after the
    header. *)
Record nlmsghdr := mk_nlh {
  nlh_type : Z;
  nlh_data : list byte
}.

Definition NLE_MSG_TOOSHORT : Z := 21.
Definition sizeof_tcamsg : Z := 4.

(** Modelled from the spec: [nlmsg_parse] is not part of this file.  It
    checks that the message holds the protocol header and parses the
    attributes that follow it. *)
Definition nlmsg_parse (n : nlmsghdr) (hdrlen maxtype : Z)
    (policy : option nla_policy) : Z * list nlattr :=
  if blen (nlh_data n) <? hdrlen then (- NLE_MSG_TOOSHORT, [])
  else nla_parse maxtype (bdrop (NLMSG_ALIGN hdrlen) (nlh_data n))
                 (Z.max (blen (nlh_data n) - NLMSG_ALIGN hdrlen) 0) policy.

(** The link cache, when one is registered: from an interface index to
    the link found for it. *)
Variable link_cache : option (Z -> option Z).

Definition heap_modify (st : state) (x : loc) (f : rtnl_act -> rtnl_act)
  : option state :=
  match st_heap st !! x with
  | Some a => Some (mk_state (<[x := f a]> (st_heap st)) (st_next st)
                             (st_avail st) (st_log st))
  | None => None
  end.

(** Returns the error code, the state and the value of [*act]. *)
Definition rtnl_act_msg_parse (fuel : nat) (st : state) (n : nlmsghdr)
    (act : option loc) : option (Z * state * option loc) :=
  match act with
  | None => None
  | Some tc =>
    match heap_modify st tc (fun a => set_msgtype a (nlh_type n)) with
    | None => None
    | Some st1 =>
      let '(err, tb) := nlmsg_parse n sizeof_tcamsg TCAA_MAX None in
      if err <? 0 then Some (err, st1, act)
      else
        match heap_modify st1 tc
                (fun a => set_family a (get_le 1 (nlh_data n))) with
        | None => None
        | Some st2 =>
          match tb_get tb TCA_ACT_TAB with
          | None => Some (- NLE_MISSING_ATTR, st2, act)
          | Some tab =>
            match rtnl_act_parse fuel st2 act tab with
            | None => None
            | Some (err1, st3, act1) =>
              if err1 <? 0 then Some (err1, st3, act1)
              else
                match link_cache with
                | Some cache =>
                  match st_heap st3 !! tc with
                  | None => None
                  | Some a =>
                    match cache (tc_ifindex a) with
                    | Some link =>
                      match heap_modify st3 tc
                              (fun a => rtnl_tc_set_link a link) with
                      | Some st4 => Some (0, st4, act1)
                      | None => None
                      end
                    | None => Some (0, st3, act1)
                    end
                  end
                | None => Some (0, st3, act1)
                end
            end
          end
        end
    end
  end.

(** The callback in [pp->pp_cb]: from the state and the object to the
    return value and the state. *)
Variable pp_cb : state -> option loc -> Z * state.

(** The [while (p_act)] loop of [act_msg_parser]: the value of [err] when
    the loop is left, the state, and the objects the callback was given,
    in order. *)
Fixpoint cb_walk (fuel : nat) (st : state) (act p_act : option loc)
    (err : Z) (calls : list (option loc))
  : option (Z * state * list (option loc)) :=
  match p_act with
  | None => Some (err, st, calls)
  | Some x =>
    match fuel with
    | O => None
    | S f =>
      let '(err1, st1) := pp_cb st act in
      if negb (err1 =? 0) then
        Some (if 0 <? err1 then - NLE_FAILURE else err1, st1,
              calls ++ [act])
      else
        match st_heap st1 !! x with
        | Some a => cb_walk f st1 act (a_next a) err1 (calls ++ [act])
        | None => None
        end
    end
  end.

(** Returns the error code, the state and the objects the callback was
    given. *)
Definition act_msg_parser (fuel : nat) (st : state) (nlh : nlmsghdr)
  : option (Z * state * list (option loc)) :=
  match rtnl_act_alloc st with
  | (st1, None) => Some (- NLE_NOMEM, st1, [])
  | (st1, Some x) =>
    match rtnl_act_msg_parse fuel st1 nlh (Some x) with
    | None => None
    | Some (err, st2, act) =>
      if err <? 0 then
        match st_put st2 act with
        | Some st3 => Some (err, st3, [])
        | None => None
        end
      else
        match cb_walk fuel st2 act act err [] with
        | None => None
        | Some (err1, st3, calls) =>
          match st_put st3 act with
          | Some st4 => Some (err1, st4, calls)
          | None => None
          end
        end
    end
  end.

End Codec.

(** ** Sample stores *)

(** [n] freshly allocated actions at the locations from [x] on. *)
Fixpoint fresh_nodes (n : nat) (x : loc) (h : heap) : heap :=
  match n with
  | O => h
  | S n' => fresh_nodes n' (Pos.succ x) (<[x := act_zero]> h)
  end.

(** [n] calls of [rtnl_act_append] on the same [head], with the actions
    at the locations from [x] on: the error codes in order, the store and
    [*head]. *)
Fixpoint append_each (fuel : nat) (h : heap) (head : option loc) (x : loc)
    (n : nat) : option (list Z * heap * option loc) :=
  match n with
  | O => Some ([], h, head)
  | S n' =>
    match rtnl_act_append fuel h head (Some x) with
    | None => None
    | Some (e, h1, head1) =>
      match append_each fuel h1 head1 (Pos.succ x) n' with
      | Some (es, h2, head2) => Some (e :: es, h2, head2)
      | None => None
      end
    end
  end.

Definition mk_node (next : option loc) : rtnl_act := set_next act_zero next.

(** Three actions with equal fields; the first two are chained. *)
Definition sample_heap : heap :=
  <[1%positive := mk_node (Some 2%positive)]>
    (<[2%positive := mk_node None]> (<[3%positive := mk_node None]> ∅)).

(** ** Assumptions on the kind-specific operations *)

Definition same_header (m m' : nl_msg) : Prop :=
  nlmsg_type m' = nlmsg_type m /\ nlmsg_flags m' = nlmsg_flags m.

(** A fill operation leaves the type and the flags of the message header
    alone. *)
Definition fill_keeps_header (f : rtnl_act -> nl_msg -> Z * nl_msg) : Prop :=
  forall tc m,
    nlmsg_type (f tc m).2 = nlmsg_type m /\
    nlmsg_flags (f tc m).2 = nlmsg_flags m.

Definition registry_keeps_header
    (get_ops : rtnl_act -> option rtnl_tc_ops) : Prop :=
  forall tc ops, get_ops tc = Some ops ->
    (forall f, to_msg_fill ops = Some f -> fill_keeps_header f) /\
    (forall f, to_msg_fill_raw ops = Some f -> fill_keeps_header f).

(** The registry without any kind. *)
Definition no_ops : rtnl_act -> option rtnl_tc_ops := fun _ => None.
Definition no_data : rtnl_act -> option (list byte) := fun _ => None.

(** The stores to the two rate counters. *)
Definition is_rate_store (s : rtnl_tc_stat * Z) : bool :=
  rtnl_tc_stat_eqb s.1 RTNL_TC_RATE_BPS || rtnl_tc_stat_eqb s.1 RTNL_TC_RATE_PPS.

(** A [TCA_ACT_STATS] attribute holding a 32-bit estimate (bps 1, pps 2)
    followed by a 64-bit estimate (bps 2^32 + 3, pps 4). *)
Definition sample_stats_bytes : list byte :=
  put_le 2 12 ++ put_le 2 TCA_STATS_RATE_EST ++ put_le 4 1 ++ put_le 4 2
    ++ put_le 2 20 ++ put_le 2 TCA_STATS_RATE_EST64
    ++ put_le 8 4294967299 ++ put_le 8 4.

Definition kind_node (k : list byte) (next : option loc) : rtnl_act :=
  set_next (rtnl_tc_set_kind act_zero k) next.

(** A chain of two actions of the kinds "A" and "B". *)
Definition two_kinds_heap : heap :=
  <[1%positive := kind_node [x41] (Some 2%positive)]>
    (<[2%positive := kind_node [x42] None]> ∅).

(** The attributes of the add request for that chain. *)
Definition sample_tab_bytes : list byte :=
  match rtnl_act_msg_build no_ops 4096 true 8 two_kinds_heap
          (Some 1%positive) RTM_NEWACTION 0 with
  | Some (_, Some m) => bdrop sizeof_tcamsg (nm_payload m)
  | _ => []
  end.

(** A received [RTM_NEWACTION] message of family 2 with these
    attributes. *)
Definition sample_inbound : nlmsghdr :=
  mk_nlh RTM_NEWACTION (tcamsg_bytes 2 ++ sample_tab_bytes).

Definition empty_state (avail : nat) : state :=
  mk_state ∅ 1%positive avail [].

(** A callback that accepts every object and leaves the state alone. *)
Definition cb_accept : state -> option loc -> Z * state :=
  fun st _ => (0, st).

Definition st_field {A} (f : rtnl_act -> A) (st : state) (x : loc)
  : option A := f <$> (st_heap st !! x).

(** ** The wire format of a chain *)

(** The bytes of one attribute: header, payload, padding. *)
Definition enc_attr (t : Z) (d : list byte) : list byte :=
  put_le 2 (NLA_HDRLEN + blen d) ++ put_le 2 t ++ d
    ++ zeros (NLA_ALIGN (NLA_HDRLEN + blen d) - (NLA_HDRLEN + blen d)).

Arguments enc_attr : simpl never.

Definition aligned (p : list byte) : Prop := (4 | blen p).

Section WireSpec.

Variable rtnl_tc_get_ops : rtnl_act -> option rtnl_tc_ops.

(** The bytes that the structured fill operation of the kind writes for
    an action. *)
Variable opts_of : rtnl_act -> list byte.

Definition has_fill (a : rtnl_act) : bool :=
  match rtnl_tc_get_ops a with
  | Some ops => match to_msg_fill ops with Some _ => true | None => false end
  | None => false
  end.

(** What is inside the nest of one action that has a kind. *)
Definition block_content (a : rtnl_act) : list byte :=
  enc_attr TCA_ACT_KIND (tc_kind a ++ [x00])
    ++ (if has_fill a then enc_attr TCA_ACT_OPTIONS (opts_of a) else []).

(** The attributes inside the nest of one action. *)
Definition content_attrs (a : rtnl_act) (rest : list byte) : list nlattr :=
  let k0 := tc_kind a ++ [x00] in
  let o := if has_fill a
           then enc_attr TCA_ACT_OPTIONS (opts_of a) else [] in
  mk_nla (NLA_HDRLEN + blen k0) TCA_ACT_KIND
    (k0 ++ zeros (NLA_ALIGN (NLA_HDRLEN + blen k0) - (NLA_HDRLEN + blen k0))
        ++ o ++ rest)
  :: (if has_fill a
      then [mk_nla (NLA_HDRLEN + blen (opts_of a)) TCA_ACT_OPTIONS
              (opts_of a
                 ++ zeros (NLA_ALIGN (NLA_HDRLEN + blen (opts_of a))
                           - (NLA_HDRLEN + blen (opts_of a)))
                 ++ rest)]
      else []).

(** The nests of the actions, numbered from [order + 1]. *)
Fixpoint chain_body (order : Z) (recs : list rtnl_act) : list byte :=
  match recs with
  | [] => []
  | a :: recs' =>
    enc_attr (order + 1) (block_content a) ++ chain_body (order + 1) recs'
  end.

(** A fill operation that, when it succeeds, appends the bytes
    [opts_of tc] to the message and does nothing else.  It is called on
    a message that ends on a 4-byte boundary, as [rtnl_act_fill_one]
    calls it right behind the header of the [TCA_ACT_OPTIONS] nest; a
    fill operation that writes its attributes with [nla_put] is of this
    kind. *)
Definition fill_appends (f : rtnl_act -> nl_msg -> Z * nl_msg)
    (tc : rtnl_act) : Prop :=
  forall m, aligned (nm_payload m) -> 0 <= (f tc m).1 ->
    (f tc m).2 = msg_with_payload m (nm_payload m ++ opts_of tc).

(** The registry as the layout of a built message needs it: structured
    fill operations append [opts_of], and the raw fill operation is not
    used alone. *)
Definition registry_fills : Prop :=
  forall tc ops, rtnl_tc_get_ops tc = Some ops ->
    (forall f, to_msg_fill ops = Some f -> fill_appends f tc) /\
    (to_msg_fill ops = None -> to_msg_fill_raw ops = None).

End WireSpec.

(** ** The parse loop as a traversal *)

Section ParseSpec.

Variable rtnl_tc_get_ops : rtnl_act -> option rtnl_tc_ops.
Variable rtnl_tc_data : rtnl_act -> option (list byte).

(** [nla[k]], ..., [nla[k + n - 1]]. *)
Fixpoint slots (nla : list nlattr) (k : Z) (n : nat) : list (option nlattr) :=
  match n with
  | O => []
  | S n' => tb_get nla k :: slots nla (k + 1) n'
  end.

(** The loop of [rtnl_act_parse] over the table entries it visits. *)
Fixpoint parse_seq (fuel : nat) (st : state) (tmp_head : option loc)
    (s : list (option nlattr)) : option (Z * state * option loc) :=
  match s with
  | [] => Some (0, st, tmp_head)
  | None :: s' => parse_seq fuel st tmp_head s'
  | Some a :: s' =>
    match parse_one rtnl_tc_get_ops rtnl_tc_data fuel st tmp_head a with
    | None => None
    | Some (err, st1, tmp_head1) =>
      if err <? 0 then Some (err, st1, tmp_head1)
      else parse_seq fuel st1 tmp_head1 s'
    end
  end.

(** The error code with which the loop body leaves a block, memory
    permitting. *)
Definition decode_err (a : nlattr) : Z :=
  (parse_fields rtnl_tc_get_ops rtnl_tc_data act_zero a 1).1.1.

(** The entity that the loop body makes of a block. *)
Definition decode_act (a : nlattr) : rtnl_act :=
  (parse_fields rtnl_tc_get_ops rtnl_tc_data act_zero a 1).1.2.

End ParseSpec.

(** The attributes found in the bytes of [chain_body], which are
    followed by [rest]. *)
Fixpoint block_attrs (get_ops : rtnl_act -> option rtnl_tc_ops)
    (opts_of : rtnl_act -> list byte) (order : Z) (recs : list rtnl_act)
    (rest : list byte) : list nlattr :=
  match recs with
  | [] => []
  | a :: recs' =>
    let c := block_content get_ops opts_of a in
    mk_nla (NLA_HDRLEN + blen c) (order + 1)
      (c ++ zeros (NLA_ALIGN (NLA_HDRLEN + blen c) - (NLA_HDRLEN + blen c))
         ++ chain_body get_ops opts_of (order + 1) recs' ++ rest)
      :: block_attrs get_ops opts_of (order + 1) recs' rest
  end.

(** A kind as [tc_kind] can hold it: a C string in [TCKINDSIZ] bytes. *)
Definition kind_ok (k : list byte) : Prop :=
  Forall (fun b => b <> x00) k /\ blen k < TCKINDSIZ.

(** The registry as the loop body needs it for the entity made of the
    block of the action [a]: the parser registered for the kind finds its
    kind-specific data and accepts an entity that carries the kind of [a]
    and, as raw options, the bytes that the fill operation wrote for
    [a].  A parser that validates its input meets this for the actions
    whose options it understands. *)
Definition parser_accepts (get_ops : rtnl_act -> option rtnl_tc_ops)
    (get_data : rtnl_act -> option (list byte))
    (opts_of : rtnl_act -> list byte) (a : rtnl_act) : Prop :=
  forall tc ops p, get_ops tc = Some ops -> to_msg_parser ops = Some p ->
    tc_kind tc = tc_kind a ->
    tc_opts tc = (if has_fill get_ops a then Some (opts_of a) else None) ->
    get_data tc <> None /\ 0 <= (p tc).1.

(** The attribute that starts at the offset [off] of the buffer [p]. *)
Definition nla_at (p : list byte) (off : Z) : nlattr :=
  mk_nla (get_le 2 (bdrop off p)) (get_le 2 (bdrop (off + 2) p))
         (bdrop (off + NLA_HDRLEN) p).

(** ** Sample containers *)

Definition mk_container (body : list byte) : nlattr :=
  mk_nla (NLA_HDRLEN + blen body) TCA_ACT_TAB body.

Definition kind_A : list byte := enc_attr TCA_ACT_KIND [x41; x00].


(** The blocks of a container as [rtnl_act_parse] sees them. *)
Definition container_blocks (tb : nlattr) : list nlattr :=
  (nla_parse TCA_ACT_MAX_PRIO (nla_data tb) (NLMSG_ALIGN (nla_len tb))
             None).2.

Definition block_attrs_of (b : nlattr) : list nlattr :=
  (nla_parse TCA_ACT_MAX (nla_data b) (nla_len b) None).2.

(** What the loop body makes of the block built for the action [a]: no
    error, the kind of [a], and as raw options the bytes written by the
    structured fill operation of the kind, if it has one. *)
Definition decodes_to (get_ops : rtnl_act -> option rtnl_tc_ops)
    (get_data : rtnl_act -> option (list byte))
    (opts_of : rtnl_act -> list byte) (a : rtnl_act) (B : nlattr) : Prop :=
  decode_err get_ops get_data B = 0 /\
  tc_kind (decode_act get_ops get_data B) = tc_kind a /\
  tc_opts (decode_act get_ops get_data B)
    = (if has_fill get_ops a then Some (opts_of a) else None).

(** ** Sample registry *)

(** A kind "A" whose structured fill operation writes the kind-specific
    data of the action, and whose parser copies the raw options into
    it. *)
Definition sample_fill (tc : rtnl_act) (m : nl_msg) : Z * nl_msg :=
  (0, msg_with_payload m (nm_payload m ++ tc_subdata tc)).

Definition sample_parser (tc : rtnl_act) : Z * list byte :=
  (0, match tc_opts tc with Some o => o | None => [] end).

Definition sample_ops : rtnl_tc_ops :=
  mk_ops (Some sample_fill) None (Some sample_parser).

Definition sample_registry (tc : rtnl_act) : option rtnl_tc_ops :=
  match tc_kind tc with
  | [b] => if Byte.eqb b x41 then Some sample_ops else None
  | _ => None
  end.

Definition sample_data (tc : rtnl_act) : option (list byte) :=
  Some (tc_subdata tc).

Definition sample_act_B : rtnl_act := kind_node [x42] None.

Definition empty_msg : nl_msg := mk_msg 0 0 [] 4096.

(** [n] chained actions of kind "A" at the locations from [x] on. *)
Fixpoint kind_chain (n : nat) (x : loc) (h : heap) : heap :=
  match n with
  | O => h
  | S n' =>
    kind_chain n' (Pos.succ x)
      (<[x := kind_node [x41]
                (match n' with O => None | S _ => Some (Pos.succ x) end)]> h)
  end.

(** ** Sending requests *)

Section Transport.

Variable rtnl_tc_get_ops : rtnl_act -> option rtnl_tc_ops.
Variable default_msg_size : Z.
Variable nlmsg_alloc_ok : bool.

(** Modelled from the spec: [nl_send_sync] of the transport is not part
    of this file.  It sends the message and awaits the acknowledgement,
    whose code it returns.  A socket is the list of the messages sent on
    it, and [ack] is the answer of the kernel to a message. *)
Variable ack : nl_msg -> Z.

Definition nl_send_sync (sk : list nl_msg) (msg : nl_msg)
  : Z * list nl_msg :=
  (ack msg, sk ++ [msg]).

(** The tail shared by [rtnl_act_add], [rtnl_act_change] and
    [rtnl_act_delete]: return the error of the build, or send. *)
Definition send_built (sk : list nl_msg)
    (built : option (Z * option nl_msg)) : option (Z * list nl_msg) :=
  match built with
  | None => None
  | Some (err, result) =>
    if err <? 0 then Some (err, sk)
    else
      match result with
      | Some msg => Some (nl_send_sync sk msg)
      | None => None
      end
  end.

Definition rtnl_act_add (fuel : nat) (h : heap) (sk : list nl_msg)
    (act : option loc) (flags : Z) : option (Z * list nl_msg) :=
  send_built sk
    (rtnl_act_build_add_request rtnl_tc_get_ops default_msg_size
       nlmsg_alloc_ok fuel h act flags).

Definition rtnl_act_change (fuel : nat) (h : heap) (sk : list nl_msg)
    (act : option loc) (flags : Z) : option (Z * list nl_msg) :=
  send_built sk
    (rtnl_act_build_change_request rtnl_tc_get_ops default_msg_size
       nlmsg_alloc_ok fuel h act flags).

Definition rtnl_act_delete (fuel : nat) (h : heap) (sk : list nl_msg)
    (act : option loc) (flags : Z) : option (Z * list nl_msg) :=
  send_built sk
    (rtnl_act_build_delete_request rtnl_tc_get_ops default_msg_size
       nlmsg_alloc_ok fuel h act flags).

End Transport.

(** What a call that sends a request of the type [type] with the flags
    [flags] may do to the socket [sk]: nothing, returning a negative
    code, or send one message of that type and with those flags and
    return the answer to it. *)
Definition sends_one_or_fails (ack : nl_msg -> Z) (type flags : Z)
    (sk : list nl_msg) (r : Z * list nl_msg) : Prop :=
  (r.1 < 0 /\ r.2 = sk) \/
  (exists m, r.2 = sk ++ [m] /\ r.1 = ack m /\
             nlmsg_type m = type /\ nlmsg_flags m = flags).

(** The blocks that the loop of [rtnl_act_parse] visits: those present at
    the indices 0 to 31, by increasing index. *)
Definition visited_blocks (tb : nlattr) : list nlattr :=
  omap id (slots (container_blocks tb) 0 (Z.to_nat TCA_ACT_MAX_PRIO)).

(** Blocks 3 (kind "B") and 1 (kind "A"), in this order in the bytes. *)
Definition container_sparse : nlattr :=
  mk_container (enc_attr 3 (enc_attr TCA_ACT_KIND [x42; x00])
                  ++ enc_attr 1 kind_A).

(** A block of kind "A" with three bytes of options. *)
Definition sample_block_opts : nlattr :=
  mk_nla (NLA_HDRLEN
          + blen (kind_A ++ enc_attr TCA_ACT_OPTIONS [x01; x02; x03]))
         1 (kind_A ++ enc_attr TCA_ACT_OPTIONS [x01; x02; x03]).

(** ** Streams of attributes and the statistics structures *)

(** The bytes of a sequence of attributes, and the attributes found in
    them when [rest] follows. *)
Fixpoint enc_attrs (l : list (Z * list byte)) : list byte :=
  match l with
  | [] => []
  | (t, d) :: l' => enc_attr t d ++ enc_attrs l'
  end.

Fixpoint attrs_of (l : list (Z * list byte)) (rest : list byte)
  : list nlattr :=
  match l with
  | [] => []
  | (t, d) :: l' =>
    mk_nla (NLA_HDRLEN + blen d) t
      (d ++ zeros (NLA_ALIGN (NLA_HDRLEN + blen d) - (NLA_HDRLEN + blen d))
         ++ enc_attrs l' ++ rest)
      :: attrs_of l' rest
  end.

(** [struct gnet_stats_basic], [struct gnet_stats_rate_est] and
    [struct gnet_stats_queue] of [linux/gen_stats.h] in memory. *)
Definition gnet_stats_basic_bytes (bytes packets : Z) : list byte :=
  put_le 8 bytes ++ put_le 4 packets ++ zeros 4.

Definition gnet_stats_rate_est_bytes (bps pps : Z) : list byte :=
  put_le 4 bps ++ put_le 4 pps.

Definition gnet_stats_queue_bytes (qlen backlog drops requeues overlimits : Z)
  : list byte :=
  put_le 4 qlen ++ put_le 4 backlog ++ put_le 4 drops ++ put_le 4 requeues
    ++ put_le 4 overlimits.

(** A [TCA_ACT_STATS] attribute with the sub-attributes [l]. *)
Definition stats_attr (l : list (Z * list byte)) (rest : list byte) : nlattr :=
  mk_nla (NLA_HDRLEN + blen (enc_attrs l)) TCA_ACT_STATS (enc_attrs l ++ rest).

(** A block of kind "A" whose statistics hold basic counters of four
    bytes. *)
Definition sample_block_short_stats : nlattr :=
  mk_nla (NLA_HDRLEN
          + blen (kind_A ++ enc_attr TCA_ACT_STATS
                              (enc_attr TCA_STATS_BASIC [x00; x00; x00; x00])))
         1 (kind_A ++ enc_attr TCA_ACT_STATS
                        (enc_attr TCA_STATS_BASIC [x00; x00; x00; x00])).

(** A received message whose [TCA_ACT_TAB] attribute is empty. *)
Definition sample_inbound_empty_tab : nlmsghdr :=
  mk_nlh RTM_NEWACTION (tcamsg_bytes 2 ++ enc_attr TCA_ACT_TAB []).



(** Block 7 of kind "A" and block 3 of kind "A" with a [TCA_STATS_BASIC]
    of four bytes, in this order in the bytes. *)
Definition container_error_first : nlattr :=
  mk_container
    (enc_attr 7 kind_A
       ++ enc_attr 3 (kind_A ++ enc_attr TCA_ACT_STATS
                                  (enc_attr TCA_STATS_BASIC
                                     [x00; x00; x00; x00]))).

(** Block 3 of kind "A" and an attribute of index 40. *)
Definition container_single : nlattr :=
  mk_container (enc_attr 3 kind_A ++ enc_attr 40 kind_A).

(** A received message whose [TCA_ACT_TAB] holds one action of kind
    "A". *)
Definition sample_inbound_single : nlmsghdr :=
  mk_nlh RTM_NEWACTION
         (tcamsg_bytes 2 ++ enc_attr TCA_ACT_TAB (enc_attr 1 kind_A)).

(** The container attribute that [rtnl_act_fill] writes for a chain of
    [n] actions of kind "A", when the build succeeds. *)
Definition built_container (n : nat) : option nlattr :=
  match rtnl_act_fill no_ops 64 (kind_chain n 1%positive ∅) empty_msg
          TCA_ACT_TAB (Some 1%positive) with
  | Some (e, m) => if e <? 0 then None else Some (nla_at (nm_payload m) 0)
  | None => None
  end.

(** A block of kind "A" whose statistics hold a 32-bit estimate (bps 1,
    pps 2) followed by a 64-bit estimate (bps 2^32 + 3, pps 4). *)
Definition sample_block_both_rates : nlattr :=
  mk_nla (NLA_HDRLEN
          + blen (kind_A ++ enc_attr TCA_ACT_STATS sample_stats_bytes))
         1 (kind_A ++ enc_attr TCA_ACT_STATS sample_stats_bytes).

(** A block of kind "A" whose statistics hold basic counters, a 32-bit
    estimate and queue counters. *)
Definition sample_block_stats : nlattr :=
  let s := enc_attrs
             [(TCA_STATS_BASIC, gnet_stats_basic_bytes 100 5);
              (TCA_STATS_RATE_EST, gnet_stats_rate_est_bytes 1 2);
              (TCA_STATS_QUEUE, gnet_stats_queue_bytes 3 4 5 6 7)] in
  mk_nla (NLA_HDRLEN + blen (kind_A ++ enc_attr TCA_ACT_STATS s))
         1 (kind_A ++ enc_attr TCA_ACT_STATS s).

(** ** A sample kind with attributes *)

(** A kind "P" in the manner of the kind modules of the library: the fill
    operation writes the kind-specific data as one attribute
    [TCA_P_PARMS] with [nla_put]; the parser parses the raw options of
    the entity with a policy that asks for [sizeof_p_parms] bytes, fails
    when the attribute is absent, and copies the structure. *)
Definition TCA_P_PARMS : Z := 2.
Definition TCA_P_MAX : Z := 6.
Definition sizeof_p_parms : Z := 8.

Definition p_policy : nla_policy := fun t =>
  if t =? TCA_P_PARMS then sizeof_p_parms else 0.

Definition p_msg_fill (tc : rtnl_act) (m : nl_msg) : Z * nl_msg :=
  match nla_put m TCA_P_PARMS (tc_subdata tc) with
  | Some m' => (0, m')
  | None => (- NLE_NOMEM, m)
  end.

Definition p_msg_parser (tc : rtnl_act) : Z * list byte :=
  match tc_opts tc with
  | None => (- NLE_MISSING_ATTR, tc_subdata tc)
  | Some o =>
    let '(err, tb) := nla_parse TCA_P_MAX o (blen o) (Some p_policy) in
    if err <? 0 then (err, tc_subdata tc)
    else
      match tb_get tb TCA_P_PARMS with
      | None => (- NLE_MISSING_ATTR, tc_subdata tc)
      | Some a => (0, btake sizeof_p_parms (nla_data a))
      end
  end.

Definition p_ops : rtnl_tc_ops :=
  mk_ops (Some p_msg_fill) None (Some p_msg_parser).

Definition p_registry (tc : rtnl_act) : option rtnl_tc_ops :=
  match tc_kind tc with
  | [b] => if Byte.eqb b x50 then Some p_ops else None
  | _ => None
  end.

(** The bytes that [p_msg_fill] writes for an action. *)
Definition p_opts_of (tc : rtnl_act) : list byte :=
  enc_attr TCA_P_PARMS (tc_subdata tc).

Definition sample_act_P : rtnl_act :=
  set_subdata (kind_node [x50] (Some 2%positive))
              [x01; x02; x03; x04; x05; x06; x07; x08].

Definition sample_PB_heap : heap :=
  <[1%positive := sample_act_P]> (<[2%positive := sample_act_B]> ∅).

(** The add request for the chain of [sample_PB_heap]. *)
Definition sample_PB_request : nl_msg :=
  match act_build p_registry 4096 true 8 sample_PB_heap (Some 1%positive)
          RTM_NEWACTION 1024 with
  | Some (_, Some m) => m
  | _ => empty_msg
  end.
(** * Properties *)

(** ** Chains in the store *)

Section ChainFacts.

Implicit Types (h : heap) (p : option loc) (l : list loc).

Lemma is_chain_det h p l1 l2 :
  is_chain h p l1 -> is_chain h p l2 -> l1 = l2.
Proof.
  revert p l2. induction l1 as [|x l1 IH]; intros p [|y l2] H1 H2; simpl in *.
  - reflexivity.
  - destruct H2 as [H2 _]. congruence.
  - destruct H1 as [H1 _]. congruence.
  - destruct H1 as [E1 (a & Ha & H1)], H2 as [E2 (b & Hb & H2)].
    assert (x = y) by congruence. subst y.
    assert (a = b) by congruence. subst b.
    f_equal. eapply IH; eassumption.
Qed.

Lemma is_chain_app h p l1 x l2 :
  is_chain h p (l1 ++ x :: l2) -> is_chain h (Some x) (x :: l2).
Proof.
  revert p. induction l1 as [|y l1 IH]; intros p H; simpl in *.
  - destruct H as [_ H]. split; [reflexivity | exact H].
  - destruct H as [_ (a & _ & H)]. eapply IH, H.
Qed.

Lemma is_chain_tail_notin h x l :
  is_chain h (Some x) (x :: l) -> x ∉ l.
Proof.
  intros H Hin. apply list_elem_of_split in Hin as (l1 & l2 & ->).
  pose proof H as (_ & a & _ & H').
  apply is_chain_app in H'.
  pose proof (is_chain_det _ _ _ _ H H') as E.
  apply (f_equal length) in E. simpl in E. rewrite length_app in E. simpl in E. lia.
Qed.

Lemma is_chain_NoDup h p l : is_chain h p l -> NoDup l.
Proof.
  revert p. induction l as [|x l IH]; intros p H.
  - constructor.
  - pose proof H as (-> & a & Ha & H').
    constructor; [ eapply is_chain_tail_notin, H | eapply IH, H' ].
Qed.

(** A chain only depends on the [a_next] fields of its own nodes. *)
Lemma is_chain_frame h h' p l :
  (forall y, y ∈ l -> a_next <$> (h' !! y) = a_next <$> (h !! y)) ->
  is_chain h p l -> is_chain h' p l.
Proof.
  revert p. induction l as [|x l IH]; intros p Hfr H; simpl in *.
  - exact H.
  - destruct H as (-> & a & Ha & H). split; [reflexivity|].
    pose proof (Hfr x ltac:(left)) as Hx. rewrite Ha in Hx. simpl in Hx.
    destruct (h' !! x) as [b|] eqn:Hb; simpl in Hx; [|discriminate].
    exists b. split; [reflexivity|].
    injection Hx as ->. apply IH; [|exact H].
    intros y Hy. apply Hfr. by right.
Qed.

Lemma chain_nodes_sound fuel h p l :
  chain_nodes fuel h p = Some l -> is_chain h p l.
Proof.
  revert p l. induction fuel as [|f IH]; intros [x|] l H; simpl in *;
    try discriminate; try (injection H as <-; reflexivity).
  destruct (h !! x) as [a|] eqn:Ha; [|discriminate].
  destruct (chain_nodes f h (a_next a)) as [l'|] eqn:Hl; [|discriminate].
  injection H as <-. simpl. split; [reflexivity|].
  exists a. split; [exact Ha | by apply IH].
Qed.

Lemma chain_nodes_complete fuel h p l :
  is_chain h p l -> (length l <= fuel)%nat -> chain_nodes fuel h p = Some l.
Proof.
  revert p l. induction fuel as [|f IH]; intros p [|x l] H Hf; simpl in *;
    try lia; subst; try reflexivity.
  - destruct H as (-> & a & Ha & H). rewrite Ha.
    rewrite (IH _ _ H); [reflexivity | lia].
Qed.

End ChainFacts.

(** ** rtnl_act_next *)

(** C10: [rtnl_act_next] returns [NULL] for [NULL], and for an action of
    the store its [a_next] link. *)
Theorem rtnl_act_next_total (h : heap) :
  rtnl_act_next h None = Some None /\
  forall x : loc, rtnl_act_next h (Some x) = a_next <$> (h !! x).
Proof.
  split; [reflexivity|].
  intros x. unfold rtnl_act_next. by destruct (h !! x).
Qed.

(** ** rtnl_act_append *)

Lemma append_walk_spec fuel h p l c :
  is_chain h (Some p) (p :: l) -> (length (p :: l) <= fuel)%nat ->
  exists x a, last (p :: l) = Some x /\ h !! x = Some a /\
    a_next a = None /\
    append_walk fuel h p c = Some (x, c + Z.of_nat (length l)).
Proof.
  revert p l c. induction fuel as [|f IH]; intros p l c H Hf; simpl in Hf;
    [lia|].
  destruct H as (_ & a & Ha & H). simpl. rewrite Ha.
  destruct l as [|q l]; simpl in H.
  - exists p, a. rewrite H. repeat split; try assumption.
    f_equal. f_equal. simpl. lia.
  - destruct H as (Hq & H). rewrite Hq.
    destruct (IH q l (c + 1)) as (x & b & Hl & Hb & Hn & Hw).
    + split; [reflexivity | exact H].
    + simpl in *. lia.
    + exists x, b. repeat split; try assumption.
      rewrite Hw. f_equal. f_equal. simpl length. lia.
Qed.

(** Appending to a non-empty chain of at most [TCA_ACT_MAX_PRIO] nodes
    stores [new] in the [a_next] of its last node. *)
Lemma rtnl_act_append_spec fuel h head l new :
  is_chain h head l -> l <> [] ->
  Z.of_nat (length l) <= TCA_ACT_MAX_PRIO -> (length l <= fuel)%nat ->
  exists x a, last l = Some x /\ h !! x = Some a /\ a_next a = None /\
    rtnl_act_append fuel h head new
      = Some (0, <[x := set_next a new]> h, head).
Proof.
  intros H Hne Hlen Hf. destruct l as [|p l]; [congruence|].
  pose proof H as (-> & _).
  destruct (append_walk_spec fuel h p l 1 H Hf) as (x & a & Hl & Ha & Hn & Hw).
  exists x, a. repeat split; try assumption.
  unfold rtnl_act_append. rewrite Hw.
  simpl length in Hlen.
  destruct (Z.ltb_spec TCA_ACT_MAX_PRIO (1 + Z.of_nat (length l))); [lia|].
  rewrite Ha. reflexivity.
Qed.

(** Appending to a chain of more than [TCA_ACT_MAX_PRIO] nodes fails and
    changes nothing. *)
Lemma rtnl_act_append_range fuel h head l new :
  is_chain h head l ->
  TCA_ACT_MAX_PRIO < Z.of_nat (length l) -> (length l <= fuel)%nat ->
  rtnl_act_append fuel h head new = Some (- NLE_RANGE, h, head).
Proof.
  intros H Hlen Hf. destruct l as [|p l]; [simpl in Hlen; unfold TCA_ACT_MAX_PRIO in Hlen; lia|].
  pose proof H as (-> & _).
  destruct (append_walk_spec fuel h p l 1 H Hf) as (x & a & Hl & Ha & Hn & Hw).
  unfold rtnl_act_append. rewrite Hw.
  simpl length in Hlen.
  destruct (Z.ltb_spec TCA_ACT_MAX_PRIO (1 + Z.of_nat (length l))); [|lia].
  reflexivity.
Qed.

(** C2: on an empty chain, 33 calls of [rtnl_act_append] all return 0,
    the 33rd too, and the chain then has 33 nodes; the 34th call is the
    first to return [-NLE_RANGE]. *)
Theorem rtnl_act_append_33_calls :
  match append_each 64 (fresh_nodes 34 1%positive ∅) None 1%positive 34 with
  | Some (errs, h, head) =>
    errs = repeat 0 33 ++ [- NLE_RANGE] /\
    length <$> chain_nodes 64 h head = Some 33%nat
  | None => False
  end.
Proof. vm_compute. split; reflexivity. Qed.

(** ** rtnl_act_remove *)

Section SegFacts.

Implicit Types (h : heap) (p q : option loc) (l : list loc).

Lemma is_chain_seg h p l : is_chain h p l <-> is_seg h p l None.
Proof.
  revert p. induction l as [|x l IH]; intros p; simpl; [tauto|].
  split; intros (-> & a & Ha & H); (split; [reflexivity|]);
    exists a; (split; [exact Ha|]); by apply IH.
Qed.

Lemma is_seg_app h p l1 l2 q :
  is_seg h p (l1 ++ l2) q <->
  exists m, is_seg h p l1 m /\ is_seg h m l2 q.
Proof.
  revert p. induction l1 as [|x l1 IH]; intros p; simpl.
  - split.
    + intros H. exists p. split; [reflexivity | exact H].
    + intros (m & -> & H). exact H.
  - split.
    + intros (-> & a & Ha & H). apply IH in H as (m & H1 & H2).
      exists m. split; [|exact H2]. split; [reflexivity|].
      exists a. split; assumption.
    + intros (m & (-> & a & Ha & H1) & H2). split; [reflexivity|].
      exists a. split; [exact Ha|]. apply IH. exists m. split; assumption.
Qed.

Lemma is_seg_frame h h' p l q :
  (forall y, y ∈ l -> a_next <$> (h' !! y) = a_next <$> (h !! y)) ->
  is_seg h p l q -> is_seg h' p l q.
Proof.
  revert p. induction l as [|x l IH]; intros p Hfr H; simpl in *.
  - exact H.
  - destruct H as (-> & a & Ha & H). split; [reflexivity|].
    pose proof (Hfr x ltac:(left)) as Hx. rewrite Ha in Hx. simpl in Hx.
    destruct (h' !! x) as [b|] eqn:Hb; simpl in Hx; [|discriminate].
    exists b. split; [reflexivity|].
    injection Hx as ->. apply IH; [|exact H].
    intros y Hy. apply Hfr. by right.
Qed.

End SegFacts.

(** The slot at which the [for] loop of [rtnl_act_remove] stands after
    going through the nodes [l] from the slot [ap]. *)
Lemma remove_walk_found fuel h ap p l1 x :
  is_seg h p l1 (Some x) -> x ∉ l1 -> (length l1 <= fuel)%nat ->
  remove_walk fuel h ap p (Some x)
    = Some (match last l1 with Some y => SlotNext y | None => ap end, Some x).
Proof.
  revert fuel ap p. induction l1 as [|y l1 IH]; intros fuel ap p H Hx Hf.
  - simpl in H. subst p. destruct fuel; simpl; rewrite Pos.eqb_refl; reflexivity.
  - destruct H as (-> & a & Ha & H).
    apply not_elem_of_cons in Hx as [Hxy Hx].
    destruct fuel as [|f]; [simpl in Hf; lia|].
    simpl remove_walk.
    destruct (Pos.eqb_spec y x) as [->|_]; [congruence|].
    rewrite Ha. rewrite (IH f (SlotNext y) _ H Hx); [|simpl in Hf; lia].
    f_equal. f_equal. destruct l1 as [|z l1]; [reflexivity|].
    change (last (y :: z :: l1)) with (last (z :: l1)).
    destruct (last (z :: l1)) eqn:E; [reflexivity|].
    apply last_None in E. discriminate.
Qed.

Lemma remove_walk_missing fuel h ap p l act :
  is_chain h p l -> act ∉ (Some <$> l) -> (length l <= fuel)%nat ->
  exists ap', remove_walk fuel h ap p act = Some (ap', None).
Proof.
  revert fuel ap p. induction l as [|y l IH]; intros fuel ap p H Hx Hf.
  - simpl in H. subst p. exists ap. destruct fuel; reflexivity.
  - destruct H as (-> & a & Ha & H).
    rewrite fmap_cons in Hx. apply not_elem_of_cons in Hx as [Hxy Hx].
    destruct fuel as [|f]; [simpl in Hf; lia|].
    assert (ptr_eqb (Some y) act = false) as Hne.
    { destruct act as [z|]; simpl; [|reflexivity].
      destruct (Pos.eqb_spec y z); congruence. }
    cbn [remove_walk]. rewrite Hne. rewrite Ha. apply IH; [exact H | exact Hx | simpl in Hf; lia].
Qed.

Lemma set_next_lookup_other (h : heap) (y x : loc) (b : rtnl_act) :
  x <> y -> a_next <$> (<[y := b]> h !! x) = a_next <$> (h !! x).
Proof. intros Hne. rewrite lookup_insert_ne; [reflexivity | congruence]. Qed.

(** C7: removing an action that is not a node of the chain (the
    locations are compared, not the records) returns [-NLE_OBJ_NOTFOUND]
    and leaves the store and [*head] as they were; removing a node of the
    chain returns 0, leaves the chain without that node, the other nodes
    in their order, and sets the [a_next] of the removed node to [NULL];
    no other field of any record changes. *)
Theorem rtnl_act_remove_spec fuel (h : heap) head l act :
  is_chain h head l -> (length l <= fuel)%nat ->
  (act ∉ (Some <$> l) ->
     rtnl_act_remove fuel h head act = Some (- NLE_OBJ_NOTFOUND, h, head)) /\
  (forall x l1 l2, act = Some x -> l = l1 ++ x :: l2 ->
     exists h' head',
       rtnl_act_remove fuel h head act = Some (0, h', head') /\
       is_chain h' head' (l1 ++ l2) /\
       a_next <$> (h' !! x) = Some None /\
       forall y a, h !! y = Some a -> exists n, h' !! y = Some (set_next a n)).
Proof.
  intros Hc Hf. split.
  - intros Hnot.
    destruct (remove_walk_missing fuel h SlotHead head l act Hc Hnot Hf)
      as (ap' & Hw).
    unfold rtnl_act_remove. rewrite Hw. reflexivity.
  - intros x l1 l2 -> ->.
    pose proof (is_chain_NoDup _ _ _ Hc) as Hnd.
    apply NoDup_app in Hnd as (Hnd1 & Hdisj & Hnd2).
    apply NoDup_cons in Hnd2 as (Hx2 & Hnd2).
    assert (Hx1 : x ∉ l1).
    { intros Hin. apply (Hdisj x Hin). left. }
    apply is_chain_seg in Hc. apply is_seg_app in Hc as (m & Hs1 & Hs2).
    destruct Hs2 as (-> & r & Hr & Hs2).
    rewrite length_app in Hf.
    unfold rtnl_act_remove.
    rewrite (remove_walk_found fuel h SlotHead head l1 x Hs1 Hx1); [|lia].
    rewrite Hr.
    destruct (last l1) as [y|] eqn:Hlast.
    + apply last_Some in Hlast as (l1' & ->).
      apply is_seg_app in Hs1 as (m & Hs1 & Hy).
      destruct Hy as (-> & ry & Hry & Hy). simpl in Hy.
      assert (Hyx : y <> x).
      { intros ->. apply Hx1. apply elem_of_app. right. left. }
      apply NoDup_app in Hnd1 as (Hnd1 & Hdisj1 & _).
      assert (Hy1 : y ∉ l1').
      { intros Hin. apply (Hdisj1 y Hin). left. }
      assert (Hy2 : y ∉ l2).
      { intros Hin. apply (Hdisj y); [apply elem_of_app; right; left | by right]. }
      simpl slot_write. rewrite Hry.
      eexists _, _. split.
      { rewrite lookup_insert_ne; [|exact Hyx]. rewrite Hr. reflexivity. }
      split; [|split].
      * apply is_chain_seg. apply is_seg_app. exists (a_next r). split.
        -- apply is_seg_app. exists (Some y). split.
           ++ eapply is_seg_frame; [|exact Hs1].
              intros z Hz. rewrite !set_next_lookup_other; [reflexivity| |].
              ** intros ->. exact (Hy1 Hz).
              ** intros ->. apply Hx1. apply elem_of_app. by left.
           ++ simpl. split; [reflexivity|].
              exists (set_next ry (a_next r)). split; [|reflexivity].
              rewrite lookup_insert_ne; [|congruence].
              apply lookup_insert_eq.
        -- eapply is_seg_frame; [|exact Hs2].
           intros z Hz. rewrite !set_next_lookup_other; [reflexivity| |].
           ++ intros ->. exact (Hy2 Hz).
           ++ intros ->. exact (Hx2 Hz).
      * rewrite lookup_insert_eq. reflexivity.
      * intros z a Hz.
        destruct (decide (z = x)) as [->|Hzx].
        { rewrite lookup_insert_eq. exists None. congruence. }
        rewrite lookup_insert_ne; [|congruence].
        destruct (decide (z = y)) as [->|Hzy].
        { rewrite lookup_insert_eq. exists (a_next r). congruence. }
        rewrite lookup_insert_ne; [|congruence].
        exists (a_next a). rewrite Hz. by destruct a.
    + apply last_None in Hlast. subst l1. simpl in Hs1. subst head.
      simpl slot_write.
      eexists _, _. split; [rewrite Hr; reflexivity|]. split; [|split].
      * apply is_chain_seg. eapply is_seg_frame; [|exact Hs2].
        intros z Hz. rewrite set_next_lookup_other; [reflexivity|].
        intros ->. exact (Hx2 Hz).
      * rewrite lookup_insert_eq. reflexivity.
      * intros z a Hz.
        destruct (decide (z = x)) as [->|Hzx].
        { rewrite lookup_insert_eq. exists None. congruence. }
        rewrite lookup_insert_ne; [|congruence].
        exists (a_next a). rewrite Hz. by destruct a.
Qed.

Lemma rtnl_act_remove_spec_witness :
  rtnl_act_remove 8 sample_heap (Some 1%positive) (Some 3%positive)
    = Some (- NLE_OBJ_NOTFOUND, sample_heap, Some 1%positive) /\
  exists h' head',
    rtnl_act_remove 8 sample_heap (Some 1%positive) (Some 2%positive)
      = Some (0, h', head') /\
    is_chain h' head' [1%positive].
Proof.
  assert (Hc : is_chain sample_heap (Some 1%positive) [1%positive; 2%positive]).
  { apply (chain_nodes_sound 8). vm_compute. reflexivity. }
  assert (Hf : (length [1%positive; 2%positive] <= 8)%nat) by (simpl; lia).
  split.
  - apply (rtnl_act_remove_spec 8 sample_heap (Some 1%positive)
             [1%positive; 2%positive] (Some 3%positive) Hc Hf).
    intros Hin. apply list_elem_of_In in Hin. simpl in Hin.
    destruct Hin as [E|[E|[]]]; discriminate E.
  - destruct (rtnl_act_remove_spec 8 sample_heap (Some 1%positive)
             [1%positive; 2%positive] (Some 2%positive) Hc Hf) as [_ Hfound].
    destruct (Hfound 2%positive [1%positive] [] eq_refl eq_refl)
      as (h' & head' & Hr & Hch & _).
    exists h', head'. split; [exact Hr | exact Hch].
Defined.

(** ** rtnl_act_put_all *)

Lemma put_all_walk_spec fuel (h : heap) log p l :
  is_chain h p l -> (length l <= fuel)%nat ->
  exists h',
    put_all_walk fuel h log p = Some (h', log ++ l) /\
    (forall y, y ∉ l -> h' !! y = h !! y) /\
    (forall y, y ∈ l -> exists a, h !! y = Some a /\
        h' !! y = Some (set_refcnt a (ce_refcnt a - 1))).
Proof.
  revert fuel h log p. induction l as [|x l IH]; intros fuel h log p Hc Hf.
  - simpl in Hc. subst p. exists h. rewrite app_nil_r.
    split; [destruct fuel; reflexivity|]. split; [reflexivity|].
    intros y Hy. inversion Hy.
  - pose proof (is_chain_NoDup _ _ _ Hc) as Hnd.
    apply NoDup_cons in Hnd as (Hx & Hnd).
    destruct Hc as (-> & a & Ha & Hc).
    destruct fuel as [|f]; [simpl in Hf; lia|].
    cbn [put_all_walk]. rewrite Ha.
    unfold rtnl_act_put, nl_object_put. rewrite Ha.
    set (h1 := <[x := set_refcnt a (ce_refcnt a - 1)]> h).
    assert (Hc1 : is_chain h1 (a_next a) l).
    { eapply is_chain_frame; [|exact Hc]. intros y Hy. unfold h1.
      rewrite lookup_insert_ne; [reflexivity|]. intros ->. exact (Hx Hy). }
    destruct (IH f h1 (log ++ [x]) _ Hc1) as (h' & Hw & Hout & Hin);
      [simpl in Hf; lia|].
    exists h'. split; [|split].
    + rewrite Hw. rewrite <- app_assoc. reflexivity.
    + intros y Hy. apply not_elem_of_cons in Hy as [Hyx Hy].
      rewrite (Hout y Hy). unfold h1. apply lookup_insert_ne. congruence.
    + intros y Hy. apply elem_of_cons in Hy as [->|Hy].
      * exists a. split; [exact Ha|]. rewrite (Hout x Hx).
        unfold h1. apply lookup_insert_eq.
      * destruct (Hin y Hy) as (b & Hb & Hb'). exists b. split; [|exact Hb'].
        rewrite <- Hb. unfold h1. symmetry. apply lookup_insert_ne.
        intros ->. exact (Hx Hy).
Qed.

(** C9: on an empty chain [rtnl_act_put_all] releases nothing and
    changes nothing; on a chain with the nodes [l] it releases the nodes
    of [l] in order, each once (no node occurs twice in [l]), so the
    count of each node goes down by one, it leaves every other object as
    it was, and it sets [*head] to [NULL]. *)
Theorem rtnl_act_put_all_spec fuel (h : heap) log head l :
  is_chain h head l -> (length l <= fuel)%nat ->
  rtnl_act_put_all fuel h log None = Some (h, log, None) /\
  exists h',
    rtnl_act_put_all fuel h log head = Some (h', log ++ l, None) /\
    NoDup l /\
    (forall y, y ∉ l -> h' !! y = h !! y) /\
    (forall y, y ∈ l -> exists a, h !! y = Some a /\
        h' !! y = Some (set_refcnt a (ce_refcnt a - 1))).
Proof.
  intros Hc Hf. split.
  - unfold rtnl_act_put_all. destruct fuel; reflexivity.
  - destruct (put_all_walk_spec fuel h log head l Hc Hf)
      as (h' & Hw & Hout & Hin).
    exists h'. unfold rtnl_act_put_all. rewrite Hw.
    split; [reflexivity|]. split; [eapply is_chain_NoDup, Hc|].
    split; assumption.
Qed.

Lemma rtnl_act_put_all_spec_witness :
  exists h',
    rtnl_act_put_all 8 sample_heap [] (Some 1%positive)
      = Some (h', [1%positive; 2%positive], None) /\
    ce_refcnt <$> (h' !! 1%positive) = Some 0 /\
    ce_refcnt <$> (h' !! 2%positive) = Some 0 /\
    h' !! 3%positive = sample_heap !! 3%positive.
Proof.
  assert (Hc : is_chain sample_heap (Some 1%positive) [1%positive; 2%positive]).
  { apply (chain_nodes_sound 8). vm_compute. reflexivity. }
  assert (Hf : (length [1%positive; 2%positive] <= 8)%nat) by (simpl; lia).
  destruct (rtnl_act_put_all_spec 8 sample_heap [] (Some 1%positive)
              [1%positive; 2%positive] Hc Hf)
    as (_ & h' & Hr & _ & Hout & Hin).
  exists h'. split; [exact Hr|].
  destruct (Hin 1%positive) as (a1 & Ha1 & Hb1); [left|].
  destruct (Hin 2%positive) as (a2 & Ha2 & Hb2); [right; left|].
  vm_compute in Ha1. vm_compute in Ha2.
  injection Ha1 as <-. injection Ha2 as <-.
  rewrite Hb1, Hb2. split; [reflexivity|]. split; [reflexivity|].
  apply Hout. intros Hin3. apply list_elem_of_In in Hin3. simpl in Hin3.
  destruct Hin3 as [E|[E|[]]]; discriminate E.
Defined.

(** ** The request builder *)

Section BuildFacts.

Variable get_ops : rtnl_act -> option rtnl_tc_ops.
Variable msg_size : Z.
Variable alloc_ok : bool.
Hypothesis Hreg : registry_keeps_header get_ops.

Lemma same_header_refl m : same_header m m.
Proof. split; reflexivity. Qed.

Lemma same_header_trans m1 m2 m3 :
  same_header m1 m2 -> same_header m2 m3 -> same_header m1 m3.
Proof. unfold same_header. intros [] []. split; congruence. Qed.

Lemma nla_put_header m t d m' : nla_put m t d = Some m' -> same_header m m'.
Proof.
  unfold nla_put. destruct (_ <? _); [discriminate|].
  intros [= <-]. split; reflexivity.
Qed.

Lemma nla_nest_start_header m t m' s :
  nla_nest_start m t = Some (m', s) -> same_header m m'.
Proof.
  unfold nla_nest_start. destruct (nla_put m t []) eqn:E; [|discriminate].
  intros [= <- _]. eapply nla_put_header, E.
Qed.

Lemma nla_nest_end_header m s : same_header m (nla_nest_end m s).
Proof. split; reflexivity. Qed.

Ltac hdr_done := first [apply same_header_refl | split; reflexivity].

Lemma fill_one_header m tc order :
  same_header m (rtnl_act_fill_one get_ops m tc order).2.
Proof.
  unfold rtnl_act_fill_one.
  destruct (nla_nest_start m order) as [[m1 nest]|] eqn:E1;
    [|hdr_done].
  apply nla_nest_start_header in E1.
  eapply same_header_trans; [exact E1|]. clear E1.
  destruct (if has_mask tc TCA_ATTR_KIND then _ else _) as [m2|] eqn:E2;
    [|hdr_done].
  assert (H2 : same_header m1 m2).
  { destruct (has_mask tc TCA_ATTR_KIND).
    - eapply nla_put_header, E2.
    - injection E2 as <-. hdr_done. }
  eapply same_header_trans; [exact H2|]. clear E2 H2.
  destruct (get_ops tc) as [ops|] eqn:Eo; [|hdr_done].
  destruct (Hreg tc ops Eo) as [Hf Hr].
  destruct (to_msg_fill ops) as [f|] eqn:Ef.
  - destruct (nla_nest_start m2 TCA_ACT_OPTIONS) as [[m3 opts]|] eqn:E3;
      [|hdr_done].
    apply nla_nest_start_header in E3.
    eapply same_header_trans; [exact E3|].
    pose proof (Hf f eq_refl tc m3) as Hk.
    destruct (f tc m3) as [err m4]. simpl in Hk.
    destruct Hk as [Ht Hfl]; destruct (err <? 0); split; simpl; assumption.
  - destruct (to_msg_fill_raw ops) as [g|] eqn:Eg; [|hdr_done].
    pose proof (Hr g eq_refl tc m2) as Hk.
    destruct (g tc m2) as [err m3]. simpl in Hk.
    destruct Hk as [Ht Hfl]; destruct (err <? 0); split; simpl; assumption.
Qed.

Lemma fill_walk_header fuel (h : heap) m p order err m' :
  fill_walk get_ops fuel h m p order = Some (err, m') -> same_header m m'.
Proof.
  revert m p order. induction fuel as [|f IH]; intros m [x|] order H;
    simpl in H; try discriminate;
    try (injection H as _ <-; apply same_header_refl).
  destruct (h !! x) as [a|]; [|discriminate].
  pose proof (fill_one_header m a (order + 1)) as H1.
  destruct (rtnl_act_fill_one get_ops m a (order + 1)) as [e m1].
  simpl in H1. destruct (e <? 0).
  - injection H as _ <-. exact H1.
  - eapply same_header_trans; [exact H1 | eapply IH, H].
Qed.

Lemma rtnl_act_fill_header fuel (h : heap) m t act err m' :
  rtnl_act_fill get_ops fuel h m t act = Some (err, m') -> same_header m m'.
Proof.
  unfold rtnl_act_fill.
  destruct (nla_nest_start m t) as [[m1 nest]|] eqn:E1.
  - apply nla_nest_start_header in E1.
    destruct (fill_walk get_ops fuel h m1 act 0) as [[e m2]|] eqn:E2;
      [|discriminate].
    apply fill_walk_header in E2.
    destruct (e <? 0); intros [= _ <-];
      eapply same_header_trans; eassumption.
  - intros [= _ <-]. apply same_header_refl.
Qed.

Lemma act_build_header fuel (h : heap) act type flags err m :
  act_build get_ops msg_size alloc_ok fuel h act type flags
    = Some (err, Some m) ->
  nlmsg_type m = type /\ nlmsg_flags m = flags.
Proof.
  unfold act_build, rtnl_act_msg_build, nlmsg_alloc_simple.
  destruct alloc_ok; [|discriminate].
  destruct (nlmsg_append _ _) as [m1|] eqn:E1; [|discriminate].
  assert (H1 : same_header (mk_msg type flags [] msg_size) m1).
  { unfold nlmsg_append in E1. destruct (_ <? _); [discriminate|].
    injection E1 as <-. split; reflexivity. }
  destruct (rtnl_act_fill _ _ _ _ _ _) as [[e m2]|] eqn:E2; [|discriminate].
  apply rtnl_act_fill_header in E2.
  destruct (e <? 0) eqn:He; simpl; [rewrite He; discriminate|].
  intros [= _ <-].
  destruct H1 as [? ?], E2 as [? ?]. simpl in *. split; congruence.
Qed.

End BuildFacts.

Lemma land_lor_same (a b : Z) : Z.land (Z.lor a b) a = a.
Proof.
  apply Z.bits_inj'. intros n _.
  rewrite Z.land_spec, Z.lor_spec.
  destruct (Z.testbit a n), (Z.testbit b n); reflexivity.
Qed.

(** C8: the change request is the add request built with the caller's
    flags and [NLM_F_REPLACE]: a message of type [RTM_NEWACTION] whose
    flags contain the replace flag; the delete request is a message of
    type [RTM_DELACTION] whose flags are the caller's flags, nothing
    added. *)
Theorem change_adds_replace_delete_keeps_flags
    (get_ops : rtnl_act -> option rtnl_tc_ops) (msg_size : Z)
    (alloc_ok : bool) fuel (h : heap) act flags :
  registry_keeps_header get_ops ->
  rtnl_act_build_change_request get_ops msg_size alloc_ok fuel h act flags
    = rtnl_act_build_add_request get_ops msg_size alloc_ok fuel h act
        (Z.lor NLM_F_REPLACE flags) /\
  (forall err m,
     rtnl_act_build_change_request get_ops msg_size alloc_ok fuel h act flags
       = Some (err, Some m) ->
     nlmsg_type m = RTM_NEWACTION /\
     nlmsg_flags m = Z.lor NLM_F_REPLACE flags /\
     Z.land (nlmsg_flags m) NLM_F_REPLACE = NLM_F_REPLACE) /\
  (forall err m,
     rtnl_act_build_add_request get_ops msg_size alloc_ok fuel h act flags
       = Some (err, Some m) ->
     nlmsg_type m = RTM_NEWACTION /\ nlmsg_flags m = flags) /\
  (forall err m,
     rtnl_act_build_delete_request get_ops msg_size alloc_ok fuel h act flags
       = Some (err, Some m) ->
     nlmsg_type m = RTM_DELACTION /\ nlmsg_flags m = flags).
Proof.
  intros Hreg. split; [reflexivity|]. split; [|split].
  - intros err m H. unfold rtnl_act_build_change_request in H.
    apply (act_build_header get_ops msg_size alloc_ok Hreg) in H as [Ht Hfl].
    split; [exact Ht|]. split; [exact Hfl|].
    rewrite Hfl. apply land_lor_same.
  - intros err m H. unfold rtnl_act_build_add_request in H.
    apply (act_build_header get_ops msg_size alloc_ok Hreg) in H. exact H.
  - intros err m H. unfold rtnl_act_build_delete_request in H.
    apply (act_build_header get_ops msg_size alloc_ok Hreg) in H. exact H.
Qed.

Lemma no_ops_keeps_header : registry_keeps_header no_ops.
Proof. intros tc ops H. discriminate H. Defined.

Lemma change_adds_replace_delete_keeps_flags_witness :
  exists mc md,
    rtnl_act_build_change_request no_ops 4096 true 8 sample_heap
      (Some 1%positive) 1024 = Some (0, Some mc) /\
    rtnl_act_build_delete_request no_ops 4096 true 8 sample_heap
      (Some 1%positive) 1024 = Some (0, Some md) /\
    nlmsg_type mc = RTM_NEWACTION /\ nlmsg_flags mc = 1280 /\
    nlmsg_type md = RTM_DELACTION /\ nlmsg_flags md = 1024.
Proof.
  destruct (change_adds_replace_delete_keeps_flags no_ops 4096 true 8
              sample_heap (Some 1%positive) 1024 no_ops_keeps_header)
    as (_ & Hc & _ & Hd).
  eexists _, _. split; [vm_compute; reflexivity|].
  split; [vm_compute; reflexivity|].
  destruct (Hc 0 _ ltac:(vm_compute; reflexivity)) as (Hct & Hcf & _).
  destruct (Hd 0 _ ltac:(vm_compute; reflexivity)) as (Hdt & Hdf).
  repeat split; assumption.
Defined.

(** ** The cache adapter *)

(** C3: for a message with the two actions "A" and "B" the callback is
    called twice, and both times with the first action of the chain. *)
Theorem act_msg_parser_passes_head_twice :
  match act_msg_parser no_ops no_data None cb_accept 64 (empty_state 8)
          sample_inbound with
  | Some (err, st, calls) =>
    err = 0 /\
    calls = [Some 2%positive; Some 2%positive] /\
    st_field tc_kind st 2%positive = Some [x41] /\
    st_field tc_kind st 3%positive = Some [x42] /\
    st_field a_next st 2%positive = Some (Some 3%positive) /\
    st_field a_next st 3%positive = Some None
  | None => False
  end.
Proof. vm_compute. repeat split; reflexivity. Qed.

(** C4: after [rtnl_act_msg_parse] of an [RTM_NEWACTION] message of
    family 2, with a link cache that resolves every index to link 7, the
    message type, the family and the link are on the action that was
    passed in, which is no longer reachable from [*act]; the two actions
    of the chain now in [*act] have none of them. *)
Theorem rtnl_act_msg_parse_tags_placeholder :
  match rtnl_act_alloc (empty_state 8) with
  | (st0, act) =>
    match rtnl_act_msg_parse no_ops no_data (Some (fun _ => Some 7)) 64 st0
            sample_inbound act with
    | Some (err, st, head) =>
      err = 0 /\ act = Some 1%positive /\ head = Some 2%positive /\
      chain_nodes 8 (st_heap st) head = Some [2%positive; 3%positive] /\
      st_field ce_msgtype st 1%positive = Some RTM_NEWACTION /\
      st_field tc_family st 1%positive = Some 2 /\
      st_field tc_link st 1%positive = Some (Some 7) /\
      st_field ce_msgtype st 2%positive = Some 0 /\
      st_field tc_family st 2%positive = Some 0 /\
      st_field tc_link st 2%positive = Some None /\
      st_field ce_msgtype st 3%positive = Some 0 /\
      st_field tc_family st 3%positive = Some 0 /\
      st_field tc_link st 3%positive = Some None
    | None => False
    end
  end.
Proof. vm_compute. repeat split; reflexivity. Qed.

(** ** Bytes *)

Lemma Z_of_byte_of_Z (z : Z) : Z_of_byte (byte_of_Z z) = z mod 256.
Proof.
  unfold Z_of_byte, byte_of_Z.
  pose proof (Z.mod_pos_bound z 256 eq_refl) as Hb.
  destruct (Byte.of_N (Z.to_N (z mod 256))) as [b|] eqn:E.
  - apply Byte.to_of_N in E. rewrite E. lia.
  - apply Byte.of_N_None_iff in E. lia.
Qed.

Lemma get_put_le (w : nat) (n : Z) (rest : list byte) :
  0 <= n < 256 ^ Z.of_nat w -> get_le w (put_le w n ++ rest) = n.
Proof.
  revert n. induction w as [|w IH]; intros n Hn.
  - simpl in *. lia.
  - cbn [put_le get_le app]. rewrite Z_of_byte_of_Z.
    rewrite IH.
    + pose proof (Z.div_mod n 256 ltac:(lia)). lia.
    + rewrite Nat2Z.inj_succ, Z.pow_succ_r in Hn by lia.
      split; [apply Z.div_pos; lia|].
      apply Z.div_lt_upper_bound; lia.
Qed.

Lemma length_put_le (w : nat) (n : Z) : length (put_le w n) = w.
Proof. revert n. induction w; intros; simpl; congruence. Qed.

Lemma blen_app (a b : list byte) : blen (a ++ b) = blen a + blen b.
Proof. unfold blen. rewrite length_app. lia. Qed.

Lemma blen_nonneg (a : list byte) : 0 <= blen a.
Proof. unfold blen. lia. Qed.

Lemma blen_put_le (w : nat) (n : Z) : blen (put_le w n) = Z.of_nat w.
Proof. unfold blen. rewrite length_put_le. reflexivity. Qed.

Lemma blen_zeros (n : Z) : 0 <= n -> blen (zeros n) = n.
Proof. intros. unfold blen, zeros. rewrite repeat_length. lia. Qed.

Lemma zeros_0 : zeros 0 = [].
Proof. reflexivity. Qed.

Lemma bdrop_app_exact (n : Z) (a b : list byte) :
  blen a = n -> bdrop n (a ++ b) = b.
Proof.
  intros <-. unfold bdrop, blen. rewrite Nat2Z.id. apply drop_app_length.
Qed.

Lemma btake_app_exact (n : Z) (a b : list byte) :
  blen a = n -> btake n (a ++ b) = a.
Proof.
  intros <-. unfold btake, blen. rewrite Nat2Z.id. apply take_app_length.
Qed.

Lemma NLA_ALIGN_bounds (n : Z) : n <= NLA_ALIGN n < n + 4.
Proof.
  unfold NLA_ALIGN.
  pose proof (Z.div_mod (n + 3) 4 ltac:(lia)).
  pose proof (Z.mod_pos_bound (n + 3) 4 ltac:(lia)). lia.
Qed.

Lemma NLA_ALIGN_mult (n : Z) : NLA_ALIGN (4 * n) = 4 * n.
Proof.
  unfold NLA_ALIGN.
  replace (4 * n + 3) with (3 + n * 4) by lia.
  rewrite Z.div_add by lia. change (3 / 4) with 0. lia.
Qed.

Lemma NLA_ALIGN_aligned (n : Z) : exists k, NLA_ALIGN n = 4 * k.
Proof. unfold NLA_ALIGN. exists ((n + 3) / 4). lia. Qed.

Lemma blen_enc_attr (t : Z) (d : list byte) :
  blen (enc_attr t d) = NLA_ALIGN (NLA_HDRLEN + blen d).
Proof.
  unfold enc_attr. rewrite !blen_app, !blen_put_le.
  pose proof (NLA_ALIGN_bounds (NLA_HDRLEN + blen d)).
  rewrite blen_zeros by lia. unfold NLA_HDRLEN. lia.
Qed.

(** ** Attribute streams *)

Lemma nla_stream_cons (f : nat) (t : Z) (d rest : list byte) (rem : Z) :
  0 <= t < 65536 -> NLA_HDRLEN + blen d < 65536 ->
  NLA_HDRLEN + blen d <= rem ->
  nla_stream (S f) (enc_attr t d ++ rest) rem
    = mk_nla (NLA_HDRLEN + blen d) t
        (d ++ zeros (NLA_ALIGN (NLA_HDRLEN + blen d) - (NLA_HDRLEN + blen d))
           ++ rest)
      :: nla_stream f rest (rem - NLA_ALIGN (NLA_HDRLEN + blen d)).
Proof.
  intros Ht Hl Hrem.
  pose proof (blen_nonneg d) as Hd.
  cbn [nla_stream].
  assert (E1 : get_le 2 (enc_attr t d ++ rest) = NLA_HDRLEN + blen d).
  { unfold enc_attr. rewrite <- !app_assoc. apply get_put_le.
    unfold NLA_HDRLEN in *. simpl. lia. }
  rewrite E1.
  assert (E2 : bdrop 2 (enc_attr t d ++ rest)
               = put_le 2 t ++ d
                   ++ zeros (NLA_ALIGN (NLA_HDRLEN + blen d)
                             - (NLA_HDRLEN + blen d)) ++ rest).
  { unfold enc_attr. rewrite <- !app_assoc. apply bdrop_app_exact.
    apply blen_put_le. }
  rewrite E2. rewrite get_put_le by (simpl; lia).
  assert (E3 : bdrop NLA_HDRLEN (enc_attr t d ++ rest)
               = d ++ zeros (NLA_ALIGN (NLA_HDRLEN + blen d)
                             - (NLA_HDRLEN + blen d)) ++ rest).
  { unfold enc_attr. rewrite <- !app_assoc.
    rewrite (app_assoc (put_le 2 _) (put_le 2 t)).
    apply bdrop_app_exact. rewrite blen_app, !blen_put_le. reflexivity. }
  rewrite E3.
  rewrite (bdrop_app_exact _ (enc_attr t d) rest (blen_enc_attr t d)).
  destruct (Z.leb_spec NLA_HDRLEN rem); [|unfold NLA_HDRLEN in *; lia].
  destruct (Z.leb_spec NLA_HDRLEN (NLA_HDRLEN + blen d)); [|lia].
  destruct (Z.leb_spec (NLA_HDRLEN + blen d) rem); [|lia].
  reflexivity.
Qed.

Lemma nla_stream_end (f : nat) (p : list byte) (rem : Z) :
  rem < NLA_HDRLEN -> nla_stream f p rem = [].
Proof.
  intros H. destruct f; [reflexivity|]. cbn [nla_stream].
  destruct (Z.leb_spec NLA_HDRLEN rem); [lia|]. reflexivity.
Qed.

(** ** Writing attributes *)

Lemma NLA_ALIGN_shift (k x : Z) : NLA_ALIGN (4 * k + x) = 4 * k + NLA_ALIGN x.
Proof.
  unfold NLA_ALIGN. replace (4 * k + x + 3) with (x + 3 + k * 4) by lia.
  rewrite Z.div_add by lia. lia.
Qed.

Lemma aligned_app (a b : list byte) : aligned a -> aligned b -> aligned (a ++ b).
Proof.
  unfold aligned. rewrite blen_app. intros [x Hx] [y Hy].
  exists (x + y). lia.
Qed.

Lemma aligned_enc_attr (t : Z) (d : list byte) : aligned (enc_attr t d).
Proof.
  unfold aligned. rewrite blen_enc_attr.
  destruct (NLA_ALIGN_aligned (NLA_HDRLEN + blen d)) as [k Hk].
  exists k. lia.
Qed.

Lemma aligned_nil : aligned [].
Proof. exists 0. reflexivity. Qed.

Lemma msg_pad_aligned (m : nl_msg) :
  aligned (nm_payload m) -> NLMSG_ALIGN (nlmsg_len m) - nlmsg_len m = 0.
Proof.
  intros [k Hk]. unfold nlmsg_len, NLMSG_ALIGN, NLMSG_HDRLEN. rewrite Hk.
  replace (16 + k * 4 + 3) with (3 + (4 + k) * 4) by lia.
  rewrite Z.div_add by lia. change (3 / 4) with 0. lia.
Qed.

Lemma blen_enc_attr_nil (t : Z) : blen (enc_attr t []) = 4.
Proof. reflexivity. Qed.

Lemma nla_put_spec (m : nl_msg) (t : Z) (d : list byte) (m' : nl_msg) :
  aligned (nm_payload m) -> nla_put m t d = Some m' ->
  m' = msg_with_payload m (nm_payload m ++ enc_attr t d).
Proof.
  intros Ha. unfold nla_put. rewrite (msg_pad_aligned m Ha).
  destruct (_ <? _); [discriminate|]. intros [= <-].
  reflexivity.
Qed.

Lemma nla_nest_start_spec (m : nl_msg) (t : Z) (m' : nl_msg) (s : Z) :
  aligned (nm_payload m) -> nla_nest_start m t = Some (m', s) ->
  m' = msg_with_payload m (nm_payload m ++ enc_attr t []) /\
  s = blen (nm_payload m).
Proof.
  intros Ha. unfold nla_nest_start.
  destruct (nla_put m t []) as [m1|] eqn:E; [|discriminate].
  apply nla_put_spec in E; [|exact Ha]. subst m1. intros [= <- <-].
  split; [reflexivity|]. simpl nm_payload.
  rewrite blen_app, blen_enc_attr_nil. unfold NLA_HDRLEN. lia.
Qed.

Lemma nla_nest_end_spec (m : nl_msg) (pre body : list byte) (t : Z) :
  aligned pre ->
  nm_payload m = pre ++ enc_attr t [] ++ body ->
  nla_nest_end m (blen pre)
    = msg_with_payload m (pre ++ enc_attr t body).
Proof.
  intros [k Hk] Hp. unfold nla_nest_end. f_equal.
  pose proof (blen_nonneg body) as Hb.
  assert (Hpad : NLMSG_ALIGN (nlmsg_len m) - nlmsg_len m
                 = NLA_ALIGN (NLA_HDRLEN + blen body)
                   - (NLA_HDRLEN + blen body)).
  { unfold nlmsg_len. rewrite Hp, !blen_app, blen_enc_attr_nil.
    unfold NLMSG_ALIGN, NLMSG_HDRLEN. fold (NLA_ALIGN (16 + (blen pre + (4 + blen body)))).
    rewrite Hk.
    replace (16 + (k * 4 + (4 + blen body)))
      with (4 * (4 + k) + (NLA_HDRLEN + blen body))
      by (unfold NLA_HDRLEN; lia).
    rewrite NLA_ALIGN_shift. lia. }
  assert (E1 : btake (blen pre) (nm_payload m) = pre).
  { rewrite Hp. apply btake_app_exact. reflexivity. }
  assert (E2 : blen (nm_payload m) - blen pre = NLA_HDRLEN + blen body).
  { rewrite Hp, !blen_app, blen_enc_attr_nil. unfold NLA_HDRLEN. lia. }
  assert (E3 : bdrop (blen pre + 2) (nm_payload m) = put_le 2 t ++ body).
  { rewrite Hp.
    replace (pre ++ enc_attr t [] ++ body)
      with ((pre ++ put_le 2 (NLA_HDRLEN + 0)) ++ put_le 2 t ++ body).
    - apply bdrop_app_exact. rewrite blen_app, blen_put_le. lia.
    - unfold enc_attr. simpl. rewrite <- !app_assoc. reflexivity. }
  rewrite Hpad, E1, E2, E3. unfold enc_attr.
  rewrite <- !app_assoc. reflexivity.
Qed.

(** ** Building a chain *)

Ltac solve_aligned :=
  repeat first [ assumption | apply aligned_enc_attr | apply aligned_nil
               | apply aligned_app ].

Section FillFacts.

Variable get_ops : rtnl_act -> option rtnl_tc_ops.
Variable opts_of : rtnl_act -> list byte.
Hypothesis Hreg : registry_fills get_ops opts_of.

Lemma fill_one_spec (m : nl_msg) (a : rtnl_act) (order : Z) :
  aligned (nm_payload m) -> has_mask a TCA_ATTR_KIND = true ->
  0 <= (rtnl_act_fill_one get_ops m a order).1 ->
  (rtnl_act_fill_one get_ops m a order).2
    = msg_with_payload m
        (nm_payload m ++ enc_attr order (block_content get_ops opts_of a)).
Proof.
  intros Hal Hk. unfold rtnl_act_fill_one, block_content, has_fill.
  rewrite Hk.
  destruct (nla_nest_start m order) as [[m1 nest]|] eqn:E1;
    [|cbn [fst]; unfold NLE_NOMEM; lia].
  apply nla_nest_start_spec in E1 as [-> ->]; [|exact Hal].
  destruct (nla_put _ TCA_ACT_KIND _) as [m2|] eqn:E2;
    [|cbn [fst]; unfold NLE_NOMEM; lia].
  apply nla_put_spec in E2;
    [|simpl; apply aligned_app; [exact Hal | apply aligned_enc_attr]].
  simpl in E2. subst m2.
  set (kind := enc_attr TCA_ACT_KIND (tc_kind a ++ [x00])).
  assert (Hend : forall body,
    nla_nest_end
      (msg_with_payload m
         ((nm_payload m ++ enc_attr order []) ++ kind ++ body))
      (blen (nm_payload m))
    = msg_with_payload m (nm_payload m ++ enc_attr order (kind ++ body))).
  { intros body.
    rewrite (nla_nest_end_spec _ (nm_payload m) (kind ++ body) order Hal).
    - reflexivity.
    - simpl. rewrite <- !app_assoc. reflexivity. }
  destruct (get_ops a) as [ops|] eqn:Eo.
  - destruct (Hreg a ops Eo) as [Hf Hraw].
    destruct (to_msg_fill ops) as [f|] eqn:Ef.
    + destruct (nla_nest_start _ TCA_ACT_OPTIONS) as [[m3 opts]|] eqn:E3;
        [|cbn [fst]; unfold NLE_NOMEM; lia].
      apply nla_nest_start_spec in E3 as [-> ->];
        [|simpl; solve_aligned].
      pose proof (Hf f eq_refl) as Happ. unfold fill_appends in Happ.
      specialize (Happ (msg_with_payload
        (msg_with_payload m ((nm_payload m ++ enc_attr order []) ++ kind))
        (nm_payload
           (msg_with_payload m ((nm_payload m ++ enc_attr order []) ++ kind))
         ++ enc_attr TCA_ACT_OPTIONS []))).
      assert (Hal3 : aligned (nm_payload (msg_with_payload
        (msg_with_payload m ((nm_payload m ++ enc_attr order []) ++ kind))
        (nm_payload
           (msg_with_payload m ((nm_payload m ++ enc_attr order []) ++ kind))
         ++ enc_attr TCA_ACT_OPTIONS [])))).
      { cbn [nm_payload msg_with_payload]. solve_aligned. }
      specialize (Happ Hal3).
      destruct (f a _) as [err m4]. simpl in Happ.
      destruct (Z.ltb_spec err 0) as [Hneg|Hpos]; cbn [fst snd]; [lia|].
      intros _. rewrite (Happ Hpos).
      rewrite (nla_nest_end_spec _
                 ((nm_payload m ++ enc_attr order []) ++ kind)
                 (opts_of a) TCA_ACT_OPTIONS).
      * rewrite <- (Hend (enc_attr TCA_ACT_OPTIONS (opts_of a))).
        f_equal. unfold msg_with_payload.
        cbn [nlmsg_type nlmsg_flags nm_size nm_payload]. f_equal.
        rewrite <- !app_assoc. reflexivity.
      * solve_aligned.
      * simpl. rewrite <- !app_assoc. reflexivity.
    + rewrite (Hraw eq_refl). cbn [fst snd]. intros _.
      rewrite <- (Hend []). rewrite !app_nil_r. reflexivity.
  - cbn [fst snd]. intros _. rewrite <- (Hend []). rewrite !app_nil_r. reflexivity.
Qed.

Lemma aligned_chain_body (order : Z) (recs : list rtnl_act) :
  aligned (chain_body get_ops opts_of order recs).
Proof.
  revert order. induction recs as [|a recs IH]; intros order; cbn [chain_body].
  - apply aligned_nil.
  - apply aligned_app; [apply aligned_enc_attr | apply IH].
Qed.

Lemma fill_walk_spec fuel (h : heap) (m : nl_msg) p order l recs e m' :
  is_chain h p l -> Forall2 (fun x a => h !! x = Some a) l recs ->
  Forall (fun a => has_mask a TCA_ATTR_KIND = true) recs ->
  aligned (nm_payload m) ->
  fill_walk get_ops fuel h m p order = Some (e, m') -> 0 <= e ->
  m' = msg_with_payload m
         (nm_payload m ++ chain_body get_ops opts_of order recs).
Proof.
  revert m p order l recs.
  induction fuel as [|f IH]; intros m p order l recs Hc Hrecs Hk Hal Hw He.
  - destruct p as [x|]; [discriminate|].
    destruct l as [|y l]; [|destruct Hc; discriminate].
    inversion Hrecs; subst. injection Hw as _ <-. cbn [chain_body].
    rewrite app_nil_r. by destruct m.
  - destruct l as [|x l].
    + simpl in Hc. subst p. inversion Hrecs; subst.
      injection Hw as _ <-. cbn [chain_body]. rewrite app_nil_r. by destruct m.
    + destruct Hc as (-> & a & Ha & Hc).
      inversion Hrecs as [|? b ? recs' Hb Hrecs']; subst.
      assert (b = a) by congruence. subst b.
      inversion Hk as [|? ? Hka Hk']; subst.
      cbn [fill_walk] in Hw. rewrite Ha in Hw.
      pose proof (fill_one_spec m a (order + 1) Hal Hka)
        as H1.
      destruct (rtnl_act_fill_one get_ops m a (order + 1)) as [e1 m1].
      cbn [fst snd] in H1.
      destruct (Z.ltb_spec e1 0) as [Hneg|Hpos].
      * injection Hw as <- <-. lia.
      * specialize (H1 Hpos). subst m1.
        apply (IH _ _ _ l recs' Hc Hrecs' Hk') in Hw; [|cbn [nm_payload msg_with_payload]; solve_aligned|exact He].
        subst m'. unfold msg_with_payload.
        cbn [chain_body nm_payload nlmsg_type nlmsg_flags nm_size].
        rewrite <- !app_assoc. reflexivity.
Qed.

Lemma rtnl_act_fill_spec fuel (h : heap) (m : nl_msg) t act l recs e m' :
  is_chain h act l -> Forall2 (fun x a => h !! x = Some a) l recs ->
  Forall (fun a => has_mask a TCA_ATTR_KIND = true) recs ->
  aligned (nm_payload m) ->
  rtnl_act_fill get_ops fuel h m t act = Some (e, m') -> 0 <= e ->
  m' = msg_with_payload m
         (nm_payload m ++ enc_attr t (chain_body get_ops opts_of 0 recs)).
Proof.
  intros Hc Hrecs Hk Hal. unfold rtnl_act_fill.
  destruct (nla_nest_start m t) as [[m1 nest]|] eqn:E1.
  - apply nla_nest_start_spec in E1 as [-> ->]; [|exact Hal].
    destruct (fill_walk _ _ _ _ _ _) as [[e1 m2]|] eqn:E2; [|discriminate].
    destruct (Z.ltb_spec e1 0) as [Hneg|Hpos].
    + intros [= <- <-]. lia.
    + intros [= <- <-] _.
      apply (fill_walk_spec _ _ _ _ _ l recs _ _ Hc Hrecs Hk) in E2;
        [|cbn [nm_payload msg_with_payload]; solve_aligned|exact Hpos].
      subst m2.
      rewrite (nla_nest_end_spec _ (nm_payload m)
                 (chain_body get_ops opts_of 0 recs) t Hal).
      * reflexivity.
      * cbn [nm_payload msg_with_payload]. rewrite <- !app_assoc. reflexivity.
  - intros [= <- <-]. unfold NLE_MSGSIZE. lia.
Qed.

End FillFacts.

(** ** The parse loop *)

Section ParseFacts.

Variable get_ops : rtnl_act -> option rtnl_tc_ops.
Variable get_data : rtnl_act -> option (list byte).

Lemma parse_loop_slots n k fuel st th nla :
  parse_loop get_ops get_data n k fuel st th nla
    = parse_seq get_ops get_data fuel st th (slots nla k n).
Proof.
  revert k st th. induction n as [|n IH]; intros k st th; simpl.
  - reflexivity.
  - destruct (tb_get nla k) as [a|]; [|apply IH].
    destruct (parse_one _ _ _ _ _ _) as [[[e st1] th1]|]; [|reflexivity].
    destruct (e <? 0); [reflexivity | apply IH].
Qed.

Lemma parse_stats_links tc tb3 :
  a_next (parse_stats tc tb3) = a_next tc /\
  ce_refcnt (parse_stats tc tb3) = ce_refcnt tc.
Proof. unfold parse_stats. repeat case_match; split; reflexivity. Qed.

Lemma parse_fields_links tc a n :
  a_next (parse_fields get_ops get_data tc a n).1.2 = a_next tc /\
  ce_refcnt (parse_fields get_ops get_data tc a n).1.2 = ce_refcnt tc.
Proof.
  unfold parse_fields.
  repeat case_match; simplify_eq; cbn [fst snd];
    cbn [a_next ce_refcnt set_subdata or_mask set_opts rtnl_tc_set_kind
         set_kind_field];
    repeat match goal with
    | |- context [parse_stats ?t ?l] =>
      destruct (parse_stats_links t l) as [-> ->]
    end;
    cbn [a_next ce_refcnt set_subdata or_mask set_opts rtnl_tc_set_kind
         set_kind_field];
    split; reflexivity.
Qed.

Lemma parse_fields_avail tc a n :
  (parse_fields get_ops get_data tc a (S n)).1
    = (parse_fields get_ops get_data tc a 1).1 /\
  (n <= (parse_fields get_ops get_data tc a (S n)).2 <= S n)%nat.
Proof.
  unfold parse_fields.
  repeat case_match; simplify_eq; cbn [fst snd]; split;
    first [reflexivity | lia | congruence].
Qed.

End ParseFacts.


(** ** Decoding what was built *)

Lemma until_nul_id (k : list byte) :
  Forall (fun b => b <> x00) k -> until_nul k = k.
Proof.
  induction 1 as [|b k Hb _ IH]; simpl; [reflexivity|].
  destruct (Byte.eqb b x00) eqn:E.
  - apply Byte.byte_dec_bl in E. contradiction.
  - rewrite IH. reflexivity.
Qed.

Lemma nla_strlcpy_kind (k rest : list byte) :
  kind_ok k ->
  nla_strlcpy (mk_nla (NLA_HDRLEN + blen (k ++ [x00])) TCA_ACT_KIND
                      ((k ++ [x00]) ++ rest)) TCKINDSIZ = k.
Proof.
  intros [Hnul Hlen]. unfold nla_strlcpy, nla_len. cbn [nla_len_field nla_data].
  replace (NLA_HDRLEN + blen (k ++ [x00]) - NLA_HDRLEN)
    with (blen (k ++ [x00])) by lia.
  rewrite (btake_app_exact _ (k ++ [x00]) rest eq_refl).
  rewrite List.last_last.
  pose proof (blen_nonneg k) as Hk.
  rewrite blen_app. change (blen [x00]) with 1.
  destruct (Z.ltb_spec 0 (blen k + 1)); [|lia].
  cbn [andb Byte.eqb]. change (Byte.eqb x00 x00) with true. cbn iota.
  replace (blen k + 1 - 1) with (blen k) by lia.
  rewrite Z.min_l by lia.
  rewrite (btake_app_exact _ k [x00] eq_refl).
  apply until_nul_id. exact Hnul.
Qed.

Lemma nl_data_of_attr_enc (d rest : list byte) (t : Z) :
  nl_data_of_attr (mk_nla (NLA_HDRLEN + blen d) t (d ++ rest)) = d.
Proof.
  unfold nl_data_of_attr, nla_len. cbn [nla_len_field nla_data].
  replace (NLA_HDRLEN + blen d - NLA_HDRLEN) with (blen d) by lia.
  apply btake_app_exact. reflexivity.
Qed.

Section DecodeFacts.

Variable get_ops : rtnl_act -> option rtnl_tc_ops.
Variable get_data : rtnl_act -> option (list byte).
Variable opts_of : rtnl_act -> list byte.

Lemma stream_content (f : nat) (a : rtnl_act) (rest : list byte) :
  kind_ok (tc_kind a) ->
  NLA_HDRLEN + blen (block_content get_ops opts_of a) < 65536 ->
  nla_stream (S (S f)) (block_content get_ops opts_of a ++ rest)
             (blen (block_content get_ops opts_of a))
    = content_attrs get_ops opts_of a rest.
Proof.
  intros [_ Hk] Hc. unfold block_content, content_attrs in *.
  pose proof (blen_nonneg (tc_kind a)) as Hk0.
  pose proof (blen_nonneg (opts_of a)) as Ho0.
  set (k0 := tc_kind a ++ [x00]) in *.
  assert (Hk0len : blen k0 = blen (tc_kind a) + 1).
  { unfold k0. rewrite blen_app. reflexivity. }
  unfold TCKINDSIZ in Hk.
  pose proof (NLA_ALIGN_bounds (NLA_HDRLEN + blen k0)) as Hal.
  pose proof (NLA_ALIGN_bounds (NLA_HDRLEN + blen (opts_of a))) as Hal2.
  rewrite blen_app, blen_enc_attr in Hc.
  rewrite <- app_assoc, blen_app, blen_enc_attr.
  destruct (has_fill get_ops a).
  - rewrite blen_enc_attr in *.
    rewrite nla_stream_cons;
      [| unfold TCA_ACT_KIND; lia | unfold NLA_HDRLEN in *; lia
       | unfold NLA_HDRLEN in *; lia ].
    f_equal.
    replace (NLA_ALIGN (NLA_HDRLEN + blen k0)
             + NLA_ALIGN (NLA_HDRLEN + blen (opts_of a))
             - NLA_ALIGN (NLA_HDRLEN + blen k0))
      with (blen (enc_attr TCA_ACT_OPTIONS (opts_of a)))
      by (rewrite blen_enc_attr; unfold NLA_HDRLEN in *; lia).
    rewrite blen_enc_attr.
    rewrite nla_stream_cons;
      [| unfold TCA_ACT_OPTIONS; lia | unfold NLA_HDRLEN in *; lia
       | unfold NLA_HDRLEN in *; lia ].
    f_equal. apply nla_stream_end. unfold NLA_HDRLEN. lia.
  - change (blen []) with 0 in *.
    rewrite nla_stream_cons;
      [| unfold TCA_ACT_KIND; lia | unfold NLA_HDRLEN in *; lia
       | unfold NLA_HDRLEN in *; lia ].
    f_equal. apply nla_stream_end. unfold NLA_HDRLEN. lia.
Qed.

(** The loop body on a block with a kind, possibly options, and no
    statistics. *)
Lemma parse_fields_plain (tc : rtnl_act) (B : nlattr) (tb2 : list nlattr)
    (K : nlattr) (oo : option nlattr) :
  nla_parse TCA_ACT_MAX (nla_data B) (nla_len B) None = (0, tb2) ->
  tb_get tb2 TCA_ACT_KIND = Some K ->
  tb_get tb2 TCA_ACT_OPTIONS = oo ->
  tb_get tb2 TCA_ACT_STATS = None ->
  (forall tc3 ops p, get_ops tc3 = Some ops -> to_msg_parser ops = Some p ->
     tc_kind tc3 = nla_strlcpy K TCKINDSIZ ->
     tc_opts tc3 = match oo with
                   | Some ao => Some (nl_data_of_attr ao)
                   | None => tc_opts tc
                   end ->
     get_data tc3 <> None /\ 0 <= (p tc3).1) ->
  (parse_fields get_ops get_data tc B 1).1.1 = 0 /\
  tc_kind (parse_fields get_ops get_data tc B 1).1.2
    = nla_strlcpy K TCKINDSIZ /\
  tc_opts (parse_fields get_ops get_data tc B 1).1.2
    = match oo with
      | Some ao => Some (nl_data_of_attr ao)
      | None => tc_opts tc
      end.
Proof.
  intros Hp HK HO HS Hparse. unfold parse_fields. rewrite Hp.
  change (0 <? 0) with false. cbn iota. rewrite HK, HO, HS.
  set (tc1 := rtnl_tc_set_kind tc (nla_strlcpy K TCKINDSIZ)).
  assert (Hops : forall tc3 (n : nat),
    tc_kind tc3 = nla_strlcpy K TCKINDSIZ ->
    tc_opts tc3 = match oo with
                  | Some ao => Some (nl_data_of_attr ao)
                  | None => tc_opts tc
                  end ->
    let r := match get_ops tc3 with
             | Some ops =>
               match to_msg_parser ops with
               | Some parser =>
                 match get_data tc3 with
                 | None => (- NLE_NOMEM, tc3, n)
                 | Some _ =>
                   let '(err4, d) := parser tc3 in
                   let tc4 := set_subdata tc3 d in
                   if err4 <? 0 then (err4, tc4, n) else (0, tc4, n)
                 end
               | None => (0, tc3, n)
               end
             | None => (0, tc3, n)
             end in
    r.1.1 = 0 /\ tc_kind r.1.2 = nla_strlcpy K TCKINDSIZ /\
    tc_opts r.1.2 = tc_opts tc3).
  { intros tc3 n Hk3 Ho3.
    destruct (get_ops tc3) as [ops|] eqn:Eo;
      [|repeat split; first [assumption | reflexivity]].
    destruct (to_msg_parser ops) as [parser|] eqn:Ep;
      [|repeat split; first [assumption | reflexivity]].
    destruct (Hparse tc3 ops parser Eo Ep Hk3 Ho3) as [Hd He].
    destruct (get_data tc3) as [d0|]; [|congruence].
    destruct (parser tc3) as [err4 d]. cbn [fst] in He.
    destruct (Z.ltb_spec err4 0); [lia|].
    cbn. repeat split; first [assumption | reflexivity]. }
  destruct oo as [ao|].
  - change (0 <? 0) with false. cbn iota.
    apply (Hops (or_mask (set_opts tc1 (Some (nl_data_of_attr ao)))
                         TCA_ATTR_OPTS) 0%nat); reflexivity.
  - change (0 <? 0) with false. cbn iota.
    apply (Hops tc1 1%nat); reflexivity.
Qed.

Lemma decode_block (a : rtnl_act) (t : Z) (rest : list byte) :
  kind_ok (tc_kind a) ->
  NLA_HDRLEN + blen (block_content get_ops opts_of a) < 65536 ->
  parser_accepts get_ops get_data opts_of a ->
  let B := mk_nla (NLA_HDRLEN + blen (block_content get_ops opts_of a)) t
                  (block_content get_ops opts_of a ++ rest) in
  decode_err get_ops get_data B = 0 /\
  tc_kind (decode_act get_ops get_data B) = tc_kind a /\
  tc_opts (decode_act get_ops get_data B)
    = (if has_fill get_ops a then Some (opts_of a) else None).
Proof.
  intros Hk Ho Hacc B. unfold decode_err, decode_act.
  assert (Hp : nla_parse TCA_ACT_MAX (nla_data B) (nla_len B) None
               = (0, content_attrs get_ops opts_of a rest)).
  { unfold nla_parse, B, nla_len. cbn [nla_data nla_len_field].
    replace (NLA_HDRLEN + blen (block_content get_ops opts_of a) - NLA_HDRLEN)
      with (blen (block_content get_ops opts_of a)) by lia.
    assert (Hf : exists f,
      length (block_content get_ops opts_of a ++ rest) = S (S f)).
    { unfold block_content. rewrite <- app_assoc.
      unfold enc_attr at 1. rewrite <- !app_assoc. simpl.
      eexists. reflexivity. }
    destruct Hf as [f ->].
    rewrite (stream_content f a rest Hk Ho).
    unfold content_attrs. destruct (has_fill get_ops a); reflexivity. }
  destruct (parse_fields_plain act_zero B _
              (mk_nla (NLA_HDRLEN + blen (tc_kind a ++ [x00])) TCA_ACT_KIND
                 ((tc_kind a ++ [x00])
                    ++ zeros (NLA_ALIGN (NLA_HDRLEN + blen (tc_kind a ++ [x00]))
                              - (NLA_HDRLEN + blen (tc_kind a ++ [x00])))
                    ++ (if has_fill get_ops a
                        then enc_attr TCA_ACT_OPTIONS (opts_of a) else [])
                    ++ rest))
              (if has_fill get_ops a
               then Some (mk_nla (NLA_HDRLEN + blen (opts_of a))
                            TCA_ACT_OPTIONS
                            (opts_of a
                               ++ zeros (NLA_ALIGN (NLA_HDRLEN + blen (opts_of a))
                                         - (NLA_HDRLEN + blen (opts_of a)))
                               ++ rest))
               else None) Hp) as (He & Hkind & Hopts).
  - unfold content_attrs. destruct (has_fill get_ops a); reflexivity.
  - unfold content_attrs. destruct (has_fill get_ops a); reflexivity.
  - unfold content_attrs. destruct (has_fill get_ops a); reflexivity.
  - intros tc3 ops p Eo Ep Hk3 Ho3. apply (Hacc tc3 ops p Eo Ep).
    + rewrite Hk3. apply nla_strlcpy_kind. exact Hk.
    + rewrite Ho3. destruct (has_fill get_ops a); [|reflexivity].
      rewrite nl_data_of_attr_enc. reflexivity.
  - split; [exact He|]. split.
    + rewrite Hkind. apply nla_strlcpy_kind. exact Hk.
    + rewrite Hopts. destruct (has_fill get_ops a); [|reflexivity].
      rewrite nl_data_of_attr_enc. reflexivity.
Qed.

End DecodeFacts.

(** ** The table of a built chain *)

Lemma tb_get_app (l1 l2 : list nlattr) (i : Z) :
  tb_get (l1 ++ l2) i
    = match tb_get l2 i with Some b => Some b | None => tb_get l1 i end.
Proof.
  induction l1 as [|a l1 IH]; simpl.
  - destruct (tb_get l2 i); reflexivity.
  - rewrite IH. destruct (tb_get l2 i); reflexivity.
Qed.

Lemma tb_get_none (l : list nlattr) (i : Z) :
  Forall (fun b => nla_type b <> i) l -> tb_get l i = None.
Proof.
  induction 1 as [|a l Ha _ IH]; simpl; [reflexivity|].
  rewrite IH. destruct (Z.eqb_spec (nla_type a) i); [contradiction|reflexivity].
Qed.

Lemma omap_id_none (s : list (option nlattr)) :
  omap id (None :: s) = omap id s.
Proof. reflexivity. Qed.

Lemma omap_id_some (b : nlattr) (s : list (option nlattr)) :
  omap id (Some b :: s) = b :: omap id s.
Proof. reflexivity. Qed.

Lemma slots_none (nla : list nlattr) (k : Z) (n : nat) :
  (forall i, k <= i -> tb_get nla i = None) -> omap id (slots nla k n) = [].
Proof.
  revert k. induction n as [|n IH]; intros k H; [reflexivity|].
  cbn [slots]. rewrite H by lia. rewrite omap_id_none.
  apply IH. intros i Hi. apply H. lia.
Qed.

Section TableFacts.

Variable get_ops : rtnl_act -> option rtnl_tc_ops.
Variable opts_of : rtnl_act -> list byte.

Lemma block_attrs_types order recs rest :
  Forall (fun b => order < nla_type b <= order + Z.of_nat (length recs))
         (block_attrs get_ops opts_of order recs rest).
Proof.
  revert order. induction recs as [|a recs IH]; intros order;
    cbn [block_attrs]; constructor.
  - cbn [nla_type length]. lia.
  - eapply Forall_impl; [apply IH|]. cbn [length]. intros b Hb. lia.
Qed.

Lemma blen_chain_body_ge order recs :
  Z.of_nat (length recs) <= blen (chain_body get_ops opts_of order recs).
Proof.
  revert order. induction recs as [|a recs IH]; intros order;
    cbn [chain_body length]; [change (blen []) with 0; lia|].
  rewrite blen_app, blen_enc_attr. specialize (IH (order + 1)).
  pose proof (NLA_ALIGN_bounds
                (NLA_HDRLEN + blen (block_content get_ops opts_of a))).
  pose proof (blen_nonneg (block_content get_ops opts_of a)).
  unfold NLA_HDRLEN in *. lia.
Qed.

Lemma stream_chain_body recs : forall order rest fuel,
  0 <= order -> order + Z.of_nat (length recs) < 65536 ->
  Forall (fun a => NLA_HDRLEN + blen (block_content get_ops opts_of a) < 65536)
         recs ->
  (length recs <= fuel)%nat ->
  nla_stream fuel (chain_body get_ops opts_of order recs ++ rest)
             (blen (chain_body get_ops opts_of order recs))
    = block_attrs get_ops opts_of order recs rest.
Proof.
  induction recs as [|a recs IH]; intros order rest fuel Ho Hn Hsz Hf.
  - cbn [chain_body block_attrs]. apply nla_stream_end.
    change (blen []) with 0. unfold NLA_HDRLEN. lia.
  - inversion Hsz as [|? ? Ha Hsz']; subst. cbn [length] in *.
    destruct fuel as [|f]; [lia|].
    cbn [chain_body block_attrs]. rewrite <- app_assoc.
    pose proof (blen_nonneg (chain_body get_ops opts_of (order + 1) recs)).
    pose proof (NLA_ALIGN_bounds
                  (NLA_HDRLEN + blen (block_content get_ops opts_of a))).
    rewrite nla_stream_cons;
      [| lia | exact Ha | rewrite blen_app, blen_enc_attr; lia].
    f_equal.
    rewrite blen_app, blen_enc_attr.
    replace (NLA_ALIGN (NLA_HDRLEN + blen (block_content get_ops opts_of a))
             + blen (chain_body get_ops opts_of (order + 1) recs)
             - NLA_ALIGN (NLA_HDRLEN + blen (block_content get_ops opts_of a)))
      with (blen (chain_body get_ops opts_of (order + 1) recs)) by lia.
    apply IH; [lia | lia | exact Hsz' | lia].
Qed.

Lemma slots_block_attrs recs : forall pre order rest n,
  Forall (fun b => nla_type b <= order) pre ->
  (length recs <= n)%nat ->
  omap id (slots (pre ++ block_attrs get_ops opts_of order recs rest)
                 (order + 1) n)
    = block_attrs get_ops opts_of order recs rest.
Proof.
  induction recs as [|a recs IH]; intros pre order rest n Hpre Hn.
  - cbn [block_attrs]. rewrite app_nil_r. apply slots_none.
    intros i Hi. apply tb_get_none.
    eapply Forall_impl; [exact Hpre|]. intros b Hb. simpl in Hb. lia.
  - cbn [length] in Hn. destruct n as [|n]; [lia|].
    cbn [block_attrs slots].
    set (B := mk_nla _ (order + 1) _).
    set (tail := block_attrs get_ops opts_of (order + 1) recs rest).
    assert (Ht : tb_get (pre ++ B :: tail) (order + 1) = Some B).
    { rewrite tb_get_app. cbn [tb_get].
      rewrite (tb_get_none tail).
      - cbn [nla_type B]. rewrite Z.eqb_refl. reflexivity.
      - eapply Forall_impl; [apply block_attrs_types|].
        intros b Hb. simpl in Hb. lia. }
    rewrite Ht, omap_id_some. f_equal.
    replace (pre ++ B :: tail) with ((pre ++ [B]) ++ tail)
      by (rewrite <- app_assoc; reflexivity).
    apply IH; [|lia].
    apply Forall_app. split.
    + eapply Forall_impl; [exact Hpre|]. intros b Hb. simpl in Hb. lia.
    + constructor; [cbn; lia | constructor].
Qed.

End TableFacts.

Section RoundTrip.

Variable get_ops : rtnl_act -> option rtnl_tc_ops.
Variable get_data : rtnl_act -> option (list byte).
Variable opts_of : rtnl_act -> list byte.

Lemma block_attrs_decode recs : forall order rest,
  Forall (fun a => kind_ok (tc_kind a)) recs ->
  Forall (fun a => NLA_HDRLEN + blen (block_content get_ops opts_of a) < 65536)
         recs ->
  Forall (parser_accepts get_ops get_data opts_of) recs ->
  Forall2 (decodes_to get_ops get_data opts_of) recs
          (block_attrs get_ops opts_of order recs rest).
Proof.
  induction recs as [|a recs IH]; intros order rest Hk Hsz Hacc;
    cbn [block_attrs]; constructor.
  - inversion Hk; inversion Hsz; inversion Hacc; subst.
    apply (decode_block get_ops get_data opts_of a (order + 1));
      assumption.
  - inversion Hk; inversion Hsz; inversion Hacc; subst. apply IH; assumption.
Qed.

Lemma chain_body_block_bound recs : forall order,
  NLA_HDRLEN + blen (chain_body get_ops opts_of order recs) < 65536 ->
  Forall (fun a => NLA_HDRLEN + blen (block_content get_ops opts_of a) < 65536)
         recs.
Proof.
  induction recs as [|a recs IH]; intros order H; constructor;
    cbn [chain_body] in H; rewrite blen_app, blen_enc_attr in H;
    pose proof (NLA_ALIGN_bounds
                  (NLA_HDRLEN + blen (block_content get_ops opts_of a)));
    pose proof (blen_nonneg (chain_body get_ops opts_of (order + 1) recs));
    pose proof (blen_nonneg (block_content get_ops opts_of a)).
  - unfold NLA_HDRLEN in *. lia.
  - apply (IH (order + 1)). unfold NLA_HDRLEN in *. lia.
Qed.

End RoundTrip.

(** * Further properties *)

(** ** The chain operations together *)

Lemma set_next_id (a : rtnl_act) (n : option loc) :
  a_next a = n -> set_next a n = a.
Proof. destruct a. simpl. intros <-. reflexivity. Qed.

Lemma set_next_set_next (a : rtnl_act) (n m : option loc) :
  set_next (set_next a n) m = set_next a m.
Proof. reflexivity. Qed.

(** The chain after an append to a non-empty chain. *)
Lemma append_links_tail (h : heap) head l1 z az x a :
  is_chain h head (l1 ++ [z]) -> h !! z = Some az -> h !! x = Some a ->
  a_next a = None -> x ∉ l1 ++ [z] ->
  is_chain (<[z := set_next az (Some x)]> h) head ((l1 ++ [z]) ++ [x]).
Proof.
  intros Hc Hz Hx Hn Hxl.
  pose proof (is_chain_NoDup _ _ _ Hc) as Hnd.
  apply NoDup_app in Hnd as (_ & Hdisj & _).
  assert (Hz1 : z ∉ l1).
  { intros Hin. apply (Hdisj z Hin). left. }
  assert (Hzx : z <> x).
  { intros ->. apply Hxl. apply elem_of_app. right. left. }
  apply is_chain_seg in Hc. apply is_seg_app in Hc as (m & Hs1 & Hs2).
  destruct Hs2 as (-> & _).
  apply is_chain_seg. rewrite <- app_assoc. apply is_seg_app.
  exists (Some z). split.
  - eapply is_seg_frame; [|exact Hs1]. intros y Hy.
    rewrite lookup_insert_ne; [reflexivity|]. intros ->. exact (Hz1 Hy).
  - simpl. split; [reflexivity|]. exists (set_next az (Some x)).
    split; [apply lookup_insert_eq|]. simpl. split; [reflexivity|].
    exists a. split; [|exact Hn].
    rewrite lookup_insert_ne by congruence. exact Hx.
Qed.

(** X1: on a chain of at most [TCA_ACT_MAX_PRIO] nodes, the empty chain
    included, [rtnl_act_append] returns 0 and the new action becomes the
    last node, behind the old nodes in their order; [*head] changes only
    if the chain was empty, and no field other than one [a_next] changes
    in the store. *)
Theorem rtnl_act_append_tail fuel (h : heap) head l x a :
  is_chain h head l ->
  Z.of_nat (length l) <= TCA_ACT_MAX_PRIO -> (length l <= fuel)%nat ->
  h !! x = Some a -> a_next a = None -> x ∉ l ->
  exists h' head',
    rtnl_act_append fuel h head (Some x) = Some (0, h', head') /\
    is_chain h' head' (l ++ [x]) /\
    (l <> [] -> head' = head) /\
    (forall y b, h !! y = Some b -> exists n, h' !! y = Some (set_next b n)).
Proof.
  intros Hc Hlen Hf Hx Hn Hxl.
  destruct l as [|p l0] eqn:El.
  - simpl in Hc. subst head. exists h, (Some x).
    split; [reflexivity|]. split; [|split].
    + simpl. split; [reflexivity|]. exists a. split; assumption.
    + congruence.
    + intros y b Hb. exists (a_next b). rewrite Hb. f_equal.
      symmetry. apply set_next_id. reflexivity.
  - rewrite <- El in *.
    destruct (rtnl_act_append_spec fuel h head l (Some x) Hc)
      as (z & az & Hlast & Haz & Hnz & Happ);
      [subst l; discriminate | exact Hlen | exact Hf |].
    apply last_Some in Hlast as (l1 & Hl1).
    exists (<[z := set_next az (Some x)]> h), head.
    split; [exact Happ|]. split; [|split].
    + rewrite Hl1 in *. eapply append_links_tail; eassumption.
    + reflexivity.
    + intros y b Hb. destruct (decide (y = z)) as [->|Hne].
      * exists (Some x). rewrite lookup_insert_eq. congruence.
      * exists (a_next b). rewrite lookup_insert_ne by congruence.
        rewrite Hb. f_equal. symmetry. apply set_next_id. reflexivity.
Qed.

Lemma rtnl_act_append_tail_witness :
  exists h' head',
    rtnl_act_append 8 sample_heap (Some 1%positive) (Some 3%positive)
      = Some (0, h', head') /\
    is_chain h' head' [1%positive; 2%positive; 3%positive].
Proof.
  destruct (rtnl_act_append_tail 8 sample_heap (Some 1%positive)
              [1%positive; 2%positive] 3%positive (mk_node None))
    as (h' & head' & Hr & Hc & _).
  - apply (chain_nodes_sound 8). vm_compute. reflexivity.
  - unfold TCA_ACT_MAX_PRIO. simpl. lia.
  - simpl. lia.
  - vm_compute. reflexivity.
  - reflexivity.
  - intros Hin. apply list_elem_of_In in Hin. simpl in Hin.
    destruct Hin as [E|[E|[]]]; discriminate E.
  - exists h', head'. split; [exact Hr | exact Hc].
Defined.

(** X2: on a chain of more than [TCA_ACT_MAX_PRIO] nodes
    [rtnl_act_append] returns [-NLE_RANGE] and leaves the store and
    [*head] as they were. *)
Theorem rtnl_act_append_over_max fuel (h : heap) head l new :
  is_chain h head l ->
  TCA_ACT_MAX_PRIO < Z.of_nat (length l) -> (length l <= fuel)%nat ->
  rtnl_act_append fuel h head new = Some (- NLE_RANGE, h, head).
Proof. intros Hc Hlen Hf. eapply rtnl_act_append_range; eassumption. Qed.

Lemma rtnl_act_append_over_max_witness :
  rtnl_act_append 64 (kind_chain 33 1%positive ∅) (Some 1%positive)
    (Some 40%positive)
  = Some (- NLE_RANGE, kind_chain 33 1%positive ∅, Some 1%positive).
Proof.
  apply (rtnl_act_append_over_max 64 _ _
           (Pos.of_nat <$> seq 1 33)).
  - apply (chain_nodes_sound 64). vm_compute. reflexivity.
  - vm_compute. reflexivity.
  - vm_compute. lia.
Defined.

(** X3: appending an action to a chain and removing it again gives back
    the store and [*head] as they were before the append. *)
Theorem rtnl_act_append_remove fuel (h : heap) head l x a :
  is_chain h head l ->
  Z.of_nat (length l) <= TCA_ACT_MAX_PRIO -> (length l <= fuel)%nat ->
  h !! x = Some a -> a_next a = None -> x ∉ l ->
  exists h1 head1,
    rtnl_act_append fuel h head (Some x) = Some (0, h1, head1) /\
    rtnl_act_remove fuel h1 head1 (Some x) = Some (0, h, head).
Proof.
  intros Hc Hlen Hf Hx Hn Hxl.
  destruct l as [|p l0] eqn:El.
  - simpl in Hc. subst head. exists h, (Some x).
    split; [reflexivity|].
    unfold rtnl_act_remove.
    assert (Hw : remove_walk fuel h SlotHead (Some x) (Some x)
                 = Some (SlotHead, Some x)).
    { destruct fuel; simpl; rewrite Pos.eqb_refl; reflexivity. }
    rewrite Hw, Hx. cbn [slot_write]. cbn iota. rewrite Hn, Hx.
    rewrite (set_next_id a None Hn). rewrite insert_id by exact Hx.
    reflexivity.
  - rewrite <- El in *.
    destruct (rtnl_act_append_spec fuel h head l (Some x) Hc)
      as (z & az & Hlast & Haz & Hnz & Happ);
      [subst l; discriminate | exact Hlen | exact Hf |].
    pose proof Hlast as Hlast'.
    apply last_Some in Hlast as (l1 & Hl1).
    assert (Hzx : z <> x).
    { intros ->. apply Hxl. rewrite Hl1. apply elem_of_app. right. left. }
    set (h1 := <[z := set_next az (Some x)]> h).
    exists h1, head. split; [exact Happ|].
    assert (Hc1 : is_chain h1 head (l ++ [x])).
    { rewrite Hl1 in *. eapply append_links_tail; eassumption. }
    apply is_chain_seg in Hc1. apply is_seg_app in Hc1 as (m & Hs1 & Hs2).
    destruct Hs2 as (-> & _).
    unfold rtnl_act_remove.
    rewrite (remove_walk_found fuel h1 SlotHead head l x Hs1 Hxl Hf).
    rewrite Hlast'.
    assert (Hx1 : h1 !! x = Some a).
    { unfold h1. rewrite lookup_insert_ne by congruence. exact Hx. }
    rewrite Hx1. simpl slot_write.
    assert (Hz1 : h1 !! z = Some (set_next az (Some x))).
    { unfold h1. apply lookup_insert_eq. }
    rewrite Hz1, Hn, set_next_set_next.
    rewrite lookup_insert_ne by congruence. rewrite Hx1.
    rewrite (set_next_id a None Hn), (set_next_id az None Hnz).
    unfold h1. rewrite insert_insert_eq.
    rewrite (insert_id h z az Haz). rewrite insert_id by exact Hx.
    reflexivity.
Qed.

Lemma rtnl_act_append_remove_witness :
  exists h1 head1,
    rtnl_act_append 8 sample_heap (Some 1%positive) (Some 3%positive)
      = Some (0, h1, head1) /\
    rtnl_act_remove 8 h1 head1 (Some 3%positive)
      = Some (0, sample_heap, Some 1%positive).
Proof.
  apply (rtnl_act_append_remove 8 sample_heap (Some 1%positive)
           [1%positive; 2%positive] 3%positive (mk_node None)).
  - apply (chain_nodes_sound 8). vm_compute. reflexivity.
  - unfold TCA_ACT_MAX_PRIO. simpl. lia.
  - simpl. lia.
  - vm_compute. reflexivity.
  - reflexivity.
  - intros Hin. apply list_elem_of_In in Hin. simpl in Hin.
    destruct Hin as [E|[E|[]]]; discriminate E.
Defined.

(** ** Building requests *)

(** X4: [act_build] hands back a message exactly when it returns 0; with
    a negative code nothing is stored in [*result], and no other code is
    returned. *)
Theorem act_build_all_or_nothing
    (get_ops : rtnl_act -> option rtnl_tc_ops) (msg_size : Z)
    (alloc_ok : bool) fuel (h : heap) act type flags err result :
  act_build get_ops msg_size alloc_ok fuel h act type flags
    = Some (err, result) ->
  (err = 0 /\ exists m, result = Some m) \/ (err < 0 /\ result = None).
Proof.
  unfold act_build, rtnl_act_msg_build, nlmsg_alloc_simple.
  destruct alloc_ok.
  - destruct (nlmsg_append _ _) as [m1|].
    + destruct (rtnl_act_fill _ _ _ _ _ _) as [[e m2]|]; [|discriminate].
      destruct (Z.ltb_spec e 0) as [Hneg|Hpos].
      * cbn iota. destruct (Z.ltb_spec e 0); [|lia].
        intros [= <- <-]. right. split; [exact Hneg | reflexivity].
      * cbn iota. change (0 <? 0) with false. cbn iota.
        intros [= <- <-]. left. split; [reflexivity | eexists; reflexivity].
    + change (- NLE_MSGSIZE <? 0) with true. cbn iota.
      intros [= <- <-]. right. split; [reflexivity | reflexivity].
  - change (- NLE_NOMEM <? 0) with true. cbn iota.
    intros [= <- <-]. right. split; reflexivity.
Qed.

Lemma act_build_all_or_nothing_witness :
  (- NLE_NOMEM = 0 /\ exists m, @None nl_msg = Some m) \/
  (- NLE_NOMEM < 0 /\ @None nl_msg = None).
Proof.
  apply (act_build_all_or_nothing no_ops 4096 false 8 sample_heap
           (Some 1%positive) RTM_NEWACTION 0 (- NLE_NOMEM) None).
  reflexivity.
Defined.

Lemma act_build_spec
    (get_ops : rtnl_act -> option rtnl_tc_ops)
    (opts_of : rtnl_act -> list byte) (msg_size : Z) (alloc_ok : bool)
    fuel (h : heap) act l recs type flags m :
  registry_fills get_ops opts_of ->
  is_chain h act l -> Forall2 (fun x a => h !! x = Some a) l recs ->
  Forall (fun a => has_mask a TCA_ATTR_KIND = true) recs ->
  act_build get_ops msg_size alloc_ok fuel h act type flags
    = Some (0, Some m) ->
  m = mk_msg type flags
        (tcamsg_bytes AF_UNSPEC
           ++ enc_attr TCA_ACT_TAB (chain_body get_ops opts_of 0 recs))
        msg_size.
Proof.
  intros Hreg Hc Hrecs Hk.
  unfold act_build, rtnl_act_msg_build, nlmsg_alloc_simple.
  destruct alloc_ok; [|discriminate].
  unfold nlmsg_append.
  destruct (_ <? _); [discriminate|].
  set (m1 := msg_with_payload _ _).
  destruct (rtnl_act_fill get_ops fuel h m1 TCA_ACT_TAB act)
    as [[e m2]|] eqn:E2; [|discriminate].
  destruct (Z.ltb_spec e 0) as [Hneg|Hpos].
  - cbn iota. destruct (Z.ltb_spec e 0); [|lia]. intros Habs. discriminate Habs.
  - cbn iota. change (0 <? 0) with false. cbn iota. intros [= <-].
    apply (rtnl_act_fill_spec get_ops opts_of Hreg fuel h m1 TCA_ACT_TAB act
             l recs e m2 Hc Hrecs Hk) in E2.
    + subst m2. reflexivity.
    + exists 1. reflexivity.
    + exact Hpos.
Qed.

Lemma p_registry_fills : registry_fills p_registry p_opts_of.
Proof.
  intros tc ops H. unfold p_registry in H.
  destruct (tc_kind tc) as [|b [|]]; try discriminate H.
  destruct (Byte.eqb b x50); [|discriminate H].
  injection H as <-. split.
  - intros f [= <-] m Hal Hpos. unfold p_msg_fill in *.
    destruct (nla_put m TCA_P_PARMS (tc_subdata tc)) as [m'|] eqn:E.
    + apply nla_put_spec in E; [|exact Hal]. subst m'. reflexivity.
    + cbn [fst] in Hpos. unfold NLE_NOMEM in Hpos. lia.
  - discriminate.
Defined.

(** X5: the message of a successful [act_build] for a chain of actions
    with kinds has the type and flags asked for, and after the netlink
    header it holds the four bytes of [struct tcamsg] with family
    [AF_UNSPEC] and then one [TCA_ACT_TAB] attribute with the nests of
    the actions, numbered from 1 in chain order; this for a registry
    whose structured fill operations append their bytes to a message
    that ends on a 4-byte boundary, as those written with [nla_put] do,
    and in which no kind has a raw fill operation only. *)
Theorem act_build_layout
    (get_ops : rtnl_act -> option rtnl_tc_ops)
    (opts_of : rtnl_act -> list byte) (msg_size : Z) (alloc_ok : bool)
    fuel (h : heap) act l recs type flags m :
  registry_fills get_ops opts_of ->
  is_chain h act l -> Forall2 (fun x a => h !! x = Some a) l recs ->
  Forall (fun a => has_mask a TCA_ATTR_KIND = true) recs ->
  act_build get_ops msg_size alloc_ok fuel h act type flags
    = Some (0, Some m) ->
  m = mk_msg type flags
        (tcamsg_bytes AF_UNSPEC
           ++ enc_attr TCA_ACT_TAB (chain_body get_ops opts_of 0 recs))
        msg_size.
Proof.
  intros Hreg Hc Hrecs Hk Hb.
  eapply act_build_spec; eassumption.
Qed.

Lemma act_build_layout_witness :
  exists m,
    act_build p_registry 4096 true 8 sample_PB_heap (Some 1%positive)
      RTM_NEWACTION 1024 = Some (0, Some m) /\
    m = mk_msg RTM_NEWACTION 1024
          (tcamsg_bytes AF_UNSPEC
             ++ enc_attr TCA_ACT_TAB
                  (chain_body p_registry p_opts_of 0
                     [sample_act_P; sample_act_B]))
          4096.
Proof.
  eexists. split; [vm_compute; reflexivity|].
  apply (act_build_layout p_registry p_opts_of 4096 true 8
           sample_PB_heap (Some 1%positive) [1%positive; 2%positive]
           [sample_act_P; sample_act_B] RTM_NEWACTION 1024 _
           p_registry_fills).
  - apply (chain_nodes_sound 8). vm_compute. reflexivity.
  - repeat constructor.
  - repeat constructor.
  - vm_compute. reflexivity.
Defined.

Lemma nla_nest_start_room (m : nl_msg) (t : Z) :
  aligned (nm_payload m) ->
  nla_nest_start m t
    = if nm_size m <? nlmsg_len m + NLA_HDRLEN then None
      else Some (msg_with_payload m (nm_payload m ++ enc_attr t []),
                 blen (nm_payload m)).
Proof.
  intros Hal.
  destruct (nla_nest_start m t) as [[m1 nest]|] eqn:E.
  - pose proof E as E'. apply nla_nest_start_spec in E' as [-> ->];
      [|exact Hal].
    unfold nla_nest_start, nla_put in E.
    rewrite (msg_pad_aligned m Hal) in E.
    replace (NLMSG_ALIGN (nlmsg_len m)) with (nlmsg_len m) in E
      by (pose proof (msg_pad_aligned m Hal); lia).
    change (NLA_ALIGN (NLA_HDRLEN + blen [])) with NLA_HDRLEN in E.
    destruct (nm_size m <? nlmsg_len m + NLA_HDRLEN); [discriminate E|].
    reflexivity.
  - unfold nla_nest_start, nla_put in E.
    replace (NLMSG_ALIGN (nlmsg_len m)) with (nlmsg_len m) in E
      by (pose proof (msg_pad_aligned m Hal); lia).
    change (NLA_ALIGN (NLA_HDRLEN + blen [])) with NLA_HDRLEN in E.
    destruct (nm_size m <? nlmsg_len m + NLA_HDRLEN); [reflexivity|].
    discriminate E.
Qed.

(** X6: for an empty chain [rtnl_act_fill] writes a container attribute
    without content and returns 0 when four more bytes fit the message;
    otherwise it returns [-NLE_MSGSIZE] and writes nothing. *)
Theorem rtnl_act_fill_empty_chain
    (get_ops : rtnl_act -> option rtnl_tc_ops) fuel (h : heap)
    (m : nl_msg) (t : Z) :
  aligned (nm_payload m) ->
  rtnl_act_fill get_ops fuel h m t None
    = if nm_size m <? nlmsg_len m + NLA_HDRLEN
      then Some (- NLE_MSGSIZE, m)
      else Some (0, msg_with_payload m (nm_payload m ++ enc_attr t [])).
Proof.
  intros Hal. unfold rtnl_act_fill. rewrite (nla_nest_start_room m t Hal).
  destruct (nm_size m <? nlmsg_len m + NLA_HDRLEN); [reflexivity|].
  assert (Hw : forall m1, fill_walk get_ops fuel h m1 None 0 = Some (0, m1)).
  { intros m1. destruct fuel; reflexivity. }
  rewrite Hw. change (0 <? 0) with false. cbn iota. f_equal. f_equal.
  rewrite (nla_nest_end_spec _ (nm_payload m) [] t Hal).
  - reflexivity.
  - cbn [nm_payload msg_with_payload]. rewrite app_nil_r. reflexivity.
Qed.

Lemma rtnl_act_fill_empty_chain_witness :
  rtnl_act_fill no_ops 8 ∅ empty_msg TCA_ACT_TAB None
    = Some (0, msg_with_payload empty_msg (enc_attr TCA_ACT_TAB [])).
Proof.
  rewrite (rtnl_act_fill_empty_chain no_ops 8 ∅ empty_msg TCA_ACT_TAB
             aligned_nil).
  reflexivity.
Defined.

(** X7: when the container header still fits the message but the nest of
    the first action does not, [rtnl_act_fill] returns [-NLE_NOMEM], not
    [-NLE_MSGSIZE], and leaves the container header in the message. *)
Theorem rtnl_act_fill_nest_no_room
    (get_ops : rtnl_act -> option rtnl_tc_ops) fuel (h : heap)
    (m : nl_msg) (t : Z) (x : loc) (a : rtnl_act) :
  aligned (nm_payload m) -> h !! x = Some a -> (1 <= fuel)%nat ->
  nlmsg_len m + NLA_HDRLEN <= nm_size m < nlmsg_len m + 2 * NLA_HDRLEN ->
  rtnl_act_fill get_ops fuel h m t (Some x)
    = Some (- NLE_NOMEM,
            msg_with_payload m (nm_payload m ++ enc_attr t [])).
Proof.
  intros Hal Hx Hf Hsz. unfold rtnl_act_fill.
  rewrite (nla_nest_start_room m t Hal).
  destruct (Z.ltb_spec (nm_size m) (nlmsg_len m + NLA_HDRLEN)); [lia|].
  destruct fuel as [|f]; [lia|]. cbn [fill_walk]. rewrite Hx.
  set (m1 := msg_with_payload m (nm_payload m ++ enc_attr t [])).
  assert (Hal1 : aligned (nm_payload m1)).
  { unfold m1. cbn [nm_payload msg_with_payload]. solve_aligned. }
  unfold rtnl_act_fill_one. rewrite (nla_nest_start_room m1 _ Hal1).
  assert (Hlen1 : nlmsg_len m1 = nlmsg_len m + NLA_HDRLEN).
  { unfold m1, nlmsg_len. cbn [nm_payload msg_with_payload].
    rewrite blen_app, blen_enc_attr_nil. unfold NLA_HDRLEN. lia. }
  change (nm_size m1) with (nm_size m). rewrite Hlen1.
  destruct (Z.ltb_spec (nm_size m) (nlmsg_len m + NLA_HDRLEN + NLA_HDRLEN));
    [|lia].
  change (- NLE_NOMEM <? 0) with true. cbn iota. reflexivity.
Qed.

Lemma rtnl_act_fill_nest_no_room_witness :
  rtnl_act_fill no_ops 8 sample_heap (mk_msg 0 0 [] 20) TCA_ACT_TAB
    (Some 1%positive)
  = Some (- NLE_NOMEM, mk_msg 0 0 (enc_attr TCA_ACT_TAB []) 20).
Proof.
  apply (rtnl_act_fill_nest_no_room no_ops 8 sample_heap (mk_msg 0 0 [] 20)
           TCA_ACT_TAB 1%positive (mk_node (Some 2%positive)) aligned_nil).
  - vm_compute. reflexivity.
  - lia.
  - vm_compute. split; [discriminate | reflexivity].
Defined.

(** ** Sending requests *)

(** X8: [rtnl_act_add], [rtnl_act_change] and [rtnl_act_delete] either
    return a negative code without sending, or send exactly one message
    and return the answer to it; the message has the type
    [RTM_NEWACTION], [RTM_NEWACTION] and [RTM_DELACTION], and the
    caller's flags, to which [rtnl_act_change] adds [NLM_F_REPLACE]. *)
Theorem requests_send_one_or_fail
    (get_ops : rtnl_act -> option rtnl_tc_ops) (msg_size : Z)
    (alloc_ok : bool) (ack : nl_msg -> Z) fuel (h : heap)
    (sk : list nl_msg) act flags :
  registry_keeps_header get_ops ->
  (forall r, rtnl_act_add get_ops msg_size alloc_ok ack fuel h sk act flags
               = Some r ->
     sends_one_or_fails ack RTM_NEWACTION flags sk r) /\
  (forall r, rtnl_act_change get_ops msg_size alloc_ok ack fuel h sk act flags
               = Some r ->
     sends_one_or_fails ack RTM_NEWACTION (Z.lor NLM_F_REPLACE flags) sk r) /\
  (forall r, rtnl_act_delete get_ops msg_size alloc_ok ack fuel h sk act flags
               = Some r ->
     sends_one_or_fails ack RTM_DELACTION flags sk r).
Proof.
  intros Hreg.
  assert (Hgen : forall type fl r,
    send_built ack sk (act_build get_ops msg_size alloc_ok fuel h act type fl)
      = Some r ->
    sends_one_or_fails ack type fl sk r).
  { intros type fl r. unfold send_built.
    destruct (act_build get_ops msg_size alloc_ok fuel h act type fl)
      as [[err result]|] eqn:E; [|discriminate].
    destruct (Z.ltb_spec err 0) as [Hneg|Hpos].
    - intros [= <-]. left. split; [exact Hneg | reflexivity].
    - destruct result as [m|]; [|discriminate].
      intros [= <-]. right. exists m.
      destruct (act_build_header get_ops msg_size alloc_ok Hreg _ _ _ _ _ _ _ E)
        as [Ht Hfl].
      repeat split; assumption. }
  split; [|split]; intros r; apply Hgen.
Qed.

Lemma requests_send_one_or_fail_witness :
  exists m,
    rtnl_act_change no_ops 4096 true (fun _ => 0) 8 sample_heap []
      (Some 1%positive) 1024 = Some (0, [m]) /\
    nlmsg_type m = RTM_NEWACTION /\ nlmsg_flags m = 1280.
Proof.
  destruct (requests_send_one_or_fail no_ops 4096 true (fun _ => 0) 8
              sample_heap [] (Some 1%positive) 1024 no_ops_keeps_header)
    as (_ & Hc & _).
  eexists. split; [vm_compute; reflexivity|].
  destruct (Hc _ ltac:(vm_compute; reflexivity)) as [[Hneg _]|(m & Hm & _ & Ht & Hf)].
  - vm_compute in Hneg. discriminate Hneg.
  - simpl in Hm. injection Hm as <-. split; [exact Ht | exact Hf].
Defined.

(** ** Parsing a container *)

Lemma rtnl_act_parse_as_seq
    (get_ops : rtnl_act -> option rtnl_tc_ops)
    (get_data : rtnl_act -> option (list byte)) fuel st head tb :
  rtnl_act_parse get_ops get_data fuel st head tb
    = match parse_seq get_ops get_data fuel st None
              (slots (container_blocks tb) 0 (Z.to_nat TCA_ACT_MAX_PRIO)) with
      | None => None
      | Some (err1, st1, tmp_head) =>
        if err1 <? 0 then
          match nl_auto_rtnl_act_all fuel st1 tmp_head with
          | Some st2 => Some (err1, st2, head)
          | None => None
          end
        else Some (0, st1, tmp_head)
      end.
Proof.
  unfold rtnl_act_parse.
  assert (Enla : nla_parse TCA_ACT_MAX_PRIO (nla_data tb)
                   (NLMSG_ALIGN (nla_len tb)) None
                 = (0, container_blocks tb)) by reflexivity.
  rewrite Enla. change (0 <? 0) with false. cbn iota.
  rewrite parse_loop_slots. reflexivity.
Qed.

Lemma visited_blocks_eq (tb : nlattr) :
  visited_blocks tb
    = omap id (slots (container_blocks tb) 0 (Z.to_nat TCA_ACT_MAX_PRIO)).
Proof. unfold visited_blocks. reflexivity. Qed.

Lemma parse_seq_none
    (get_ops : rtnl_act -> option rtnl_tc_ops)
    (get_data : rtnl_act -> option (list byte)) fuel st th
    (s : list (option nlattr)) :
  omap id s = [] -> parse_seq get_ops get_data fuel st th s = Some (0, st, th).
Proof.
  induction s as [|[b|] s IH]; intros H.
  - reflexivity.
  - rewrite omap_id_some in H. discriminate H.
  - rewrite omap_id_none in H. cbn [parse_seq]. apply IH. exact H.
Qed.

Lemma parse_seq_first
    (get_ops : rtnl_act -> option rtnl_tc_ops)
    (get_data : rtnl_act -> option (list byte)) fuel st th
    (s : list (option nlattr)) (b : nlattr) (rest : list nlattr) :
  omap id s = b :: rest ->
  exists s', omap id s' = rest /\
    parse_seq get_ops get_data fuel st th s
      = match parse_one get_ops get_data fuel st th b with
        | None => None
        | Some (err, st1, th1) =>
          if err <? 0 then Some (err, st1, th1)
          else parse_seq get_ops get_data fuel st1 th1 s'
        end.
Proof.
  induction s as [|[c|] s IH]; intros H.
  - discriminate H.
  - rewrite omap_id_some in H. injection H as -> H.
    exists s. split; [exact H | reflexivity].
  - rewrite omap_id_none in H. destruct (IH H) as (s' & Hs' & Hp).
    exists s'. split; [exact Hs' | exact Hp].
Qed.

(** The iteration of the loop on the first block it visits: [tmp_head]
    is still [NULL], so nothing is read but the entity just allocated,
    whose one reference is released when the scope of [act] is left. *)
Lemma parse_one_first
    (get_ops : rtnl_act -> option rtnl_tc_ops)
    (get_data : rtnl_act -> option (list byte)) fuel st (b : nlattr)
    (n : nat) :
  st_avail st = S n ->
  parse_one get_ops get_data fuel st None b
    = let r := parse_fields get_ops get_data act_zero b n in
      Some (if r.1.1 <? 0 then r.1.1 else 0,
            mk_state (<[st_next st := set_refcnt r.1.2 0]> (st_heap st))
                     (Pos.succ (st_next st)) r.2
                     (st_log st ++ [st_next st]),
            if r.1.1 <? 0 then None else Some (st_next st)).
Proof.
  intros Hav. unfold parse_one, rtnl_act_alloc. rewrite Hav.
  cbn [st_avail st_heap st_next st_log].
  pose proof (parse_fields_links get_ops get_data act_zero b n) as [_ Hrc].
  destruct (parse_fields get_ops get_data act_zero b n) as [[err tc] av].
  cbn [fst snd] in *. change (ce_refcnt act_zero) with 1 in Hrc.
  unfold nl_auto_rtnl_act, st_put, rtnl_act_put, nl_object_put,
    rtnl_act_append.
  cbn [st_avail st_heap st_next st_log].
  destruct (err <? 0); cbn [st_avail st_heap st_next st_log];
    rewrite lookup_insert_eq; cbn [st_avail st_heap st_next st_log];
    rewrite !insert_insert_eq, Hrc; reflexivity.
Qed.

Lemma put_all_none fuel (st : state) :
  nl_auto_rtnl_act_all fuel st None = Some st.
Proof.
  unfold nl_auto_rtnl_act_all, st_put_all, rtnl_act_put_all.
  destruct fuel; destruct st; reflexivity.
Qed.

(** [rtnl_act_parse] when the first block it visits is rejected. *)
Lemma rtnl_act_parse_first_rejected
    (get_ops : rtnl_act -> option rtnl_tc_ops)
    (get_data : rtnl_act -> option (list byte)) fuel st head (tb : nlattr)
    (b : nlattr) (rest : list nlattr) (n : nat) :
  visited_blocks tb = b :: rest -> st_avail st = S n ->
  (parse_fields get_ops get_data act_zero b n).1.1 < 0 ->
  rtnl_act_parse get_ops get_data fuel st head tb
    = let r := parse_fields get_ops get_data act_zero b n in
      Some (r.1.1,
            mk_state (<[st_next st := set_refcnt r.1.2 0]> (st_heap st))
                     (Pos.succ (st_next st)) r.2
                     (st_log st ++ [st_next st]),
            head).
Proof.
  intros Hvis Hav Herr. rewrite visited_blocks_eq in Hvis.
  rewrite rtnl_act_parse_as_seq.
  destruct (parse_seq_first get_ops get_data fuel st None _ b rest Hvis)
    as (s' & _ & ->).
  rewrite (parse_one_first get_ops get_data fuel st b n Hav).
  cbv zeta.
  assert (E : ((parse_fields get_ops get_data act_zero b n).1.1 <? 0) = true)
    by (apply Z.ltb_lt; exact Herr).
  rewrite !E. cbn iota. rewrite put_all_none. rewrite ?E. reflexivity.
Qed.

(** [rtnl_act_parse] when it visits one block and accepts it. *)
Lemma rtnl_act_parse_single_accepted
    (get_ops : rtnl_act -> option rtnl_tc_ops)
    (get_data : rtnl_act -> option (list byte)) fuel st head (tb : nlattr)
    (b : nlattr) (n : nat) :
  visited_blocks tb = [b] -> st_avail st = S n ->
  0 <= (parse_fields get_ops get_data act_zero b n).1.1 ->
  rtnl_act_parse get_ops get_data fuel st head tb
    = let r := parse_fields get_ops get_data act_zero b n in
      Some (0,
            mk_state (<[st_next st := set_refcnt r.1.2 0]> (st_heap st))
                     (Pos.succ (st_next st)) r.2
                     (st_log st ++ [st_next st]),
            Some (st_next st)).
Proof.
  intros Hvis Hav Herr. rewrite visited_blocks_eq in Hvis.
  rewrite rtnl_act_parse_as_seq.
  destruct (parse_seq_first get_ops get_data fuel st None _ b [] Hvis)
    as (s' & Hs' & ->).
  rewrite (parse_one_first get_ops get_data fuel st b n Hav).
  cbv zeta.
  assert (E : ((parse_fields get_ops get_data act_zero b n).1.1 <? 0) = false)
    by (apply Z.ltb_ge; exact Herr).
  rewrite !E. cbn iota. change (0 <? 0) with false. cbn iota.
  rewrite (parse_seq_none get_ops get_data fuel _ _ s' Hs').
  change (0 <? 0) with false. cbn iota. reflexivity.
Qed.

(** With an allocation left for the options, the loop body gives the
    error and the entity of [decode_err] and [decode_act]. *)
Lemma parse_fields_decode
    (get_ops : rtnl_act -> option rtnl_tc_ops)
    (get_data : rtnl_act -> option (list byte)) (b : nlattr) (n : nat) :
  (parse_fields get_ops get_data act_zero b (S n)).1
    = (decode_err get_ops get_data b, decode_act get_ops get_data b).
Proof.
  destruct (parse_fields_avail get_ops get_data act_zero b n) as [E _].
  rewrite E. unfold decode_err, decode_act.
  destruct (parse_fields get_ops get_data act_zero b 1) as [[e t] a].
  reflexivity.
Qed.




(** X9: when the block at the lowest index present below 32 is rejected
    by the loop body, [rtnl_act_parse] returns the error of that block,
    whatever the blocks at higher indices hold and wherever the block
    stands in the bytes; it does not write [*head], it leaves every
    object that existed as it was, and the one entity that it constructed
    is released once. *)
Theorem rtnl_act_parse_first_error
    (get_ops : rtnl_act -> option rtnl_tc_ops)
    (get_data : rtnl_act -> option (list byte))
    fuel st head (tb : nlattr) (b : nlattr) (rest : list nlattr) :
  visited_blocks tb = b :: rest ->
  decode_err get_ops get_data b < 0 ->
  (2 <= st_avail st)%nat ->
  exists st',
    rtnl_act_parse get_ops get_data fuel st head tb
      = Some (decode_err get_ops get_data b, st', head) /\
    st_log st' = st_log st ++ [st_next st] /\
    ce_refcnt <$> (st_heap st' !! st_next st) = Some 0 /\
    (forall y, y <> st_next st -> st_heap st' !! y = st_heap st !! y).
Proof.
  intros Hvis Herr Hav.
  destruct (st_avail st) as [|[|n]] eqn:Eav; [lia | lia |].
  pose proof (parse_fields_decode get_ops get_data b n) as Hpf.
  rewrite (rtnl_act_parse_first_rejected get_ops get_data fuel st head tb b
             rest (S n) Hvis Eav); [|rewrite Hpf; exact Herr].
  cbv zeta. rewrite Hpf. cbn [fst snd].
  eexists. split; [reflexivity|]. cbn [st_heap st_log].
  split; [reflexivity|]. split.
  - rewrite lookup_insert_eq. reflexivity.
  - intros y Hy. apply lookup_insert_ne. congruence.
Qed.

Lemma rtnl_act_parse_first_error_witness :
  exists st',
    rtnl_act_parse no_ops no_data 64 (empty_state 8) (Some 5%positive)
      container_error_first
      = Some (- NLE_RANGE, st', Some 5%positive) /\
    st_log st' = st_log (empty_state 8) ++ [st_next (empty_state 8)] /\
    ce_refcnt <$> (st_heap st' !! st_next (empty_state 8)) = Some 0 /\
    (forall y, y <> st_next (empty_state 8) ->
       st_heap st' !! y = st_heap (empty_state 8) !! y).
Proof.
  destruct (visited_blocks container_error_first) as [|b rest] eqn:E;
    [vm_compute in E; discriminate E|].
  assert (Hb : decode_err no_ops no_data b = - NLE_RANGE).
  { vm_compute in E. injection E as <- _. vm_compute. reflexivity. }
  rewrite <- Hb.
  apply (rtnl_act_parse_first_error no_ops no_data 64 (empty_state 8)
           (Some 5%positive) container_error_first b rest E).
  - rewrite Hb. vm_compute. reflexivity.
  - simpl. lia.
Defined.

(** X20: when the loop of [rtnl_act_parse] visits one block and accepts
    it, the call returns 0 and stores in [*head] the entity made of the
    block, but holds no reference for it: the entity was allocated with
    one reference, and this reference is released when the scope of
    [act] is left at the end of the iteration, the pointer not having
    been moved out.  The caller receives an object that is destroyed. *)
Theorem rtnl_act_parse_result_released
    (get_ops : rtnl_act -> option rtnl_tc_ops)
    (get_data : rtnl_act -> option (list byte))
    fuel st head (tb : nlattr) (b : nlattr) :
  visited_blocks tb = [b] ->
  0 <= decode_err get_ops get_data b ->
  (2 <= st_avail st)%nat ->
  exists st',
    rtnl_act_parse get_ops get_data fuel st head tb
      = Some (0, st', Some (st_next st)) /\
    st_heap st'
      = <[st_next st := set_refcnt (decode_act get_ops get_data b) 0]>
          (st_heap st) /\
    st_log st' = st_log st ++ [st_next st].
Proof.
  intros Hvis Herr Hav.
  destruct (st_avail st) as [|[|n]] eqn:Eav; [lia | lia |].
  pose proof (parse_fields_decode get_ops get_data b n) as Hpf.
  rewrite (rtnl_act_parse_single_accepted get_ops get_data fuel st head tb b
             (S n) Hvis Eav); [|rewrite Hpf; exact Herr].
  cbv zeta. rewrite Hpf. cbn [fst snd].
  eexists. split; [reflexivity|]. cbn [st_heap st_log].
  split; reflexivity.
Qed.

Lemma rtnl_act_parse_result_released_witness :
  exists st',
    rtnl_act_parse no_ops no_data 64 (empty_state 8) None container_single
      = Some (0, st', Some (st_next (empty_state 8))) /\
    st_heap st'
      = <[st_next (empty_state 8) :=
            set_refcnt (kind_node [x41] None) 0]> (st_heap (empty_state 8)) /\
    st_log st' = st_log (empty_state 8) ++ [st_next (empty_state 8)].
Proof.
  destruct (visited_blocks container_single) as [|b rest] eqn:E;
    [vm_compute in E; discriminate E|].
  assert (Hr : rest = []) by (vm_compute in E; congruence).
  subst rest.
  assert (Hb : decode_act no_ops no_data b = kind_node [x41] None).
  { vm_compute in E. injection E as <-. vm_compute. reflexivity. }
  rewrite <- Hb.
  apply (rtnl_act_parse_result_released no_ops no_data 64 (empty_state 8)
           None container_single b E).
  - vm_compute in E. injection E as <-. vm_compute. discriminate.
  - simpl. lia.
Defined.

(** C1: building and parsing does not give the chain back.  For a chain
    of one action of kind "A" the build succeeds and the parse of the
    container returns 0 with an entity of kind "A" in [*head], but the
    one reference of this entity has been released by the parse itself:
    the caller receives a destroyed object.  For a chain of 32 actions
    the container holds 32 blocks, the last one at index 32, and the loop
    of the parse visits 31 of them. *)
Theorem build_parse_loses_chain :
  match built_container 1 with
  | Some tab =>
    match rtnl_act_parse no_ops no_data 64 (empty_state 64) None tab with
    | Some (err, st, head) =>
      err = 0 /\ head = Some 1%positive /\
      st_field tc_kind st 1%positive = Some [x41] /\
      st_log st = [1%positive] /\
      st_field ce_refcnt st 1%positive = Some 0
    | None => False
    end
  | None => False
  end /\
  match built_container 32 with
  | Some tab =>
    length (container_blocks tab) = 32%nat /\
    nla_type <$> tb_get (container_blocks tab) 32 = Some 32 /\
    length (visited_blocks tab) = 31%nat
  | None => False
  end.
Proof. vm_compute. repeat split; reflexivity. Qed.

(** X10: when the loop finds no block at the indices it visits (an empty
    container, or one with indices from 32 on only), [rtnl_act_parse]
    returns 0, allocates and releases nothing, and sets [*head] to
    [NULL] whatever it held. *)
Theorem rtnl_act_parse_no_blocks
    (get_ops : rtnl_act -> option rtnl_tc_ops)
    (get_data : rtnl_act -> option (list byte))
    fuel st head (tb : nlattr) :
  visited_blocks tb = [] ->
  rtnl_act_parse get_ops get_data fuel st head tb = Some (0, st, None).
Proof.
  intros H. rewrite visited_blocks_eq in H. rewrite rtnl_act_parse_as_seq.
  rewrite (parse_seq_none get_ops get_data fuel st None _ H).
  change (0 <? 0) with false. cbn iota. reflexivity.
Qed.

Lemma rtnl_act_parse_no_blocks_witness :
  rtnl_act_parse no_ops no_data 64 (empty_state 8) (Some 5%positive)
    (mk_container (enc_attr 32 kind_A))
  = Some (0, empty_state 8, None).
Proof.
  apply rtnl_act_parse_no_blocks. vm_compute. reflexivity.
Defined.

Lemma parse_seq_nomem
    (get_ops : rtnl_act -> option rtnl_tc_ops)
    (get_data : rtnl_act -> option (list byte)) fuel st
    (s : list (option nlattr)) :
  st_avail st = O -> omap id s <> [] ->
  parse_seq get_ops get_data fuel st None s = Some (- NLE_NOMEM, st, None).
Proof.
  intros Hav. induction s as [|[b|] s IH]; intros H.
  - contradiction.
  - cbn [parse_seq]. unfold parse_one, rtnl_act_alloc. rewrite Hav.
    reflexivity.
  - rewrite omap_id_none in H. cbn [parse_seq]. apply IH. exact H.
Qed.

(** X11: when no memory is left and the loop finds a block,
    [rtnl_act_parse] returns [-NLE_NOMEM] and leaves the state and
    [*head] as they were. *)
Theorem rtnl_act_parse_nomem
    (get_ops : rtnl_act -> option rtnl_tc_ops)
    (get_data : rtnl_act -> option (list byte))
    fuel st head (tb : nlattr) :
  st_avail st = O -> visited_blocks tb <> [] ->
  rtnl_act_parse get_ops get_data fuel st head tb
    = Some (- NLE_NOMEM, st, head).
Proof.
  intros Hav H. rewrite visited_blocks_eq in H.
  rewrite rtnl_act_parse_as_seq.
  rewrite (parse_seq_nomem get_ops get_data fuel st _ Hav H).
  change (- NLE_NOMEM <? 0) with true. cbn iota.
  unfold nl_auto_rtnl_act_all, st_put_all, rtnl_act_put_all.
  destruct fuel; destruct st; reflexivity.
Qed.

Lemma rtnl_act_parse_nomem_witness :
  rtnl_act_parse no_ops no_data 64 (empty_state 0) (Some 5%positive)
    container_sparse
  = Some (- NLE_NOMEM, empty_state 0, Some 5%positive).
Proof.
  apply rtnl_act_parse_nomem; [reflexivity|]. vm_compute. discriminate.
Defined.

(** ** The entity made of a block *)

Lemma parse_stats_keeps tc tb3 :
  tc_kind (parse_stats tc tb3) = tc_kind tc /\
  tc_opts (parse_stats tc tb3) = tc_opts tc /\
  ce_mask (parse_stats tc tb3) = ce_mask tc.
Proof. unfold parse_stats. repeat case_match; repeat split; reflexivity. Qed.

Lemma decode_ok_fields
    (get_ops : rtnl_act -> option rtnl_tc_ops)
    (get_data : rtnl_act -> option (list byte)) (b : nlattr) :
  0 <= decode_err get_ops get_data b ->
  exists k,
    tb_get (block_attrs_of b) TCA_ACT_KIND = Some k /\
    tc_kind (decode_act get_ops get_data b) = nla_strlcpy k TCKINDSIZ /\
    tc_opts (decode_act get_ops get_data b)
      = nl_data_of_attr <$> tb_get (block_attrs_of b) TCA_ACT_OPTIONS /\
    ce_mask (decode_act get_ops get_data b)
      = match tb_get (block_attrs_of b) TCA_ACT_OPTIONS with
        | Some _ => Z.lor TCA_ATTR_KIND TCA_ATTR_OPTS
        | None => TCA_ATTR_KIND
        end.
Proof.
  unfold decode_err, decode_act, parse_fields, block_attrs_of.
  destruct (nla_parse TCA_ACT_MAX (nla_data b) (nla_len b) None)
    as [z tb2]. cbn [snd].
  destruct (tb_get tb2 TCA_ACT_KIND) as [k|];
    destruct (tb_get tb2 TCA_ACT_OPTIONS) as [o|];
  repeat case_match; simplify_eq; cbn [fst snd fmap option_fmap option_map];
    try (unfold NLE_MISSING_ATTR, NLE_NOMEM; lia);
    intros Hge; try lia;
    eexists; (split; [reflexivity|]);
    cbn [tc_kind tc_opts ce_mask set_subdata];
    repeat match goal with
    | |- context [parse_stats ?t ?l] =>
      destruct (parse_stats_keeps t l) as (-> & -> & ->)
    end;
    repeat split; reflexivity.
Qed.

Lemma until_nul_spec (l : list byte) :
  Forall (fun b => b <> x00) (until_nul l) /\
  (length (until_nul l) <= length l)%nat.
Proof.
  induction l as [|b l [IH1 IH2]]; simpl.
  - split; [constructor | lia].
  - destruct (Byte.eqb b x00) eqn:E.
    + split; [constructor | simpl; lia].
    + split; [|simpl; lia]. constructor; [|exact IH1].
      intros ->. discriminate E.
Qed.

Lemma blen_until_nul_take (n : Z) (src : list byte) :
  n <= 31 -> blen (until_nul (btake n src)) < 32.
Proof.
  intros Hn. destruct (until_nul_spec (btake n src)) as [_ Hl].
  assert (Ht : (length (btake n src) <= Z.to_nat n)%nat).
  { unfold btake. rewrite length_take. apply Nat.le_min_l. }
  unfold blen. lia.
Qed.

Lemma nla_strlcpy_kind_ok (a : nlattr) : kind_ok (nla_strlcpy a TCKINDSIZ).
Proof.
  unfold nla_strlcpy, kind_ok. split.
  - apply until_nul_spec.
  - apply blen_until_nul_take. unfold TCKINDSIZ. lia.
Qed.

(** X12: an entity that the loop body of [rtnl_act_parse] completes has
    the kind bit set and a kind that fits [tc_kind] (fewer than
    [TCKINDSIZ] bytes, none of them 0), whatever the length of the
    [TCA_ACT_KIND] attribute; it holds one reference and is not linked
    yet. *)
Theorem parsed_entity_kind
    (get_ops : rtnl_act -> option rtnl_tc_ops)
    (get_data : rtnl_act -> option (list byte)) (b : nlattr) :
  0 <= decode_err get_ops get_data b ->
  has_mask (decode_act get_ops get_data b) TCA_ATTR_KIND = true /\
  kind_ok (tc_kind (decode_act get_ops get_data b)) /\
  ce_refcnt (decode_act get_ops get_data b) = 1 /\
  a_next (decode_act get_ops get_data b) = None.
Proof.
  intros Hok.
  destruct (decode_ok_fields get_ops get_data b Hok)
    as (k & _ & Hk & _ & Hm).
  destruct (parse_fields_links get_ops get_data act_zero b 1) as [Hn Hr].
  split; [|split; [|split]].
  - unfold has_mask. rewrite Hm.
    destruct (tb_get (block_attrs_of b) TCA_ACT_OPTIONS); reflexivity.
  - rewrite Hk. apply nla_strlcpy_kind_ok.
  - exact Hr.
  - exact Hn.
Qed.

Lemma parsed_entity_kind_witness :
  has_mask (decode_act no_ops no_data sample_block_opts) TCA_ATTR_KIND
    = true /\
  kind_ok (tc_kind (decode_act no_ops no_data sample_block_opts)) /\
  ce_refcnt (decode_act no_ops no_data sample_block_opts) = 1 /\
  a_next (decode_act no_ops no_data sample_block_opts) = None.
Proof.
  apply parsed_entity_kind. vm_compute. discriminate.
Defined.

(** X13: an entity that the loop body completes holds as raw options the
    payload of the [TCA_ACT_OPTIONS] attribute of its block, byte for
    byte, with the options bit set, or no options and no bit when the
    block has no such attribute; this does not depend on the kind having
    a parser. *)
Theorem parsed_entity_options
    (get_ops : rtnl_act -> option rtnl_tc_ops)
    (get_data : rtnl_act -> option (list byte)) (b : nlattr) :
  0 <= decode_err get_ops get_data b ->
  tc_opts (decode_act get_ops get_data b)
    = nl_data_of_attr <$> tb_get (block_attrs_of b) TCA_ACT_OPTIONS /\
  has_mask (decode_act get_ops get_data b) TCA_ATTR_OPTS
    = match tb_get (block_attrs_of b) TCA_ACT_OPTIONS with
      | Some _ => true
      | None => false
      end.
Proof.
  intros Hok.
  destruct (decode_ok_fields get_ops get_data b Hok)
    as (k & _ & _ & Ho & Hm).
  split; [exact Ho|]. unfold has_mask. rewrite Hm.
  destruct (tb_get (block_attrs_of b) TCA_ACT_OPTIONS); reflexivity.
Qed.

Lemma parsed_entity_options_witness :
  tc_opts (decode_act sample_registry sample_data sample_block_opts)
    = Some [x01; x02; x03] /\
  has_mask (decode_act sample_registry sample_data sample_block_opts)
           TCA_ATTR_OPTS = true.
Proof.
  destruct (parsed_entity_options sample_registry sample_data
              sample_block_opts) as [Ho Hm].
  - vm_compute. discriminate.
  - rewrite Ho, Hm. split; vm_compute; reflexivity.
Defined.

(** ** Statistics blocks *)

Lemma stream_enc_attrs (l : list (Z * list byte)) : forall rest fuel,
  Forall (fun td => 0 <= td.1 < 65536 /\ NLA_HDRLEN + blen td.2 < 65536) l ->
  (length l <= fuel)%nat ->
  nla_stream fuel (enc_attrs l ++ rest) (blen (enc_attrs l)) = attrs_of l rest.
Proof.
  induction l as [|[t d] l IH]; intros rest fuel Hok Hf.
  - cbn [enc_attrs attrs_of]. apply nla_stream_end.
    change (blen []) with 0. unfold NLA_HDRLEN. lia.
  - inversion Hok as [|? ? [Ht Hd] Hok']; subst. cbn [fst snd] in *.
    cbn [length] in Hf. destruct fuel as [|f]; [lia|].
    cbn [enc_attrs attrs_of]. rewrite <- app_assoc.
    pose proof (blen_nonneg (enc_attrs l)).
    pose proof (NLA_ALIGN_bounds (NLA_HDRLEN + blen d)).
    rewrite nla_stream_cons;
      [| exact Ht | exact Hd | rewrite blen_app, blen_enc_attr; lia].
    f_equal. rewrite blen_app, blen_enc_attr.
    replace (NLA_ALIGN (NLA_HDRLEN + blen d) + blen (enc_attrs l)
             - NLA_ALIGN (NLA_HDRLEN + blen d))
      with (blen (enc_attrs l)) by lia.
    apply IH; [exact Hok' | lia].
Qed.

Lemma length_enc_attrs_ge (l : list (Z * list byte)) (rest : list byte) :
  (length l <= length (enc_attrs l ++ rest))%nat.
Proof.
  induction l as [|[t d] l IH]; [simpl; lia|].
  cbn [enc_attrs length]. rewrite <- app_assoc.
  rewrite length_app in *. unfold enc_attr. rewrite !length_app.
  rewrite length_put_le. lia.
Qed.

Lemma nla_parse_nested_stats (l : list (Z * list byte)) (rest : list byte)
    (policy : option nla_policy) :
  Forall (fun td => 0 <= td.1 <= TCA_STATS_MAX /\
                    NLA_HDRLEN + blen td.2 < 65536) l ->
  nla_parse_nested TCA_STATS_MAX (stats_attr l rest) policy
    = match policy with
      | Some pol =>
        if forallb (validate_nla pol) (attrs_of l rest)
        then (0, attrs_of l rest) else (- NLE_RANGE, [])
      | None => (0, attrs_of l rest)
      end.
Proof.
  intros Hok. unfold nla_parse_nested, nla_parse, stats_attr, nla_len.
  cbn [nla_data nla_len_field].
  replace (NLA_HDRLEN + blen (enc_attrs l) - NLA_HDRLEN)
    with (blen (enc_attrs l)) by lia.
  rewrite stream_enc_attrs.
  - assert (Hfil : List.filter (fun a => nla_type a <=? TCA_STATS_MAX)
                     (attrs_of l rest) = attrs_of l rest).
    { apply forallb_filter_id. clear -Hok.
      induction Hok as [|[t d] l [Ht _] _ IH]; [reflexivity|].
      cbn [attrs_of forallb nla_type]. rewrite IH, andb_true_r.
      apply Z.leb_le. simpl in Ht. lia. }
    rewrite Hfil. reflexivity.
  - eapply Forall_impl; [exact Hok|]. intros [t d] [Ht Hd]. simpl in *.
    unfold TCA_STATS_MAX in Ht. split; [lia | exact Hd].
  - apply length_enc_attrs_ge.
Qed.

Lemma blen_gnet_stats_basic b p :
  blen (gnet_stats_basic_bytes b p) = sizeof_gnet_stats_basic.
Proof.
  unfold gnet_stats_basic_bytes. rewrite !blen_app, !blen_put_le.
  reflexivity.
Qed.

Lemma blen_gnet_stats_rate_est b p :
  blen (gnet_stats_rate_est_bytes b p) = sizeof_gnet_stats_rate_est.
Proof.
  unfold gnet_stats_rate_est_bytes. rewrite !blen_app, !blen_put_le.
  reflexivity.
Qed.

Lemma blen_gnet_stats_queue q b d r o :
  blen (gnet_stats_queue_bytes q b d r o) = sizeof_gnet_stats_queue.
Proof.
  unfold gnet_stats_queue_bytes. rewrite !blen_app, !blen_put_le.
  reflexivity.
Qed.

Lemma bdrop_app_more (n m : Z) (a b : list byte) :
  blen a = n -> 0 <= m -> bdrop (n + m) (a ++ b) = bdrop m b.
Proof.
  intros <- Hm. unfold bdrop, blen.
  rewrite drop_app_ge by lia. f_equal. lia.
Qed.

Lemma queue_fields (q b d r o : Z) (T : list byte) :
  0 <= d < 2 ^ 32 -> 0 <= o < 2 ^ 32 ->
  get_le 4 (bdrop 8 (put_le 4 q ++ put_le 4 b ++ put_le 4 d ++ put_le 4 r
                       ++ put_le 4 o ++ T)) = d /\
  get_le 4 (bdrop 16 (put_le 4 q ++ put_le 4 b ++ put_le 4 d ++ put_le 4 r
                        ++ put_le 4 o ++ T)) = o.
Proof.
  intros Hd Ho. split.
  - rewrite (bdrop_app_more 4 4) by (rewrite ?blen_put_le; lia).
    rewrite (bdrop_app_exact 4) by apply blen_put_le.
    apply get_put_le. simpl. lia.
  - rewrite (bdrop_app_more 4 12) by (rewrite ?blen_put_le; lia).
    rewrite (bdrop_app_more 4 8) by (rewrite ?blen_put_le; lia).
    rewrite (bdrop_app_more 4 4) by (rewrite ?blen_put_le; lia).
    rewrite (bdrop_app_exact 4) by apply blen_put_le.
    apply get_put_le. simpl. lia.
Qed.

Lemma parse_stats_rate_est64 (tc : rtnl_act) (tb3 : list nlattr)
    (re32 re64 : nlattr) :
  tb_get tb3 TCA_STATS_RATE_EST = Some re32 ->
  tb_get tb3 TCA_STATS_RATE_EST64 = Some re64 ->
  let tc' := parse_stats tc tb3 in
  stat_get (tc_stats tc') RTNL_TC_RATE_BPS = get_le 8 (nla_data re64) /\
  stat_get (tc_stats tc') RTNL_TC_RATE_PPS
    = get_le 8 (bdrop 8 (nla_data re64)) /\
  List.filter is_rate_store (tc_stats tc')
    = (RTNL_TC_RATE_PPS, get_le 8 (bdrop 8 (nla_data re64)))
        :: (RTNL_TC_RATE_BPS, get_le 8 (nla_data re64))
        :: List.filter is_rate_store (tc_stats tc).
Proof.
  intros H32 H64. unfold parse_stats. rewrite H64.
  destruct (tb_get tb3 TCA_STATS_BASIC) as [bs|];
    destruct (tb_get tb3 TCA_STATS_QUEUE) as [q|]; simpl;
    repeat split; reflexivity.
Qed.

Lemma parse_stats_three (tc : rtnl_act) (rest : list byte)
    (bytes packets bps pps qlen backlog drops requeues overlimits : Z) :
  0 <= bytes < 2 ^ 64 -> 0 <= packets < 2 ^ 32 ->
  0 <= bps < 2 ^ 32 -> 0 <= pps < 2 ^ 32 ->
  0 <= drops < 2 ^ 32 -> 0 <= overlimits < 2 ^ 32 ->
  let s := stats_attr
             [(TCA_STATS_BASIC, gnet_stats_basic_bytes bytes packets);
              (TCA_STATS_RATE_EST, gnet_stats_rate_est_bytes bps pps);
              (TCA_STATS_QUEUE,
               gnet_stats_queue_bytes qlen backlog drops requeues overlimits)]
             rest in
  let r := nla_parse_nested TCA_STATS_MAX s (Some tc_act_stats_policy) in
  let tc' := parse_stats tc r.2 in
  r.1 = 0 /\
  stat_get (tc_stats tc') RTNL_TC_BYTES = bytes /\
  stat_get (tc_stats tc') RTNL_TC_PACKETS = packets /\
  stat_get (tc_stats tc') RTNL_TC_RATE_BPS = bps /\
  stat_get (tc_stats tc') RTNL_TC_RATE_PPS = pps /\
  stat_get (tc_stats tc') RTNL_TC_DROPS = drops /\
  stat_get (tc_stats tc') RTNL_TC_OVERLIMITS = overlimits /\
  stat_get (tc_stats tc') RTNL_TC_QLEN = stat_get (tc_stats tc) RTNL_TC_QLEN /\
  stat_get (tc_stats tc') RTNL_TC_BACKLOG
    = stat_get (tc_stats tc) RTNL_TC_BACKLOG /\
  stat_get (tc_stats tc') RTNL_TC_REQUEUES
    = stat_get (tc_stats tc) RTNL_TC_REQUEUES.
Proof.
  intros Hby Hpk Hbps Hpps Hdr Hov s r tc'.
  assert (Hr : r = (0, attrs_of
             [(TCA_STATS_BASIC, gnet_stats_basic_bytes bytes packets);
              (TCA_STATS_RATE_EST, gnet_stats_rate_est_bytes bps pps);
              (TCA_STATS_QUEUE,
               gnet_stats_queue_bytes qlen backlog drops requeues overlimits)]
             rest)).
  { unfold r, s. rewrite nla_parse_nested_stats.
    - cbn [attrs_of forallb]. unfold validate_nla, nla_len.
      cbn [nla_type nla_len_field].
      rewrite blen_gnet_stats_basic, blen_gnet_stats_rate_est,
        blen_gnet_stats_queue.
      reflexivity.
    - repeat constructor; cbn [fst snd];
        rewrite ?blen_gnet_stats_basic, ?blen_gnet_stats_rate_est,
          ?blen_gnet_stats_queue; try discriminate; reflexivity. }
  unfold tc'. rewrite Hr. cbn [fst snd attrs_of].
  split; [reflexivity|].
  unfold parse_stats.
  match goal with
  | |- context [tb_get [?B; ?R; ?Q] TCA_STATS_BASIC] =>
    change (tb_get [B; R; Q] TCA_STATS_BASIC) with (Some B);
    change (tb_get [B; R; Q] TCA_STATS_RATE_EST64) with (@None nlattr);
    change (tb_get [B; R; Q] TCA_STATS_RATE_EST) with (Some R);
    change (tb_get [B; R; Q] TCA_STATS_QUEUE) with (Some Q)
  end.
  cbn [nla_data tc_stats set_stat stat_get rtnl_tc_stat_eqb].
  unfold gnet_stats_basic_bytes, gnet_stats_rate_est_bytes,
    gnet_stats_queue_bytes.
  rewrite <- !app_assoc.
  rewrite !get_put_le by (simpl; lia).
  rewrite (bdrop_app_exact 8 (put_le 8 bytes)) by apply blen_put_le.
  rewrite (bdrop_app_exact 4 (put_le 4 bps)) by apply blen_put_le.
  rewrite !get_put_le by (simpl; lia).
  destruct (queue_fields qlen backlog drops requeues overlimits
              (zeros (NLA_ALIGN (NLA_HDRLEN + blen
                        (put_le 4 qlen ++ put_le 4 backlog ++ put_le 4 drops
                           ++ put_le 4 requeues ++ put_le 4 overlimits))
                      - (NLA_HDRLEN + blen
                           (put_le 4 qlen ++ put_le 4 backlog
                              ++ put_le 4 drops ++ put_le 4 requeues
                              ++ put_le 4 overlimits)))
                 ++ enc_attrs [] ++ rest) Hdr Hov) as [-> ->].
  repeat split; reflexivity.
Qed.

Lemma parse_stats_stores (tc tc' : rtnl_act) (tb3 : list nlattr) :
  tc_stats tc = tc_stats tc' ->
  tc_stats (parse_stats tc tb3) = tc_stats (parse_stats tc' tb3).
Proof.
  intros H. unfold parse_stats.
  repeat case_match; cbn [tc_stats set_stat]; rewrite ?H; reflexivity.
Qed.

(** The counters of the entity that the loop body makes of a block with
    a kind and a statistics attribute that passes the policy: those that
    [parse_stats] stores for the table of the attribute, whatever the
    options and the parser of the kind do. *)
Lemma decode_act_stats
    (get_ops : rtnl_act -> option rtnl_tc_ops)
    (get_data : rtnl_act -> option (list byte))
    (b k s : nlattr) (tb3 : list nlattr) :
  tb_get (block_attrs_of b) TCA_ACT_KIND = Some k ->
  tb_get (block_attrs_of b) TCA_ACT_STATS = Some s ->
  nla_parse_nested TCA_STATS_MAX s (Some tc_act_stats_policy) = (0, tb3) ->
  tc_stats (decode_act get_ops get_data b)
    = tc_stats (parse_stats act_zero tb3).
Proof.
  unfold block_attrs_of, decode_act, parse_fields.
  destruct (nla_parse TCA_ACT_MAX (nla_data b) (nla_len b) None)
    as [z tb2] eqn:E.
  assert (z = 0) as -> by (unfold nla_parse in E; congruence).
  cbn [snd]. intros Hk Hs Hn. rewrite Hk, Hs.
  change (0 <? 0) with false. cbn iota. rewrite Hn.
  assert (Hfin : forall tc2 (n : nat), tc_stats tc2 = [] ->
    tc_stats
      (let '(err3, tc3) := (0, parse_stats tc2 tb3) in
       if err3 <? 0 then (err3, tc3, n)
       else
         match get_ops tc3 with
         | Some ops =>
           match to_msg_parser ops with
           | Some parser =>
             match get_data tc3 with
             | None => (- NLE_NOMEM, tc3, n)
             | Some _ =>
               let '(err4, d) := parser tc3 in
               let tc4 := set_subdata tc3 d in
               if err4 <? 0 then (err4, tc4, n) else (0, tc4, n)
             end
           | None => (0, tc3, n)
           end
         | None => (0, tc3, n)
         end).1.2
    = tc_stats (parse_stats act_zero tb3)).
  { intros tc2 n H2. change (0 <? 0) with false. cbn iota.
    rewrite <- (parse_stats_stores tc2 act_zero tb3 H2).
    destruct (get_ops (parse_stats tc2 tb3)) as [ops|]; [|reflexivity].
    destruct (to_msg_parser ops) as [parser|]; [|reflexivity].
    destruct (get_data (parse_stats tc2 tb3)); [|reflexivity].
    destruct (parser (parse_stats tc2 tb3)) as [err4 d].
    destruct (err4 <? 0); reflexivity. }
  destruct (tb_get tb2 TCA_ACT_OPTIONS) as [o|];
    change (0 <? 0) with false; cbn iota; apply Hfin; reflexivity.
Qed.

(** C5: when the statistics attribute of a block holds both
    [TCA_STATS_RATE_EST] and [TCA_STATS_RATE_EST64], the two rate
    counters of the entity that the loop body of [rtnl_act_parse] makes
    of the block are the 64-bit values, and the only stores made to the
    rate counters are those two: the 32-bit values are not written. *)
Theorem rate_est64_wins
    (get_ops : rtnl_act -> option rtnl_tc_ops)
    (get_data : rtnl_act -> option (list byte))
    (b k s : nlattr) (tb3 : list nlattr) (re32 re64 : nlattr) :
  tb_get (block_attrs_of b) TCA_ACT_KIND = Some k ->
  tb_get (block_attrs_of b) TCA_ACT_STATS = Some s ->
  nla_parse_nested TCA_STATS_MAX s (Some tc_act_stats_policy) = (0, tb3) ->
  tb_get tb3 TCA_STATS_RATE_EST = Some re32 ->
  tb_get tb3 TCA_STATS_RATE_EST64 = Some re64 ->
  let tc' := decode_act get_ops get_data b in
  stat_get (tc_stats tc') RTNL_TC_RATE_BPS = get_le 8 (nla_data re64) /\
  stat_get (tc_stats tc') RTNL_TC_RATE_PPS
    = get_le 8 (bdrop 8 (nla_data re64)) /\
  List.filter is_rate_store (tc_stats tc')
    = [(RTNL_TC_RATE_PPS, get_le 8 (bdrop 8 (nla_data re64)));
       (RTNL_TC_RATE_BPS, get_le 8 (nla_data re64))].
Proof.
  intros Hk Hs Hn H32 H64 tc'. unfold tc'.
  rewrite (decode_act_stats get_ops get_data b k s tb3 Hk Hs Hn).
  exact (parse_stats_rate_est64 act_zero tb3 re32 re64 H32 H64).
Qed.

Lemma rate_est64_wins_witness :
  let tc' := decode_act sample_registry sample_data sample_block_both_rates in
  stat_get (tc_stats tc') RTNL_TC_RATE_BPS = 4294967299 /\
  stat_get (tc_stats tc') RTNL_TC_RATE_PPS = 4 /\
  List.filter is_rate_store (tc_stats tc')
    = [(RTNL_TC_RATE_PPS, 4); (RTNL_TC_RATE_BPS, 4294967299)].
Proof.
  destruct (tb_get (block_attrs_of sample_block_both_rates) TCA_ACT_KIND)
    as [k|] eqn:Ek; [|vm_compute in Ek; discriminate Ek].
  destruct (tb_get (block_attrs_of sample_block_both_rates) TCA_ACT_STATS)
    as [s|] eqn:Es; [|vm_compute in Es; discriminate Es].
  destruct (nla_parse_nested TCA_STATS_MAX s (Some tc_act_stats_policy))
    as [e tb3] eqn:En.
  assert (He : e = 0).
  { vm_compute in Es. injection Es as <-. vm_compute in En. congruence. }
  subst e.
  destruct (tb_get tb3 TCA_STATS_RATE_EST) as [re32|] eqn:E32;
    [|vm_compute in Es; injection Es as <-; vm_compute in En;
      injection En as <-; vm_compute in E32; discriminate E32].
  destruct (tb_get tb3 TCA_STATS_RATE_EST64) as [re64|] eqn:E64;
    [|vm_compute in Es; injection Es as <-; vm_compute in En;
      injection En as <-; vm_compute in E64; discriminate E64].
  pose proof (rate_est64_wins sample_registry sample_data
                sample_block_both_rates k s tb3 re32 re64 Ek Es En E32 E64)
    as H.
  assert (H8 : get_le 8 (nla_data re64) = 4294967299 /\
               get_le 8 (bdrop 8 (nla_data re64)) = 4).
  { vm_compute in Es. injection Es as <-. vm_compute in En.
    injection En as <-. vm_compute in E64. injection E64 as <-.
    split; vm_compute; reflexivity. }
  destruct H8 as [H8 H8']. rewrite H8, H8' in H. exact H.
Defined.

(** X14: a block with a kind whose statistics attribute holds the basic
    counters, the 32-bit rate estimate and the queue counters passes the
    policy, and the entity that the loop body of [rtnl_act_parse] makes
    of the block has the bytes, packets, rate, drops and overlimits
    counters of the attribute; the queue length, backlog and requeues of
    the attribute are not stored. *)
Theorem stats_block_decode
    (get_ops : rtnl_act -> option rtnl_tc_ops)
    (get_data : rtnl_act -> option (list byte))
    (b k : nlattr) (rest : list byte)
    (bytes packets bps pps qlen backlog drops requeues overlimits : Z) :
  0 <= bytes < 2 ^ 64 -> 0 <= packets < 2 ^ 32 ->
  0 <= bps < 2 ^ 32 -> 0 <= pps < 2 ^ 32 ->
  0 <= drops < 2 ^ 32 -> 0 <= overlimits < 2 ^ 32 ->
  let s := stats_attr
             [(TCA_STATS_BASIC, gnet_stats_basic_bytes bytes packets);
              (TCA_STATS_RATE_EST, gnet_stats_rate_est_bytes bps pps);
              (TCA_STATS_QUEUE,
               gnet_stats_queue_bytes qlen backlog drops requeues overlimits)]
             rest in
  tb_get (block_attrs_of b) TCA_ACT_KIND = Some k ->
  tb_get (block_attrs_of b) TCA_ACT_STATS = Some s ->
  let tc' := decode_act get_ops get_data b in
  (nla_parse_nested TCA_STATS_MAX s (Some tc_act_stats_policy)).1 = 0 /\
  stat_get (tc_stats tc') RTNL_TC_BYTES = bytes /\
  stat_get (tc_stats tc') RTNL_TC_PACKETS = packets /\
  stat_get (tc_stats tc') RTNL_TC_RATE_BPS = bps /\
  stat_get (tc_stats tc') RTNL_TC_RATE_PPS = pps /\
  stat_get (tc_stats tc') RTNL_TC_DROPS = drops /\
  stat_get (tc_stats tc') RTNL_TC_OVERLIMITS = overlimits /\
  stat_get (tc_stats tc') RTNL_TC_QLEN = 0 /\
  stat_get (tc_stats tc') RTNL_TC_BACKLOG = 0 /\
  stat_get (tc_stats tc') RTNL_TC_REQUEUES = 0.
Proof.
  intros Hby Hpk Hbps Hpps Hdr Hov s Hk Hs tc'.
  pose proof (parse_stats_three act_zero rest bytes packets bps pps qlen
                backlog drops requeues overlimits Hby Hpk Hbps Hpps Hdr Hov)
    as H.
  cbv zeta in H. fold s in H.
  destruct (nla_parse_nested TCA_STATS_MAX s (Some tc_act_stats_policy))
    as [e tb3] eqn:En.
  cbn [fst snd] in H. destruct H as (He & H). subst e.
  unfold tc'.
  rewrite (decode_act_stats get_ops get_data b k s tb3 Hk Hs En).
  cbn [fst]. split; [reflexivity|]. exact H.
Qed.

Lemma stats_block_decode_witness :
  let tc' := decode_act sample_registry sample_data sample_block_stats in
  stat_get (tc_stats tc') RTNL_TC_BYTES = 100 /\
  stat_get (tc_stats tc') RTNL_TC_PACKETS = 5 /\
  stat_get (tc_stats tc') RTNL_TC_DROPS = 5 /\
  stat_get (tc_stats tc') RTNL_TC_QLEN = 0.
Proof.
  destruct (tb_get (block_attrs_of sample_block_stats) TCA_ACT_KIND)
    as [k|] eqn:Ek; [|vm_compute in Ek; discriminate Ek].
  destruct (stats_block_decode sample_registry sample_data
              sample_block_stats k [] 100 5 1 2 3 4 5 6 7)
    as (_ & H1 & H2 & _ & _ & H3 & _ & H4 & _);
    try (vm_compute; split; [discriminate | reflexivity]).
  - exact Ek.
  - vm_compute. reflexivity.
  - cbv zeta. repeat split; assumption.
Defined.

Lemma forallb_validate_false (pol : nla_policy) (l : list (Z * list byte))
    (rest : list byte) :
  Exists (fun td => blen td.2 < pol td.1) l ->
  forallb (validate_nla pol) (attrs_of l rest) = false.
Proof.
  induction 1 as [[t d] l Hx|[t d] l _ IH]; cbn [attrs_of forallb].
  - unfold validate_nla at 1, nla_len. cbn [nla_type nla_len_field].
    simpl in Hx.
    destruct (Z.leb_spec (pol t) (NLA_HDRLEN + blen d - NLA_HDRLEN));
      [lia | reflexivity].
  - rewrite IH. apply andb_false_r.
Qed.

(** X15: when a sub-attribute of the statistics block of a block is
    shorter than the structure that [tc_act_stats_policy] asks for, the
    loop body fails with [-NLE_RANGE] and has stored no counter. *)
Theorem short_stats_fail
    (get_ops : rtnl_act -> option rtnl_tc_ops)
    (get_data : rtnl_act -> option (list byte))
    (b k : nlattr) (l : list (Z * list byte)) (rest : list byte) :
  tb_get (block_attrs_of b) TCA_ACT_KIND = Some k ->
  tb_get (block_attrs_of b) TCA_ACT_STATS = Some (stats_attr l rest) ->
  Forall (fun td => 0 <= td.1 <= TCA_STATS_MAX /\
                    NLA_HDRLEN + blen td.2 < 65536) l ->
  Exists (fun td => blen td.2 < tc_act_stats_policy td.1) l ->
  decode_err get_ops get_data b = - NLE_RANGE /\
  tc_stats (decode_act get_ops get_data b) = [].
Proof.
  unfold block_attrs_of, decode_err, decode_act, parse_fields.
  destruct (nla_parse TCA_ACT_MAX (nla_data b) (nla_len b) None)
    as [z tb2] eqn:E.
  assert (z = 0) as -> by (unfold nla_parse in E; congruence).
  cbn [snd]. intros Hk Hs Hwf Hshort. rewrite Hk, Hs.
  change (0 <? 0) with false. cbn iota.
  rewrite (nla_parse_nested_stats l rest _ Hwf).
  rewrite (forallb_validate_false _ l rest Hshort).
  destruct (tb_get tb2 TCA_ACT_OPTIONS) as [o|];
    change (0 <? 0) with false; change (- NLE_RANGE <? 0) with true;
    cbn iota; cbn [fst snd]; split; reflexivity.
Qed.

Lemma short_stats_fail_witness :
  decode_err no_ops no_data sample_block_short_stats = - NLE_RANGE /\
  tc_stats (decode_act no_ops no_data sample_block_short_stats) = [].
Proof.
  destruct (tb_get (block_attrs_of sample_block_short_stats) TCA_ACT_KIND)
    as [k|] eqn:Ek; [|vm_compute in Ek; discriminate Ek].
  apply (short_stats_fail no_ops no_data sample_block_short_stats k
           [(TCA_STATS_BASIC, [x00; x00; x00; x00])] []).
  - exact Ek.
  - vm_compute. reflexivity.
  - repeat constructor; vm_compute; discriminate.
  - constructor. vm_compute. reflexivity.
Defined.

(** ** The cache adapter: errors *)

(** X16: for a message that holds the [struct tcamsg] but no
    [TCA_ACT_TAB] attribute, [rtnl_act_msg_parse] returns
    [-NLE_MISSING_ATTR] and leaves [*act] alone; it allocates nothing,
    but the message type and the family are already written to the
    action passed in. *)
Theorem rtnl_act_msg_parse_no_tab
    (get_ops : rtnl_act -> option rtnl_tc_ops)
    (get_data : rtnl_act -> option (list byte))
    (lc : option (Z -> option Z)) fuel st (n : nlmsghdr) (tc : loc)
    (a : rtnl_act) :
  sizeof_tcamsg <= blen (nlh_data n) ->
  tb_get (nlmsg_parse n sizeof_tcamsg TCAA_MAX None).2 TCA_ACT_TAB = None ->
  st_heap st !! tc = Some a ->
  rtnl_act_msg_parse get_ops get_data lc fuel st n (Some tc)
    = Some (- NLE_MISSING_ATTR,
            mk_state
              (<[tc := set_family (set_msgtype a (nlh_type n))
                         (get_le 1 (nlh_data n))]> (st_heap st))
              (st_next st) (st_avail st) (st_log st),
            Some tc).
Proof.
  intros Hlen Htab Ha. unfold rtnl_act_msg_parse, heap_modify. rewrite Ha.
  cbn [st_heap st_next st_avail st_log].
  unfold nlmsg_parse in *.
  destruct (Z.ltb_spec (blen (nlh_data n)) sizeof_tcamsg) as [|_]; [lia|].
  unfold nla_parse in *. cbn [snd] in Htab.
  change (0 <? 0) with false. cbn iota.
  rewrite lookup_insert_eq. cbn [st_heap st_next st_avail st_log].
  rewrite Htab. rewrite insert_insert_eq. reflexivity.
Qed.

Lemma rtnl_act_msg_parse_no_tab_witness :
  rtnl_act_msg_parse no_ops no_data None 8
    (mk_state (<[1%positive := act_zero]> ∅) 2%positive 8 [])
    (mk_nlh RTM_NEWACTION (tcamsg_bytes 2)) (Some 1%positive)
  = Some (- NLE_MISSING_ATTR,
          mk_state
            (<[1%positive := set_family (set_msgtype act_zero RTM_NEWACTION) 2]>
               (<[1%positive := act_zero]> ∅))
            2%positive 8 [],
          Some 1%positive).
Proof.
  etransitivity.
  - apply (rtnl_act_msg_parse_no_tab no_ops no_data None 8
             (mk_state (<[1%positive := act_zero]> ∅) 2%positive 8 [])
             (mk_nlh RTM_NEWACTION (tcamsg_bytes 2)) 1%positive act_zero).
    + vm_compute. discriminate.
    + vm_compute. reflexivity.
    + vm_compute. reflexivity.
  - vm_compute. reflexivity.
Defined.

(** ** Return codes *)

Ltac ltb_facts :=
  repeat match goal with
  | H : (_ <? _) = true |- _ => apply Z.ltb_lt in H
  | H : (_ <? _) = false |- _ => apply Z.ltb_ge in H
  end.

Section Codes.

Variable get_ops : rtnl_act -> option rtnl_tc_ops.
Variable get_data : rtnl_act -> option (list byte).
Variable lc : option (Z -> option Z).
Variable cb : state -> option loc -> Z * state.

Lemma parse_fields_nonpos tc a n :
  (parse_fields get_ops get_data tc a n).1.1 <= 0.
Proof.
  unfold parse_fields.
  repeat case_match; simplify_eq; cbn [fst snd]; ltb_facts;
    unfold NLE_MISSING_ATTR, NLE_NOMEM; lia.
Qed.

Lemma rtnl_act_append_code fuel (h : heap) head new e h' head' :
  rtnl_act_append fuel h head new = Some (e, h', head') -> e <= 0.
Proof.
  unfold rtnl_act_append.
  repeat case_match; intros; simplify_eq; unfold NLE_RANGE; lia.
Qed.

Lemma parse_one_nonpos fuel st th a e st' th' :
  parse_one get_ops get_data fuel st th a = Some (e, st', th') -> e <= 0.
Proof.
  unfold parse_one.
  pose proof (parse_fields_nonpos act_zero a) as Hpf.
  repeat case_match; intros; simplify_eq; ltb_facts;
    try (unfold NLE_NOMEM; lia);
    try match goal with
    | H : parse_fields _ _ _ _ ?n = (?e, _, _) |- _ =>
      specialize (Hpf n); rewrite H in Hpf; cbn [fst snd] in Hpf
    end; try lia.
Qed.

Lemma parse_loop_nonpos n : forall i fuel st th nla e st' th',
  parse_loop get_ops get_data n i fuel st th nla = Some (e, st', th') ->
  e <= 0.
Proof.
  induction n as [|n IH]; intros i fuel st th nla e st' th' H; simpl in H.
  - injection H as <- _ _. lia.
  - destruct (tb_get nla i); [|eapply IH; exact H].
    destruct (parse_one get_ops get_data fuel st th n0)
      as [[[e1 st1] th1]|] eqn:E1; [|discriminate].
    destruct (Z.ltb_spec e1 0).
    + injection H as <- _ _. lia.
    + eapply IH; exact H.
Qed.

Lemma rtnl_act_parse_nonpos fuel st head tb e st' head' :
  rtnl_act_parse get_ops get_data fuel st head tb = Some (e, st', head') ->
  e <= 0.
Proof.
  unfold rtnl_act_parse.
  destruct (nla_parse _ _ _ _) as [z nla].
  destruct (Z.ltb_spec z 0); [intros [= <- _ _]; lia|].
  destruct (parse_loop _ _ _ _ _ _ _ _) as [[[e1 st1] th1]|]; [|discriminate].
  destruct (Z.ltb_spec e1 0).
  - destruct (nl_auto_rtnl_act_all _ _ _); [|discriminate].
    intros [= <- _ _]. lia.
  - intros [= <- _ _]. lia.
Qed.

Lemma rtnl_act_msg_parse_nonpos fuel st n act e st' act' :
  rtnl_act_msg_parse get_ops get_data lc fuel st n act = Some (e, st', act') ->
  e <= 0.
Proof.
  unfold rtnl_act_msg_parse.
  destruct act as [tc|]; [|discriminate].
  destruct (heap_modify st tc _) as [st1|]; [|discriminate].
  destruct (nlmsg_parse _ _ _ _) as [z tb].
  destruct (Z.ltb_spec z 0); [intros [= <- _ _]; lia|].
  destruct (heap_modify st1 tc _) as [st2|]; [|discriminate].
  destruct (tb_get tb TCA_ACT_TAB) as [tab|];
    [|intros [= <- _ _]; unfold NLE_MISSING_ATTR; lia].
  destruct (rtnl_act_parse _ _ _ _ _ _) as [[[e1 st3] act1]|] eqn:E;
    [|discriminate].
  apply rtnl_act_parse_nonpos in E.
  destruct (Z.ltb_spec e1 0); [intros [= <- _ _]; lia|].
  repeat case_match; intros; simplify_eq; lia.
Qed.

Lemma cb_walk_nonpos fuel : forall st act p e0 calls e st' calls',
  e0 <= 0 ->
  cb_walk cb fuel st act p e0 calls = Some (e, st', calls') -> e <= 0.
Proof.
  induction fuel as [|f IH]; intros st act p e0 calls e st' calls' H0 H;
    destruct p as [x|]; simpl in H; try discriminate;
    try (injection H as <- _ _; exact H0).
  destruct (cb st act) as [e1 st1].
  destruct (Z.eqb_spec e1 0) as [->|Hne]; simpl in H.
  - destruct (st_heap st1 !! x); [|discriminate].
    eapply IH; [|exact H]. lia.
  - injection H as <- _ _.
    destruct (Z.ltb_spec 0 e1); [unfold NLE_FAILURE|]; lia.
Qed.

End Codes.

(** X17: [act_msg_parser] returns 0 or a negative code, whatever the
    message, the registered operations and the callback do: a positive
    value of the callback is turned into [-NLE_FAILURE], and a
    non-negative value of a kind parser counts as success. *)
Theorem act_msg_parser_nonpositive
    (get_ops : rtnl_act -> option rtnl_tc_ops)
    (get_data : rtnl_act -> option (list byte))
    (lc : option (Z -> option Z)) (cb : state -> option loc -> Z * state)
    fuel st (nlh : nlmsghdr) e st' calls :
  act_msg_parser get_ops get_data lc cb fuel st nlh = Some (e, st', calls) ->
  e <= 0.
Proof.
  unfold act_msg_parser.
  destruct (rtnl_act_alloc st) as [st1 [x|]];
    [|intros [= <- _ _]; unfold NLE_NOMEM; lia].
  destruct (rtnl_act_msg_parse _ _ _ _ _ _ _) as [[[e1 st2] act]|] eqn:E;
    [|discriminate].
  apply rtnl_act_msg_parse_nonpos in E.
  destruct (Z.ltb_spec e1 0).
  - destruct (st_put st2 act); [|discriminate]. intros [= <- _ _]. lia.
  - destruct (cb_walk cb fuel st2 act act e1 [])
      as [[[e2 st3] calls2]|] eqn:Ew; [|discriminate].
    apply cb_walk_nonpos in Ew; [|exact E].
    destruct (st_put st3 act); [|discriminate]. intros [= <- _ _]. exact Ew.
Qed.

Lemma act_msg_parser_nonpositive_witness :
  exists st' calls,
    act_msg_parser no_ops no_data None (fun st _ => (7, st)) 64
      (empty_state 8) sample_inbound = Some (- NLE_FAILURE, st', calls) /\
    - NLE_FAILURE <= 0.
Proof.
  eexists _, _. split; [vm_compute; reflexivity|].
  eapply (act_msg_parser_nonpositive no_ops no_data None
            (fun st _ => (7, st)) 64 (empty_state 8) sample_inbound
            (- NLE_FAILURE)).
  vm_compute. reflexivity.
Defined.

(** ** The callback loop *)

Lemma cb_walk_accepting (cb : state -> option loc -> Z * state) fuel st act :
  (forall s o, cb s o = (0, s)) ->
  forall l p e0 calls,
    is_chain (st_heap st) p l -> (length l <= fuel)%nat ->
    cb_walk cb fuel st act p e0 calls
      = Some (match l with [] => e0 | _ => 0 end, st,
              calls ++ repeat act (length l)).
Proof.
  intros Hcb. induction fuel as [|f IH]; intros l p e0 calls Hc Hf.
  - destruct l as [|x l]; [|simpl in Hf; lia]. simpl in Hc. subst p.
    simpl. rewrite app_nil_r. reflexivity.
  - destruct l as [|x l].
    + simpl in Hc. subst p. simpl. rewrite app_nil_r. reflexivity.
    + destruct Hc as (-> & a & Ha & Hc).
      cbn [cb_walk]. rewrite Hcb. change (negb (0 =? 0)) with false.
      cbn iota. rewrite Ha.
      rewrite (IH l (a_next a) 0 (calls ++ [act]) Hc); [|simpl in Hf; lia].
      cbn [length repeat]. rewrite <- app_assoc.
      destruct l; reflexivity.
Qed.

(** X18: with a callback that accepts every object and leaves the state
    alone, the loop of [act_msg_parser] calls it as many times as the
    chain has nodes, and every time with the head of the chain. *)
Theorem callback_per_node_gets_head
    (cb : state -> option loc -> Z * state) fuel st act l e0 :
  (forall s o, cb s o = (0, s)) ->
  is_chain (st_heap st) act l -> (length l <= fuel)%nat ->
  cb_walk cb fuel st act act e0 []
    = Some (match l with [] => e0 | _ => 0 end, st, repeat act (length l)).
Proof.
  intros Hcb Hc Hf.
  apply (cb_walk_accepting cb fuel st act Hcb l act e0 [] Hc Hf).
Qed.

Lemma callback_per_node_gets_head_witness :
  cb_walk cb_accept 8 (mk_state sample_heap 4%positive 0 [])
    (Some 1%positive) (Some 1%positive) 0 []
  = Some (0, mk_state sample_heap 4%positive 0 [],
          [Some 1%positive; Some 1%positive]).
Proof.
  apply (callback_per_node_gets_head cb_accept 8
           (mk_state sample_heap 4%positive 0 []) (Some 1%positive)
           [1%positive; 2%positive] 0).
  - reflexivity.
  - apply (chain_nodes_sound 8). vm_compute. reflexivity.
  - simpl. lia.
Defined.

(** ** From a request to the chain of its receiver *)

Section Built.

Variable get_ops : rtnl_act -> option rtnl_tc_ops.
Variable get_data : rtnl_act -> option (list byte).
Variable opts_of : rtnl_act -> list byte.

Lemma container_blocks_built (t : Z) (recs : list rtnl_act)
    (rest : list byte) :
  Z.of_nat (length recs) < TCA_ACT_MAX_PRIO ->
  NLA_HDRLEN + blen (chain_body get_ops opts_of 0 recs) < 65536 ->
  container_blocks
    (mk_nla (NLA_HDRLEN + blen (chain_body get_ops opts_of 0 recs)) t
            (chain_body get_ops opts_of 0 recs ++ rest))
    = block_attrs get_ops opts_of 0 recs rest.
Proof.
  intros Hlen Hbsz. unfold container_blocks, nla_parse, nla_len.
  cbn [nla_data nla_len_field snd].
  destruct (aligned_chain_body get_ops opts_of 0 recs) as [kb Hkb].
  replace (NLA_HDRLEN + blen (chain_body get_ops opts_of 0 recs) - NLA_HDRLEN)
    with (4 * kb) by lia.
  change NLMSG_ALIGN with NLA_ALIGN. rewrite NLA_ALIGN_mult.
  replace (4 * kb) with (blen (chain_body get_ops opts_of 0 recs)) by lia.
  rewrite stream_chain_body.
  - apply forallb_filter_id.
    pose proof (block_attrs_types get_ops opts_of 0 recs rest) as Hty.
    induction Hty as [|b bs Hb _ IH]; [reflexivity|].
    cbn [forallb]. rewrite IH, andb_true_r.
    apply Z.leb_le. unfold TCA_ACT_MAX_PRIO in *. lia.
  - lia.
  - unfold TCA_ACT_MAX_PRIO in Hlen. lia.
  - apply (chain_body_block_bound get_ops opts_of recs 0). exact Hbsz.
  - pose proof (blen_chain_body_ge get_ops opts_of 0 recs) as Hge.
    rewrite length_app. unfold blen in Hge. lia.
Qed.

Lemma visited_blocks_built (t : Z) (recs : list rtnl_act)
    (rest : list byte) :
  Z.of_nat (length recs) < TCA_ACT_MAX_PRIO ->
  NLA_HDRLEN + blen (chain_body get_ops opts_of 0 recs) < 65536 ->
  omap id (slots
     (container_blocks
        (mk_nla (NLA_HDRLEN + blen (chain_body get_ops opts_of 0 recs)) t
                (chain_body get_ops opts_of 0 recs ++ rest)))
     0 (Z.to_nat TCA_ACT_MAX_PRIO))
    = block_attrs get_ops opts_of 0 recs rest.
Proof.
  intros Hlen Hbsz. rewrite (container_blocks_built t recs rest Hlen Hbsz).
  change (Z.to_nat TCA_ACT_MAX_PRIO) with (S 31). cbn [slots].
  rewrite (tb_get_none _ 0).
  - rewrite omap_id_none.
    apply (slots_block_attrs get_ops opts_of recs [] 0 rest 31);
      [constructor|]. unfold TCA_ACT_MAX_PRIO in Hlen. lia.
  - eapply Forall_impl; [apply block_attrs_types|].
    intros b Hb. simpl in Hb. lia.
Qed.

End Built.

Lemma nla_stream_single (t : Z) (d : list byte) (fuel : nat) :
  0 <= t < 65536 -> NLA_HDRLEN + blen d < 65536 -> (1 <= fuel)%nat ->
  nla_stream fuel (enc_attr t d) (blen (enc_attr t d))
    = [mk_nla (NLA_HDRLEN + blen d) t
         (d ++ zeros (NLA_ALIGN (NLA_HDRLEN + blen d)
                      - (NLA_HDRLEN + blen d)))].
Proof.
  intros Ht Hd Hf.
  pose proof (stream_enc_attrs [(t, d)] [] fuel) as H.
  cbn [enc_attrs attrs_of] in H. rewrite !app_nil_r in H.
  apply H; [|simpl; lia].
  constructor; [|constructor]. split; assumption.
Qed.

Lemma p_parser_accepts (a : rtnl_act) :
  tc_kind a = [x50] -> blen (tc_subdata a) = sizeof_p_parms ->
  parser_accepts p_registry sample_data p_opts_of a.
Proof.
  intros Hk Hd tc ops p Ho Hp Hkind Hopts.
  split; [discriminate|].
  unfold p_registry in Ho. rewrite Hkind, Hk in Ho.
  change (Byte.eqb x50 x50) with true in Ho. injection Ho as <-.
  injection Hp as <-.
  assert (Hf : has_fill p_registry a = true).
  { unfold has_fill, p_registry. rewrite Hk. reflexivity. }
  rewrite Hf in Hopts. unfold p_msg_parser. rewrite Hopts.
  unfold p_opts_of, nla_parse.
  rewrite nla_stream_single;
    [| unfold TCA_P_PARMS; lia
     | rewrite Hd; unfold NLA_HDRLEN, sizeof_p_parms; lia
     | unfold enc_attr; rewrite !length_app, length_put_le; lia ].
  cbn [List.filter nla_type]. change (TCA_P_PARMS <=? TCA_P_MAX) with true.
  cbn [forallb]. unfold validate_nla, nla_len. cbn [nla_type nla_len_field].
  change (p_policy TCA_P_PARMS) with sizeof_p_parms.
  replace (NLA_HDRLEN + blen (tc_subdata a) - NLA_HDRLEN)
    with sizeof_p_parms by lia.
  rewrite Z.leb_refl. cbn [andb]. change (0 <? 0) with false. cbn iota.
  cbn [tb_get nla_type]. rewrite Z.eqb_refl. cbn [fst]. lia.
Defined.

(** X19: the request that [act_build] makes of a chain of at most 31
    actions with kinds is, for its receiver, a message with a
    [TCA_ACT_TAB] attribute in which the loop of [rtnl_act_parse] visits
    one block per action, in chain order; the loop body accepts each
    block and makes of it an entity with the kind of the action and, as
    raw options, the bytes that the fill operation of the kind wrote for
    the action (none for a kind without such an operation).  This for a
    registry whose fill operations append their bytes, as those written
    with [nla_put] do, and whose parsers accept what the fill operations
    wrote for these actions. *)
Theorem request_blocks_decode
    (get_ops : rtnl_act -> option rtnl_tc_ops)
    (get_data : rtnl_act -> option (list byte))
    (opts_of : rtnl_act -> list byte)
    (msg_size : Z) (alloc_ok : bool) (fuel : nat) (h : heap)
    (act : option loc) (l : list loc) (recs : list rtnl_act)
    (type flags : Z) (m : nl_msg) :
  registry_fills get_ops opts_of ->
  is_chain h act l -> Forall2 (fun x a => h !! x = Some a) l recs ->
  Z.of_nat (length l) < TCA_ACT_MAX_PRIO ->
  Forall (fun a => has_mask a TCA_ATTR_KIND = true) recs ->
  Forall (fun a => kind_ok (tc_kind a)) recs ->
  Forall (parser_accepts get_ops get_data opts_of) recs ->
  act_build get_ops msg_size alloc_ok fuel h act type flags
    = Some (0, Some m) ->
  blen (nm_payload m) < 65536 ->
  exists tab,
    tb_get (nlmsg_parse (mk_nlh (nlmsg_type m) (nm_payload m))
              sizeof_tcamsg TCAA_MAX None).2 TCA_ACT_TAB = Some tab /\
    Forall2 (decodes_to get_ops get_data opts_of) recs (visited_blocks tab).
Proof.
  intros Hfill Hc Hrecs Hlen Hmask Hkind Hacc Hbuild Hsz.
  pose proof (Forall2_length _ _ _ Hrecs) as Hlr.
  apply (act_build_spec get_ops opts_of msg_size alloc_ok fuel h act l recs
           type flags m Hfill Hc Hrecs Hmask) in Hbuild.
  subst m. cbn [nlmsg_type nm_payload] in *.
  set (body := chain_body get_ops opts_of 0 recs) in *.
  pose proof (blen_nonneg body) as Hb0.
  pose proof (NLA_ALIGN_bounds (NLA_HDRLEN + blen body)) as Hba.
  rewrite blen_app, blen_enc_attr in Hsz.
  change (blen (tcamsg_bytes AF_UNSPEC)) with 4 in Hsz.
  assert (Hbsz : NLA_HDRLEN + blen body < 65536) by lia.
  set (pad := zeros (NLA_ALIGN (NLA_HDRLEN + blen body)
                     - (NLA_HDRLEN + blen body))).
  set (tab := mk_nla (NLA_HDRLEN + blen body) TCA_ACT_TAB (body ++ pad)).
  assert (Hnp : nlmsg_parse
                  (mk_nlh type (tcamsg_bytes AF_UNSPEC
                                  ++ enc_attr TCA_ACT_TAB body))
                  sizeof_tcamsg TCAA_MAX None = (0, [tab])).
  { unfold nlmsg_parse. cbn [nlh_data].
    rewrite blen_app, blen_enc_attr.
    change (blen (tcamsg_bytes AF_UNSPEC)) with 4.
    change (NLMSG_ALIGN sizeof_tcamsg) with 4. unfold sizeof_tcamsg.
    destruct (Z.ltb_spec (4 + NLA_ALIGN (NLA_HDRLEN + blen body)) 4);
      [unfold NLA_HDRLEN in *; lia|].
    rewrite (bdrop_app_exact 4 (tcamsg_bytes AF_UNSPEC)) by reflexivity.
    rewrite Z.max_l by (unfold NLA_HDRLEN in *; lia).
    replace (4 + NLA_ALIGN (NLA_HDRLEN + blen body) - 4)
      with (blen (enc_attr TCA_ACT_TAB body))
      by (rewrite blen_enc_attr; lia).
    unfold nla_parse. rewrite nla_stream_single.
    - reflexivity.
    - unfold TCA_ACT_TAB. lia.
    - exact Hbsz.
    - unfold enc_attr. rewrite !length_app, length_put_le. lia. }
  exists tab. rewrite Hnp. split; [reflexivity|].
  rewrite visited_blocks_eq. unfold tab, body.
  rewrite (visited_blocks_built get_ops opts_of TCA_ACT_TAB recs pad);
    [| lia | exact Hbsz].
  apply block_attrs_decode; [exact Hkind | | exact Hacc].
  apply (chain_body_block_bound get_ops opts_of recs 0). exact Hbsz.
Qed.

Lemma request_blocks_decode_witness :
  exists tab,
    tb_get (nlmsg_parse (mk_nlh (nlmsg_type sample_PB_request)
                                (nm_payload sample_PB_request))
              sizeof_tcamsg TCAA_MAX None).2 TCA_ACT_TAB = Some tab /\
    Forall2 (decodes_to p_registry sample_data p_opts_of)
            [sample_act_P; sample_act_B] (visited_blocks tab).
Proof.
  apply (request_blocks_decode p_registry sample_data p_opts_of 4096 true 8
           sample_PB_heap (Some 1%positive) [1%positive; 2%positive]
           [sample_act_P; sample_act_B] RTM_NEWACTION 1024 sample_PB_request
           p_registry_fills).
  - apply (chain_nodes_sound 8). vm_compute. reflexivity.
  - repeat constructor.
  - unfold TCA_ACT_MAX_PRIO. simpl. lia.
  - repeat constructor.
  - repeat constructor; try discriminate.
  - constructor; [|constructor; [|constructor]].
    + apply p_parser_accepts; reflexivity.
    + intros tc ops p Ho. unfold p_registry in Ho. intros _ Hk.
      rewrite Hk in Ho. discriminate Ho.
  - vm_compute. reflexivity.
  - vm_compute. reflexivity.
Defined.

(** ** The cache adapter: a message without actions *)

(** X21: for a message whose [TCA_ACT_TAB] holds no block at the indices
    that the parse loop visits, [act_msg_parser] returns 0 without
    invoking the callback: [rtnl_act_msg_parse] sets [act] to [NULL], so
    the final [rtnl_act_put] releases nothing, and the action allocated
    at the start keeps its one reference. *)
Theorem act_msg_parser_empty_table
    (get_ops : rtnl_act -> option rtnl_tc_ops)
    (get_data : rtnl_act -> option (list byte))
    (lc : option (Z -> option Z)) (cb : state -> option loc -> Z * state)
    fuel st (nlh : nlmsghdr) (tab : nlattr) :
  sizeof_tcamsg <= blen (nlh_data nlh) ->
  tb_get (nlmsg_parse nlh sizeof_tcamsg TCAA_MAX None).2 TCA_ACT_TAB
    = Some tab ->
  visited_blocks tab = [] ->
  (1 <= st_avail st)%nat ->
  exists st',
    act_msg_parser get_ops get_data lc cb fuel st nlh = Some (0, st', []) /\
    st_log st' = st_log st /\
    ce_refcnt <$> (st_heap st' !! st_next st) = Some 1 /\
    (forall y, y <> st_next st -> st_heap st' !! y = st_heap st !! y).
Proof.
  intros Hlen Htab Hvis Hav. rewrite visited_blocks_eq in Hvis.
  unfold act_msg_parser, rtnl_act_alloc.
  destruct (st_avail st) as [|n] eqn:Eav; [lia|].
  unfold rtnl_act_msg_parse, heap_modify.
  cbn [st_heap st_next st_avail st_log]. rewrite lookup_insert_eq.
  cbn [st_heap st_next st_avail st_log].
  unfold nlmsg_parse in *.
  destruct (Z.ltb_spec (blen (nlh_data nlh)) sizeof_tcamsg) as [|_]; [lia|].
  unfold nla_parse in *. cbn [snd] in Htab.
  change (0 <? 0) with false. cbn iota.
  rewrite lookup_insert_eq. cbn [st_heap st_next st_avail st_log].
  rewrite Htab. rewrite rtnl_act_parse_as_seq.
  rewrite (parse_seq_none get_ops get_data fuel _ None _ Hvis).
  change (0 <? 0) with false. cbn iota.
  cbn [st_heap st_next st_avail st_log]. rewrite lookup_insert_eq.
  set (x := st_next st).
  assert (Hfin : forall st2 : state,
            st_log st2 = st_log st ->
            ce_refcnt <$> (st_heap st2 !! x) = Some 1 ->
            (forall y, y <> x -> st_heap st2 !! y = st_heap st !! y) ->
            exists st',
              (if 0 <? 0 then
                 match st_put st2 None with
                 | Some st3 => Some (0, st3, @nil (option loc))
                 | None => None
                 end
               else
                 match cb_walk cb fuel st2 None None 0 [] with
                 | Some (err1, st3, calls) =>
                   match st_put st3 None with
                   | Some st4 => Some (err1, st4, calls)
                   | None => None
                   end
                 | None => None
                 end) = Some (0, st', []) /\
              st_log st' = st_log st /\
              ce_refcnt <$> (st_heap st' !! x) = Some 1 /\
              (forall y, y <> x -> st_heap st' !! y = st_heap st !! y)).
  { intros st2 H1 H2 H3. change (0 <? 0) with false. cbn iota.
    assert (Hw : cb_walk cb fuel st2 None None 0 [] = Some (0, st2, []))
      by (destruct fuel; reflexivity).
    rewrite Hw. unfold st_put, rtnl_act_put, nl_object_put.
    eexists. split; [reflexivity|]. cbn [st_heap st_log].
    split; [exact H1|]. split; [exact H2 | exact H3]. }
  destruct lc as [cache|].
  - destruct (cache _) as [link|].
    + cbn [st_heap st_next st_avail st_log].
      apply Hfin; cbn [st_heap st_log]; [reflexivity| |].
      * rewrite lookup_insert_eq. reflexivity.
      * intros y Hy. rewrite !lookup_insert_ne by congruence. reflexivity.
    + apply Hfin; cbn [st_heap st_log]; [reflexivity| |].
      * rewrite lookup_insert_eq. reflexivity.
      * intros y Hy. rewrite !lookup_insert_ne by congruence. reflexivity.
  - apply Hfin; cbn [st_heap st_log]; [reflexivity| |].
    + rewrite lookup_insert_eq. reflexivity.
    + intros y Hy. rewrite !lookup_insert_ne by congruence. reflexivity.
Qed.

Lemma act_msg_parser_empty_table_witness :
  exists st',
    act_msg_parser no_ops no_data (Some (fun _ => Some 7))
      (fun st _ => (7, st)) 8 (empty_state 8) sample_inbound_empty_tab
      = Some (0, st', []) /\
    st_log st' = st_log (empty_state 8) /\
    ce_refcnt <$> (st_heap st' !! st_next (empty_state 8)) = Some 1 /\
    (forall y, y <> st_next (empty_state 8) ->
       st_heap st' !! y = st_heap (empty_state 8) !! y).
Proof.
  apply (act_msg_parser_empty_table no_ops no_data (Some (fun _ => Some 7))
           (fun st _ => (7, st)) 8 (empty_state 8) sample_inbound_empty_tab
           (mk_nla 4 TCA_ACT_TAB [])).
  - vm_compute. discriminate.
  - vm_compute. reflexivity.
  - vm_compute. reflexivity.
  - simpl. lia.
Defined.

(** ** The cache adapter: the references after a message *)

(** X22: for a message whose table holds one block at the indices that
    the parse loop visits, accepted by the loop body,
    [rtnl_act_msg_parse] returns 0 and replaces [*act] by the entity made
    of the block, whose one reference the parse has released: the caller,
    [act_msg_parser], goes on with a destroyed object in [act].  The
    object that was passed in keeps its reference count, and [*act] does
    not point to it any more. *)
Theorem rtnl_act_msg_parse_returns_released
    (get_ops : rtnl_act -> option rtnl_tc_ops)
    (get_data : rtnl_act -> option (list byte))
    (lc : option (Z -> option Z)) fuel st (nlh : nlmsghdr)
    (tab b : nlattr) (tc : loc) (a0 : rtnl_act) :
  sizeof_tcamsg <= blen (nlh_data nlh) ->
  tb_get (nlmsg_parse nlh sizeof_tcamsg TCAA_MAX None).2 TCA_ACT_TAB
    = Some tab ->
  visited_blocks tab = [b] ->
  0 <= decode_err get_ops get_data b ->
  st_heap st !! tc = Some a0 -> tc <> st_next st ->
  (2 <= st_avail st)%nat ->
  exists st',
    rtnl_act_msg_parse get_ops get_data lc fuel st nlh (Some tc)
      = Some (0, st', Some (st_next st)) /\
    st_log st' = st_log st ++ [st_next st] /\
    ce_refcnt <$> (st_heap st' !! st_next st) = Some 0 /\
    ce_refcnt <$> (st_heap st' !! tc) = Some (ce_refcnt a0).
Proof.
  intros Hlen Htab Hvis Herr Ha0 Hne Hav.
  unfold rtnl_act_msg_parse, heap_modify. rewrite Ha0.
  cbn [st_heap st_next st_avail st_log].
  unfold nlmsg_parse in *.
  destruct (Z.ltb_spec (blen (nlh_data nlh)) sizeof_tcamsg) as [|_]; [lia|].
  unfold nla_parse in *. cbn [snd] in Htab.
  change (0 <? 0) with false. cbn iota.
  rewrite lookup_insert_eq. cbn [st_heap st_next st_avail st_log].
  rewrite Htab. rewrite insert_insert_eq.
  set (a2 := set_family (set_msgtype a0 (nlh_type nlh)) _).
  set (st2 := mk_state (<[tc := a2]> (st_heap st)) (st_next st)
                       (st_avail st) (st_log st)).
  destruct (st_avail st) as [|[|n]] eqn:Eav; [lia | lia |].
  pose proof (parse_fields_decode get_ops get_data b n) as Hpf.
  rewrite (rtnl_act_parse_single_accepted get_ops get_data fuel st2
             (Some tc) tab b (S n) Hvis);
    [|unfold st2; cbn [st_avail]; reflexivity | rewrite Hpf; exact Herr].
  cbv zeta. rewrite Hpf. cbn [fst snd].
  change (0 <? 0) with false. cbn iota.
  unfold st2. cbn [st_heap st_next st_avail st_log].
  set (x := st_next st) in *.
  set (e := set_refcnt (decode_act get_ops get_data b) 0).
  assert (Htc : <[x := e]> (<[tc := a2]> (st_heap st)) !! tc = Some a2).
  { rewrite lookup_insert_ne by congruence. apply lookup_insert_eq. }
  destruct lc as [cache|].
  - rewrite Htc. destruct (cache (tc_ifindex a2)) as [link|].
    + eexists. split; [reflexivity|]. cbn [st_heap st_log].
      split; [reflexivity|]. split.
      * rewrite lookup_insert_ne by congruence.
        rewrite lookup_insert_eq. reflexivity.
      * rewrite lookup_insert_eq. reflexivity.
    + eexists. split; [reflexivity|]. cbn [st_heap st_log].
      split; [reflexivity|]. split.
      * rewrite lookup_insert_eq. reflexivity.
      * rewrite Htc. reflexivity.
  - eexists. split; [reflexivity|]. cbn [st_heap st_log].
    split; [reflexivity|]. split.
    + rewrite lookup_insert_eq. reflexivity.
    + rewrite Htc. reflexivity.
Qed.

Lemma rtnl_act_msg_parse_returns_released_witness :
  exists st',
    rtnl_act_msg_parse no_ops no_data (Some (fun _ => Some 7)) 8
      (mk_state (<[1%positive := act_zero]> ∅) 2%positive 8 [])
      sample_inbound_single (Some 1%positive)
      = Some (0, st', Some 2%positive) /\
    st_log st' = [] ++ [2%positive] /\
    ce_refcnt <$> (st_heap st' !! 2%positive) = Some 0 /\
    ce_refcnt <$> (st_heap st' !! 1%positive) = Some (ce_refcnt act_zero).
Proof.
  eapply (rtnl_act_msg_parse_returns_released no_ops no_data
            (Some (fun _ => Some 7)) 8
            (mk_state (<[1%positive := act_zero]> ∅) 2%positive 8 [])
            sample_inbound_single _ _ 1%positive act_zero).
  - vm_compute. discriminate.
  - vm_compute. reflexivity.
  - vm_compute. reflexivity.
  - vm_compute. discriminate.
  - reflexivity.
  - discriminate.
  - simpl. lia.
Defined.
